(** * BootcampChat: the message-delivery pipeline

  A shallow embedding of [backend/utils/queue.js] (the Redis-backed
  [MessageQueue]) and of the Socket.IO chat module that drives it
  (handshake middleware, connection handler, history loader, room
  membership, chat submission, AI streaming), followed by the
  properties of the pipeline.

  Conventions.  JavaScript [Map]s are [gmap]s; arrays and Redis lists
  are [list]s (head = index 0 = Redis "left"); [Date.now()] is an
  integer number of milliseconds; strings are the UTF-8 encodings of
  the JavaScript strings; a function that may throw returns a sum or
  an option; asynchronous handlers are cut at the points where
  the source really waits for time to pass ([setTimeout]) or for a
  long-running load, and the pending continuation is kept in the
  state. *)

From Stdlib Require Import ZArith Permutation Sorted.
From stdpp Require Import gmap strings list fin_maps sorting pretty.

Local Open Scope string_scope.
Local Open Scope list_scope.
Local Open Scope nat_scope.
Local Open Scope stdpp_scope.

(** ** JavaScript helpers *)

Module JS.

(** [x || d] on an optional value whose falsy inhabitant is [zero]. *)
Definition or_default {A} `{EqDecision A} (zero : A) (x : option A) (d : A) : A :=
  match x with
  | Some v => if decide (v = zero) then d else v
  | None => d
  end.

(** Truthiness of an optional string: [undefined] and [''] are falsy. *)
Definition truthy_str (x : option string) : bool :=
  match x with
  | Some s => negb (String.eqb s "")
  | None => false
  end.

(** Truthiness of an optional number: [undefined] and [0] are falsy. *)
Definition truthy_num (x : option Z) : bool :=
  match x with
  | Some n => negb (Z.eqb n 0)
  | None => false
  end.

(** Strings are the UTF-8 encodings of the JavaScript strings.  The
    code points [String.prototype.trim] strips are the WhiteSpace and
    LineTerminator productions of ECMA-262: U+0009 to U+000D and
    U+0020 (one byte), U+00A0 (two bytes), and U+1680, U+2000 to
    U+200A, U+2028, U+2029, U+202F, U+205F, U+3000 and U+FEFF (three
    bytes). *)
Definition is_ws1 (a : Ascii.ascii) : bool :=
  let x := Ascii.nat_of_ascii a in
  Nat.eqb x 32 || (Nat.leb 9 x && Nat.leb x 13).

Definition is_ws2 (a b : Ascii.ascii) : bool :=
  Nat.eqb (Ascii.nat_of_ascii a) 194 && Nat.eqb (Ascii.nat_of_ascii b) 160.

Definition is_ws3 (a b c : Ascii.ascii) : bool :=
  let x := Ascii.nat_of_ascii a in
  let y := Ascii.nat_of_ascii b in
  let z := Ascii.nat_of_ascii c in
  (Nat.eqb x 225 && Nat.eqb y 154 && Nat.eqb z 128)
  || (Nat.eqb x 226 && Nat.eqb y 128
      && ((Nat.leb 128 z && Nat.leb z 138) || Nat.eqb z 168 || Nat.eqb z 169
          || Nat.eqb z 175))
  || (Nat.eqb x 226 && Nat.eqb y 129 && Nat.eqb z 159)
  || (Nat.eqb x 227 && Nat.eqb y 128 && Nat.eqb z 128)
  || (Nat.eqb x 239 && Nat.eqb y 187 && Nat.eqb z 191).

(** Drop the leading run of white space; [two] and [three] recognise
    the two- and three-byte code points in the order the bytes are
    met. *)
Fixpoint strip (two : Ascii.ascii → Ascii.ascii → bool)
    (three : Ascii.ascii → Ascii.ascii → Ascii.ascii → bool) (s : string) : string :=
  match s with
  | String a s1 =>
      if is_ws1 a then strip two three s1
      else match s1 with
           | String b s2 =>
               if two a b then strip two three s2
               else match s2 with
                    | String c s3 => if three a b c then strip two three s3 else s
                    | EmptyString => s
                    end
           | EmptyString => s
           end
  | EmptyString => EmptyString
  end.

Definition trimStart (s : string) : string := strip is_ws2 is_ws3 s.

(** [trimEnd] drops the trailing run of white space: the leading run
    of the reversed string, whose code points come last byte first. *)
Definition trimEnd (s : string) : string :=
  String.rev (strip (λ b a, is_ws2 a b) (λ c b a, is_ws3 a b c) (String.rev s)).

(** [String.prototype.trim] *)
Definition trim (s : string) : string := trimEnd (trimStart s).

(** [s.endsWith(suffix)]. *)
Definition endsWith (s suffix : string) : bool :=
  let n := String.length s in
  let k := String.length suffix in
  Nat.leb k n && String.eqb (String.substring (n - k) k s) suffix.

End JS.

(** ** The document store behind [models/Message] and [models/Room] *)

Module Db.

(** Modelled from the spec: the Persistence Adapter's record — the
    mongoose model [models/Message] is not among the sources.  A
    [PersistedMessage] has a system-assigned identifier, the fields
    given at creation, and a [readers] list (reader id, read time). *)
Record Message := {
  _id : nat;
  room : string;
  sender : option string;
  content : option string;
  type : string;
  file : option string;
  aiType : option string;
  timestamp : Z;
  readers : list (string * Z)
}.

#[export] Instance Message_eq_dec : EqDecision Message.
Proof. solve_decision. Defined.

(** The fields handed to [Message.create] / [new Message]. *)
Record Fields := {
  f_room : string;
  f_sender : option string;
  f_content : option string;
  f_type : string;
  f_file : option string;
  f_aiType : option string;
  f_timestamp : Z
}.

(** Modelled from the spec: [create(payload) → PersistedMessage].  The
    identifier is the next free index of the collection; the
    collection is kept in insertion order. *)
Definition create (coll : list Message) (f : Fields) : Message * list Message :=
  let m := {| _id := length coll; room := f_room f; sender := f_sender f;
              content := f_content f; type := f_type f; file := f_file f;
              aiType := f_aiType f; timestamp := f_timestamp f; readers := [] |} in
  (m, coll ++ [m]).

End Db.

(** ** [backend/utils/queue.js]: the Redis-backed message queue *)

Module Queue.

Record FileData := { fd_id : string }.

Record Metadata := { sessionId : string; userAgent : string; ipAddress : string }.

(** The JavaScript object that travels through the queue.  The chat
    handler builds it without [attemptCount]/[queuedAt]; [enqueue]
    and [moveToDeadLetter] spread it into a new object and set (or
    overwrite) the bookkeeping keys.  An absent key is [None]. *)
Record QMsg := {
  room : string;
  sender : string;
  type : string;
  content : option string;
  fileData : option FileData;
  tempId : string;
  metadata : Metadata;
  attemptCount : option nat;
  queuedAt : option Z;
  error : option string;
  failedAt : option Z
}.

#[export] Instance FileData_eq_dec : EqDecision FileData.
Proof. solve_decision. Defined.
#[export] Instance Metadata_eq_dec : EqDecision Metadata.
Proof. solve_decision. Defined.
#[export] Instance QMsg_eq_dec : EqDecision QMsg.
Proof. solve_decision. Defined.

(** [{...m, attemptCount: n}] *)
Definition with_attemptCount (n : nat) (m : QMsg) : QMsg :=
  {| room := room m; sender := sender m; type := type m; content := content m;
     fileData := fileData m; tempId := tempId m; metadata := metadata m;
     attemptCount := Some n; queuedAt := queuedAt m;
     error := error m; failedAt := failedAt m |}.

(** [{...m, queuedAt: t}] *)
Definition with_queuedAt (t : Z) (m : QMsg) : QMsg :=
  {| room := room m; sender := sender m; type := type m; content := content m;
     fileData := fileData m; tempId := tempId m; metadata := metadata m;
     attemptCount := attemptCount m; queuedAt := Some t;
     error := error m; failedAt := failedAt m |}.

(** [{...m, error: e, failedAt: t}] *)
Definition with_failure (e : string) (t : Z) (m : QMsg) : QMsg :=
  {| room := room m; sender := sender m; type := type m; content := content m;
     fileData := fileData m; tempId := tempId m; metadata := metadata m;
     attemptCount := attemptCount m; queuedAt := queuedAt m;
     error := Some e; failedAt := Some t |}.

(** *** The Redis list store

    Keys map to lists; a key whose list is empty does not exist.  Every
    command is a round trip that may fail: [faults] is the schedule of
    the coming round trips ([true] = this one throws); an exhausted
    schedule means the store is reachable from then on.  Lane entries
    are the [JSON.stringify] images of [QMsg] objects, compared by
    value as [LREM] does. *)
Record Redis := {
  lists : gmap string (list QMsg);
  faults : list bool
}.

Definition lane (r : Redis) (key : string) : list QMsg :=
  default [] (lists r !! key).

Definition set_lane (key : string) (l : list QMsg) (r : Redis) : Redis :=
  {| lists := match l with
              | [] => delete key (lists r)
              | _ => <[key := l]> (lists r)
              end;
     faults := faults r |}.

Definition round_trip (r : Redis) : bool * Redis :=
  match faults r with
  | [] => (false, r)
  | down :: fs => (down, {| lists := lists r; faults := fs |})
  end.

(** [RPUSH key v1 ... vn]: append at the tail, answer the new length. *)
Definition rpush (key : string) (vals : list QMsg) (r : Redis) : option nat * Redis :=
  let '(down, r) := round_trip r in
  if down then (None, r)
  else let l := lane r key ++ vals in (Some (length l), set_lane key l r).

(** [MULTI; RPOPLPUSH src dst; EXEC]: take the tail element of [src]
    and put it at the head of [dst]; [Some None] when [src] is empty. *)
Definition exec_rpoplpush (src dst : string) (r : Redis) : option (option QMsg) * Redis :=
  let '(down, r) := round_trip r in
  if down then (None, r)
  else match last (lane r src) with
       | None => (Some None, r)
       | Some v =>
           let r1 := set_lane src (removelast (lane r src)) r in
           (Some (Some v), set_lane dst (v :: lane r1 dst) r1)
       end.

Fixpoint remove_first (v : QMsg) (l : list QMsg) : list QMsg :=
  match l with
  | [] => []
  | x :: l' => if decide (x = v) then l' else x :: remove_first v l'
  end.

(** [LREM key 1 v]: drop the first occurrence of [v], from the head. *)
Definition lrem1 (key : string) (v : QMsg) (r : Redis) : option nat * Redis :=
  let '(down, r) := round_trip r in
  if down then (None, r)
  else let l := lane r key in
       let l' := remove_first v l in
       (Some (length l - length l'), set_lane key l' r).

(** [LRANGE key 0 -1] *)
Definition lrange_all (key : string) (r : Redis) : option (list QMsg) * Redis :=
  let '(down, r) := round_trip r in
  if down then (None, r) else (Some (lane r key), r).

(** [MULTI; DEL key; RPUSH dst v1 ... vn; EXEC] *)
Definition exec_del_rpush (key dst : string) (vals : list QMsg) (r : Redis) : option unit * Redis :=
  let '(down, r) := round_trip r in
  if down then (None, r)
  else let r1 := set_lane key [] r in
       (Some tt, set_lane dst (lane r1 dst ++ vals) r1).

(** *** [class MessageQueue] *)

Definition mainQueue : string := "chat_messages".
Definition processingQueue : string := "processing_messages".
Definition deadLetterQueue : string := "dead_letter_messages".
Definition maxRetries : nat := 3.

(** What [Message.create] and the two [populate] calls do for one
    entry: the adapter is an external collaborator. *)
Inductive Adapter :=
| Persists
| CreateFails (reason : string)
| PopulateFails (reason : string).

(** Events of the [EventEmitter] the queue extends. *)
Inductive Event :=
| messageProcessed (message : Db.Message) (originalMessage : QMsg)
| messageError (reason : string) (originalMessage : QMsg).

Definition enqueue (now : Z) (messageData : QMsg) (r : Redis) : bool * Redis :=
  let message := with_queuedAt now (with_attemptCount 0 messageData) in
  match rpush mainQueue [message] r with
  | (Some _, r') => (true, r')
  | (None, r') => (false, r')
  end.

Definition message_fields (now : Z) (message : QMsg) : Db.Fields :=
  {| Db.f_room := room message;
     Db.f_sender := Some (sender message);
     Db.f_content := content message;
     Db.f_type := type message;
     Db.f_file := if String.eqb (type message) "file"
                  then fd_id <$> fileData message else None;
     Db.f_aiType := None;
     Db.f_timestamp := now |}.

(** [processMessage]: [inl tt] is the [return true], [inr e] the
    rethrown error. *)
Definition processMessage (now : Z) (adapter : Adapter) (coll : list Db.Message)
    (message : QMsg) : (unit + string) * list Db.Message * list Event :=
  match adapter with
  | CreateFails e => (inr e, coll, [messageError e message])
  | PopulateFails e =>
      let '(_, coll') := Db.create coll (message_fields now message) in
      (inr e, coll', [messageError e message])
  | Persists =>
      let '(newMessage, coll') := Db.create coll (message_fields now message) in
      (inl tt, coll', [messageProcessed newMessage message])
  end.

Definition moveToDeadLetter (now : Z) (message : QMsg) (e : string) (r : Redis) : Redis :=
  let deadMessage := with_failure e now message in
  snd (rpush deadLetterQueue [deadMessage] r).

(** The text of the error a refused Redis command throws; the source
    does not fix it, it is what the client library reports. *)
Definition redis_error : string := "Connection is closed.".

(** The inner [catch] of [startProcessing]: the count goes up, the
    entry is re-enqueued or moved to the dead-letter lane, and it is
    removed from the in-flight lane.  A throwing [LREM] leaves the turn
    through the outer [catch]. *)
Definition on_processing_error (now : Z) (raw : QMsg) (e : string) (r : Redis) : Redis :=
  let n := JS.or_default 0 (attemptCount raw) 0 + 1 in
  let message := with_attemptCount n raw in
  let r2 := if decide (maxRetries ≤ n)
            then moveToDeadLetter now message e r
            else snd (enqueue now message r) in
  snd (lrem1 processingQueue raw r2).

(** One turn of the [while (true)] loop of [startProcessing].  A
    throwing [RPOPLPUSH] leaves the turn through the outer [catch];
    the [LREM] after a successful [processMessage] is inside the inner
    [try], so that its failure is handled like a failure of
    [processMessage]; the two sleeps only pace the loop. *)
Definition startProcessing_turn (now : Z) (adapter : Adapter)
    (coll : list Db.Message) (r : Redis) : Redis * list Db.Message * list Event :=
  match exec_rpoplpush mainQueue processingQueue r with
  | (None, r1) => (r1, coll, [])
  | (Some None, r1) => (r1, coll, [])
  | (Some (Some raw), r1) =>
      match processMessage now adapter coll raw with
      | (inl _, coll', evs) =>
          match lrem1 processingQueue raw r1 with
          | (Some _, r2) => (r2, coll', evs)
          | (None, r2) => (on_processing_error now raw redis_error r2, coll', evs)
          end
      | (inr e, coll', evs) => (on_processing_error now raw e r1, coll', evs)
      end
  end.

(** The loop, for as many turns as the schedule has entries; each
    entry gives the time of the turn and what the adapter does. *)
Fixpoint startProcessing (turns : list (Z * Adapter)) (coll : list Db.Message)
    (r : Redis) : Redis * list Db.Message * list Event :=
  match turns with
  | [] => (r, coll, [])
  | (now, adapter) :: rest =>
      let '(r1, coll1, evs1) := startProcessing_turn now adapter coll r in
      let '(r2, coll2, evs2) := startProcessing rest coll1 r1 in
      (r2, coll2, evs1 ++ evs2)
  end.

Definition cleanup (r : Redis) : Redis :=
  match lrange_all processingQueue r with
  | (None, r1) => r1
  | (Some processingMessages, r1) =>
      if decide (0 < length processingMessages)
      then snd (exec_del_rpush processingQueue mainQueue processingMessages r1)
      else r1
  end.

Definition empty : Redis := {| lists := ∅; faults := [] |}.

(** A schedule of failing attempts, back to back, at the given times. *)
Definition failing (e : string) (times : list Z) : list (Z * Adapter) :=
  (λ t, (t, CreateFails e)) <$> times.

End Queue.

(** ** The Socket.IO chat module *)

Module Chat.

Definition BATCH_SIZE : nat := 30.
Definition LOAD_DELAY : Z := 300.
Definition MAX_RETRIES : nat := 3.
Definition MESSAGE_LOAD_TIMEOUT : Z := 10000.
Definition RETRY_DELAY : Z := 2000.
Definition DUPLICATE_LOGIN_TIMEOUT : Z := 10000.

(** [socket.user], set by the handshake middleware. *)
Record User := {
  id : string;
  name : string;
  email : string;
  sessionId : string;
  profileImage : string
}.

#[export] Instance User_eq_dec : EqDecision User.
Proof. solve_decision. Defined.

(** *** History loader *)

(** What the awaited [Message.find(...)] of one attempt does: it
    answers, it loses the race against the [MESSAGE_LOAD_TIMEOUT]
    timer, or it throws. *)
Inductive FindBehaviour :=
| Responds
| TimesOut
| FindFails (reason : string).

Definition older_first (a b : Db.Message) : Prop := (Db.timestamp a ≤ Db.timestamp b)%Z.
Definition newer_first (a b : Db.Message) : Prop := (Db.timestamp b ≤ Db.timestamp a)%Z.

#[export] Instance older_first_dec a b : Decision (older_first a b).
Proof. unfold older_first. apply _. Defined.
#[export] Instance newer_first_dec a b : Decision (newer_first a b).
Proof. unfold newer_first. apply _. Defined.

(** The query object: [{ room: roomId }], plus
    [timestamp: { $lt: new Date(before) }] when [before] is truthy. *)
Definition matches (roomId : string) (before : option Z) (m : Db.Message) : Prop :=
  Db.room m = roomId ∧
  if JS.truthy_num before then (Db.timestamp m < default 0%Z before)%Z else True.

#[export] Instance matches_dec roomId before m : Decision (matches roomId before m).
Proof. unfold matches. destruct (JS.truthy_num before); apply _. Defined.

(** Modelled from the spec: [findPage(room, before, limit)], here
    [Message.find(query).sort({ timestamp: -1 }).limit(n)] — the
    matching documents, newest first, at most [n] of them. *)
Definition find (coll : list Db.Message) (roomId : string) (before : option Z)
    (n : nat) : list Db.Message :=
  take n (merge_sort newer_first (filter (matches roomId before) coll)).

Record LoadResult := {
  messages : list Db.Message;
  hasMore : bool;
  oldestTimestamp : option Z
}.

Definition has_reader (uid : string) (m : Db.Message) : bool :=
  existsb (λ r, String.eqb (fst r) uid) (Db.readers m).

Definition push_reader (uid : string) (now : Z) (m : Db.Message) : Db.Message :=
  {| Db._id := Db._id m; Db.room := Db.room m; Db.sender := Db.sender m;
     Db.content := Db.content m; Db.type := Db.type m; Db.file := Db.file m;
     Db.aiType := Db.aiType m; Db.timestamp := Db.timestamp m;
     Db.readers := Db.readers m ++ [(uid, now)] |}.

(** [Message.updateMany({_id: {$in: ids}, 'readers.userId': {$ne: uid}},
    {$push: {readers: {userId: uid, readAt: now}}})] *)
Definition mark_read (uid : string) (now : Z) (ids : list nat)
    (coll : list Db.Message) : list Db.Message :=
  (λ m, if bool_decide (Db._id m ∈ ids) && negb (has_reader uid m)
        then push_reader uid now m else m) <$> coll.

Definition load_timeout_message : string := "Message loading timed out".

(** [loadMessages(socket, roomId, before, limit = BATCH_SIZE)]: the
    result or the error thrown, and the collection after the
    fire-and-forget read marking. *)
Definition loadMessages (now : Z) (db : FindBehaviour) (coll : list Db.Message)
    (user : option User) (roomId : string) (before : option Z) (limit : nat)
    : (LoadResult + string) * list Db.Message :=
  match db with
  | TimesOut => (inr load_timeout_message, coll)
  | FindFails e => (inr e, coll)
  | Responds =>
      let messages := find coll roomId before (limit + 1) in
      let hasMore := bool_decide (limit < length messages) in
      let resultMessages := take limit messages in
      let sortedMessages := merge_sort older_first resultMessages in
      let coll' :=
        match sortedMessages, user with
        | _ :: _, Some u => mark_read (id u) now (Db._id <$> sortedMessages) coll
        | _, _ => coll
        end in
      (inl {| messages := sortedMessages;
              hasMore := hasMore;
              oldestTimestamp :=
                match sortedMessages with
                | m :: _ => Some (Db.timestamp m)
                | [] => None
                end |},
       coll')
  end.

Definition retries_exceeded_message : string := "최대 재시도 횟수를 초과했습니다.".

Definition retry_key (roomId uid : string) : string := roomId +:+ ":" +:+ uid.

(** *** Events sent to clients *)

Record ActiveStream := {
  as_id : string;
  as_aiType : string;
  as_content : string;
  as_timestamp : Z
}.

Record Snapshot := {
  participants : list string;
  snap_messages : list Db.Message;
  snap_hasMore : bool;
  snap_oldestTimestamp : option Z;
  activeStreams : list ActiveStream
}.

Inductive ServerEvent :=
| connect_error (reason : string)
| duplicate_login (deviceInfo ipAddress : string) (timestamp : Z)
| session_ended (reason : string)
| messageLoadStart
| previousMessagesLoaded (result : LoadResult)
| error (kind : string) (reason : string)
| joinRoomSuccess (roomId : string) (snapshot : option Snapshot)
| joinRoomError (reason : string)
| userLeft (userId userName : string)
| message (m : Db.Message)
| participantsUpdate (ps : list string)
| messageQueued (tempId : string) (queuedAt : Z)
| messageProcessed (tempId : string) (m : Db.Message)
| messageError (tempId : string) (reason : string)
| aiMessageStart (messageId aiType : string) (timestamp : Z)
| aiMessageChunk (messageId : string) (currentChunk : option string)
    (fullContent : string) (isCodeBlock : bool) (aiType : string)
| aiMessageComplete (messageId : string) (doc : nat) (content : string)
    (aiType query : string)
| aiMessageError (messageId reason aiType : string).

(** Whom an [emit] addresses: [socket.emit], [io.to(room).emit],
    [socket.to(room).emit] (the room but this socket), and the
    [next(err)] answer to a client that is still connecting. *)
Inductive Target :=
| ToSocket (sid : string)
| ToRoom (room : string)
| ToRoomExcept (room sid : string)
| ToClient (sid : string).

#[export] Instance Target_eq_dec : EqDecision Target.
Proof. solve_decision. Defined.

(** One emission, with the connections it reached at that moment. *)
Record Emission := {
  target : Target;
  recipients : list string;
  event : ServerEvent;
  at_time : Z
}.

(** *** Process-wide state *)

Record Handshake := {
  token : option string;
  auth_sessionId : option string;
  user_agent : string;
  address : string
}.

(** What the collaborators of the middleware answer: [jwt.verify],
    [SessionService.validateSession] and [User.findById]. *)
Inductive Jwt :=
| Decoded (uid : option string)
| TokenExpiredError
| JsonWebTokenError
| VerifyThrows.

Record SessionValidation := { isValid : bool; validation_message : option string }.

Record UserRecord := { u_name : string; u_email : string; u_profileImage : string }.

Record AuthEnv := {
  jwt : Jwt;
  validation : SessionValidation;
  found : option UserRecord
}.

(** A live connection of [io.sockets.sockets]: the middleware has set
    [socket.user] before the connection handler runs, so the
    [!socket.user] guards of the handlers never fire. *)
Record Socket := {
  user : User;
  joined : gset string;
  handshake : Handshake
}.

Record StreamingSession := {
  ss_room : string;
  ss_aiType : string;
  ss_content : string;
  ss_messageId : string;
  ss_timestamp : Z;
  ss_lastUpdate : Z;
  ss_userId : option string
}.

(** A handshake parked in [await handleDuplicateLogin(...)]. *)
Record PendingAuth := {
  pa_sid : string;
  pa_handshake : Handshake;
  pa_env : AuthEnv;
  pa_uid : string
}.

(** A [fetchPreviousMessages] handler parked in
    [await loadMessagesWithRetry(...)]. *)
Record PendingLoad := {
  pl_sid : string;
  pl_user : User;
  pl_roomId : string;
  pl_before : option Z
}.

#[export] Instance PendingLoad_eq_dec : EqDecision PendingLoad.
Proof. solve_decision. Defined.

(** The [setTimeout] callbacks of the module; [RetryLoad] is the
    back-off of [loadMessagesWithRetry], after which the recursive call
    runs. *)
Inductive Timer :=
| EndSession (sid : string) (resume : option PendingAuth)
| ReleaseLoadGuard (queueKey : string)
| RetryLoad (p : PendingLoad).

(** The module's maps, Socket.IO's table of live connections, the
    listeners attached to the queue's emitter, the two collections,
    the Redis store, the timer heap, the clock and the record of
    everything emitted so far. *)
Record Server := {
  connectedUsers : gmap string string;
  streamingSessions : gmap string StreamingSession;
  userRooms : gmap string string;
  messageQueues : gmap string bool;
  messageLoadRetries : gmap string nat;
  sockets : gmap string Socket;
  processedListeners : nat;
  errorListeners : nat;
  rooms : gmap string (list string);
  stored : list Db.Message;
  redis : Queue.Redis;
  timers : list (Z * Timer);
  loading : list PendingLoad;
  clock : Z;
  out : list Emission;
  exited : bool
}.

(** Field updates: [{ ...s, field: v }]. *)
Definition set_connectedUsers (v : gmap string string) (s : Server) : Server :=
  {| connectedUsers := v; streamingSessions := streamingSessions s;
     userRooms := userRooms s; messageQueues := messageQueues s;
     messageLoadRetries := messageLoadRetries s; sockets := sockets s;
     processedListeners := processedListeners s;
     errorListeners := errorListeners s; rooms := rooms s;
     stored := stored s; redis := redis s; timers := timers s;
     loading := loading s; clock := clock s; out := out s;
     exited := exited s |}.

Definition set_streamingSessions (v : gmap string StreamingSession) (s : Server) : Server :=
  {| connectedUsers := connectedUsers s; streamingSessions := v;
     userRooms := userRooms s; messageQueues := messageQueues s;
     messageLoadRetries := messageLoadRetries s; sockets := sockets s;
     processedListeners := processedListeners s;
     errorListeners := errorListeners s; rooms := rooms s;
     stored := stored s; redis := redis s; timers := timers s;
     loading := loading s; clock := clock s; out := out s;
     exited := exited s |}.

Definition set_userRooms (v : gmap string string) (s : Server) : Server :=
  {| connectedUsers := connectedUsers s;
     streamingSessions := streamingSessions s; userRooms := v;
     messageQueues := messageQueues s;
     messageLoadRetries := messageLoadRetries s; sockets := sockets s;
     processedListeners := processedListeners s;
     errorListeners := errorListeners s; rooms := rooms s;
     stored := stored s; redis := redis s; timers := timers s;
     loading := loading s; clock := clock s; out := out s;
     exited := exited s |}.

Definition set_messageQueues (v : gmap string bool) (s : Server) : Server :=
  {| connectedUsers := connectedUsers s;
     streamingSessions := streamingSessions s; userRooms := userRooms s;
     messageQueues := v; messageLoadRetries := messageLoadRetries s;
     sockets := sockets s; processedListeners := processedListeners s;
     errorListeners := errorListeners s; rooms := rooms s;
     stored := stored s; redis := redis s; timers := timers s;
     loading := loading s; clock := clock s; out := out s;
     exited := exited s |}.

Definition set_messageLoadRetries (v : gmap string nat) (s : Server) : Server :=
  {| connectedUsers := connectedUsers s;
     streamingSessions := streamingSessions s; userRooms := userRooms s;
     messageQueues := messageQueues s; messageLoadRetries := v;
     sockets := sockets s; processedListeners := processedListeners s;
     errorListeners := errorListeners s; rooms := rooms s;
     stored := stored s; redis := redis s; timers := timers s;
     loading := loading s; clock := clock s; out := out s;
     exited := exited s |}.

Definition set_sockets (v : gmap string Socket) (s : Server) : Server :=
  {| connectedUsers := connectedUsers s;
     streamingSessions := streamingSessions s; userRooms := userRooms s;
     messageQueues := messageQueues s;
     messageLoadRetries := messageLoadRetries s; sockets := v;
     processedListeners := processedListeners s;
     errorListeners := errorListeners s; rooms := rooms s;
     stored := stored s; redis := redis s; timers := timers s;
     loading := loading s; clock := clock s; out := out s;
     exited := exited s |}.

Definition set_processedListeners (v : nat) (s : Server) : Server :=
  {| connectedUsers := connectedUsers s;
     streamingSessions := streamingSessions s; userRooms := userRooms s;
     messageQueues := messageQueues s;
     messageLoadRetries := messageLoadRetries s; sockets := sockets s;
     processedListeners := v; errorListeners := errorListeners s;
     rooms := rooms s; stored := stored s; redis := redis s;
     timers := timers s; loading := loading s; clock := clock s;
     out := out s; exited := exited s |}.

Definition set_errorListeners (v : nat) (s : Server) : Server :=
  {| connectedUsers := connectedUsers s;
     streamingSessions := streamingSessions s; userRooms := userRooms s;
     messageQueues := messageQueues s;
     messageLoadRetries := messageLoadRetries s; sockets := sockets s;
     processedListeners := processedListeners s; errorListeners := v;
     rooms := rooms s; stored := stored s; redis := redis s;
     timers := timers s; loading := loading s; clock := clock s;
     out := out s; exited := exited s |}.

Definition set_rooms (v : gmap string (list string)) (s : Server) : Server :=
  {| connectedUsers := connectedUsers s;
     streamingSessions := streamingSessions s; userRooms := userRooms s;
     messageQueues := messageQueues s;
     messageLoadRetries := messageLoadRetries s; sockets := sockets s;
     processedListeners := processedListeners s;
     errorListeners := errorListeners s; rooms := v; stored := stored s;
     redis := redis s; timers := timers s; loading := loading s;
     clock := clock s; out := out s; exited := exited s |}.

Definition set_stored (v : list Db.Message) (s : Server) : Server :=
  {| connectedUsers := connectedUsers s;
     streamingSessions := streamingSessions s; userRooms := userRooms s;
     messageQueues := messageQueues s;
     messageLoadRetries := messageLoadRetries s; sockets := sockets s;
     processedListeners := processedListeners s;
     errorListeners := errorListeners s; rooms := rooms s; stored := v;
     redis := redis s; timers := timers s; loading := loading s;
     clock := clock s; out := out s; exited := exited s |}.

Definition set_redis (v : Queue.Redis) (s : Server) : Server :=
  {| connectedUsers := connectedUsers s;
     streamingSessions := streamingSessions s; userRooms := userRooms s;
     messageQueues := messageQueues s;
     messageLoadRetries := messageLoadRetries s; sockets := sockets s;
     processedListeners := processedListeners s;
     errorListeners := errorListeners s; rooms := rooms s;
     stored := stored s; redis := v; timers := timers s;
     loading := loading s; clock := clock s; out := out s;
     exited := exited s |}.

Definition set_timers (v : list (Z * Timer)) (s : Server) : Server :=
  {| connectedUsers := connectedUsers s;
     streamingSessions := streamingSessions s; userRooms := userRooms s;
     messageQueues := messageQueues s;
     messageLoadRetries := messageLoadRetries s; sockets := sockets s;
     processedListeners := processedListeners s;
     errorListeners := errorListeners s; rooms := rooms s;
     stored := stored s; redis := redis s; timers := v; loading := loading s;
     clock := clock s; out := out s; exited := exited s |}.

Definition set_loading (v : list PendingLoad) (s : Server) : Server :=
  {| connectedUsers := connectedUsers s;
     streamingSessions := streamingSessions s; userRooms := userRooms s;
     messageQueues := messageQueues s;
     messageLoadRetries := messageLoadRetries s; sockets := sockets s;
     processedListeners := processedListeners s;
     errorListeners := errorListeners s; rooms := rooms s;
     stored := stored s; redis := redis s; timers := timers s; loading := v;
     clock := clock s; out := out s; exited := exited s |}.

Definition set_clock (v : Z) (s : Server) : Server :=
  {| connectedUsers := connectedUsers s;
     streamingSessions := streamingSessions s; userRooms := userRooms s;
     messageQueues := messageQueues s;
     messageLoadRetries := messageLoadRetries s; sockets := sockets s;
     processedListeners := processedListeners s;
     errorListeners := errorListeners s; rooms := rooms s;
     stored := stored s; redis := redis s; timers := timers s;
     loading := loading s; clock := v; out := out s; exited := exited s |}.

Definition set_out (v : list Emission) (s : Server) : Server :=
  {| connectedUsers := connectedUsers s;
     streamingSessions := streamingSessions s; userRooms := userRooms s;
     messageQueues := messageQueues s;
     messageLoadRetries := messageLoadRetries s; sockets := sockets s;
     processedListeners := processedListeners s;
     errorListeners := errorListeners s; rooms := rooms s;
     stored := stored s; redis := redis s; timers := timers s;
     loading := loading s; clock := clock s; out := v; exited := exited s |}.

Definition set_exited (v : bool) (s : Server) : Server :=
  {| connectedUsers := connectedUsers s;
     streamingSessions := streamingSessions s; userRooms := userRooms s;
     messageQueues := messageQueues s;
     messageLoadRetries := messageLoadRetries s; sockets := sockets s;
     processedListeners := processedListeners s;
     errorListeners := errorListeners s; rooms := rooms s;
     stored := stored s; redis := redis s; timers := timers s;
     loading := loading s; clock := clock s; out := out s; exited := v |}.

(** *** Emitting *)

Definition members (room : string) (s : Server) : list string :=
  (map_to_list (filter (λ kv, room ∈ joined kv.2) (sockets s))).*1.

Definition reached (tg : Target) (s : Server) : list string :=
  match tg with
  | ToSocket sid => if decide (is_Some (sockets s !! sid)) then [sid] else []
  | ToRoom room => members room s
  | ToRoomExcept room sid => filter (λ x, x ≠ sid) (members room s)
  | ToClient sid => [sid]
  end.

Definition emit (tg : Target) (e : ServerEvent) (s : Server) : Server :=
  set_out (out s ++ [{| target := tg; recipients := reached tg s;
                        event := e; at_time := clock s |}]) s.

(** [setTimeout(callback, delay)] *)
Definition setTimeout (tm : Timer) (delay : Z) (s : Server) : Server :=
  set_timers (timers s ++ [((clock s + delay)%Z, tm)]) s.

(** *** The [disconnect] handler and Socket.IO's disconnection *)

Definition leave_fields (roomId : string) (text : string) (now : Z) : Db.Fields :=
  {| Db.f_room := roomId; Db.f_sender := None; Db.f_content := Some text;
     Db.f_type := "system"; Db.f_file := None; Db.f_aiType := None;
     Db.f_timestamp := now |}.

(** [Room.findByIdAndUpdate(roomId, { $pull: { participants: uid } },
    { new: true })]: the updated participants, if the room exists. *)
Definition pull_participant (roomId uid : string) (s : Server)
    : option (list string) * Server :=
  match rooms s !! roomId with
  | Some ps =>
      let ps' := filter (λ p, p ≠ uid) ps in
      (Some ps', set_rooms (<[roomId := ps']> (rooms s)) s)
  | None => (None, s)
  end.

(** The synchronous part of the [disconnect] handler: the identity's
    entries are dropped from the module's maps. *)
Definition forget_user (sid uid : string) (s : Server) : Server :=
  let s := if decide (connectedUsers s !! uid = Some sid)
           then set_connectedUsers (delete uid (connectedUsers s)) s else s in
  let s := set_userRooms (delete uid (userRooms s)) s in
  let userQueues : gset string :=
    dom (filter (λ kv, JS.endsWith kv.1 (":" +:+ uid) = true) (messageQueues s)) in
  let s := set_messageQueues
             (filter (λ kv, kv.1 ∉ userQueues) (messageQueues s)) s in
  let s := set_messageLoadRetries
             (filter (λ kv, kv.1 ∉ userQueues) (messageLoadRetries s)) s in
  set_streamingSessions
    (filter (λ kv, ss_userId kv.2 ≠ Some uid) (streamingSessions s)) s.

(** The part after it, for a connection lost while in a room: the
    system message, the participant pulled from the room, and the two
    broadcasts when the room still exists. *)
Definition announce_leave (roomId : string) (u : User) (s : Server) : Server :=
  let '(leaveMessage, coll) :=
    Db.create (stored s)
      (leave_fields roomId (name u +:+ "님이 연결이 끊어졌습니다.") (clock s)) in
  match pull_participant roomId (id u) (set_stored coll s) with
  | (Some ps, s) =>
      emit (ToRoom roomId) (participantsUpdate ps)
        (emit (ToRoom roomId) (message leaveMessage) s)
  | (None, s) => s
  end.

(** [socket.on('disconnect', async reason => ...)]; [roomId] is read
    before the identity's entry is deleted, as in the source. *)
Definition on_disconnect (sid : string) (sock : Socket) (reason : string)
    (s : Server) : Server :=
  let roomId := userRooms s !! id (user sock) in
  let s := forget_user sid (id (user sock)) s in
  match roomId with
  | Some roomId =>
      if negb (String.eqb roomId "")
         && negb (String.eqb reason "client namespace disconnect")
         && negb (String.eqb reason "duplicate_login")
      then announce_leave roomId (user sock) s
      else s
  | None => s
  end.

(** A connection goes away for [reason]: Socket.IO takes it out of
    every room and out of [io.sockets.sockets], then fires its
    [disconnect] handler.  On a connection that is already gone this
    does nothing. *)
Definition close_socket (sid : string) (reason : string) (s : Server) : Server :=
  match sockets s !! sid with
  | Some sock => on_disconnect sid sock reason (set_sockets (delete sid (sockets s)) s)
  | None => s
  end.

(** [socket.disconnect(true)] *)
Definition disconnect (sid : string) (s : Server) : Server :=
  close_socket sid "server namespace disconnect" s.

(** A handshake held in [handleDuplicateLogin] whose client has gone:
    the timer still ends the old session, but Socket.IO ignores the
    [next()] of a closed connection, so that the handshake leads
    nowhere. *)
Definition abandon (sid : string) (x : Z * Timer) : Z * Timer :=
  match x.2 with
  | EndSession old (Some p) =>
      if decide (pa_sid p = sid) then (x.1, EndSession old None) else x
  | _ => x
  end.

(** The client side of [sid] goes away for [reason]: a live connection
    is closed, a handshake still held is abandoned. *)
Definition client_gone (sid : string) (reason : string) (s : Server) : Server :=
  match sockets s !! sid with
  | Some _ => close_socket sid reason s
  | None => set_timers (abandon sid <$> timers s) s
  end.

(** *** Handshake middleware and connection handler *)

Definition session_ended_notice : ServerEvent := session_ended "duplicate_login".

Definition duplicate_login_notice (newSocket : Handshake) (now : Z) : ServerEvent :=
  duplicate_login (user_agent newSocket) (address newSocket) now.

(** [io.on('connection', socket => ...)], entered with the socket
    already in [io.sockets.sockets] and in the room named after it.
    The two [messageQueue.on(...)] calls sit inside this handler. *)
Definition on_connection (sid : string) (sock : Socket) (s : Server) : Server :=
  let s := set_sockets (<[sid := sock]> (sockets s)) s in
  let uid := id (user sock) in
  let s :=
    match connectedUsers s !! uid with
    | Some previousSocketId =>
        if negb (String.eqb previousSocketId "")
           && negb (String.eqb previousSocketId sid)
        then match sockets s !! previousSocketId with
             | Some _ =>
                 setTimeout (EndSession previousSocketId None) DUPLICATE_LOGIN_TIMEOUT
                   (emit (ToSocket previousSocketId)
                      (duplicate_login_notice (handshake sock) (clock s)) s)
             | None => s
             end
        else s
    | None => s
    end in
  let s := set_connectedUsers (<[uid := sid]> (connectedUsers s)) s in
  let s := set_processedListeners (S (processedListeners s)) s in
  set_errorListeners (S (errorListeners s)) s.

Definition refuse (sid : string) (reason : string) (s : Server) : Server :=
  emit (ToClient sid) (connect_error reason) s.

(** The middleware from [SessionService.validateSession] on. *)
Definition authenticate (p : PendingAuth) (s : Server) : Server :=
  let v := validation (pa_env p) in
  if negb (isValid v)
  then refuse (pa_sid p) (JS.or_default "" (validation_message v) "Invalid session") s
  else match found (pa_env p) with
       | None => refuse (pa_sid p) "User not found" s
       | Some u =>
           let user :=
             {| id := pa_uid p; name := u_name u; email := u_email u;
                sessionId := default "" (auth_sessionId (pa_handshake p));
                profileImage := u_profileImage u |} in
           on_connection (pa_sid p)
             {| user := user; joined := {[ pa_sid p ]};
                handshake := pa_handshake p |} s
       end.

(** [handleDuplicateLogin(existingSocket, newSocket)]: the notice now,
    and a promise that resolves only inside the timer callback — the
    awaiting middleware is parked in the timer as [resume]. *)
Definition handleDuplicateLogin (existingSocketId : string) (p : PendingAuth)
    (s : Server) : Server :=
  setTimeout (EndSession existingSocketId (Some p)) DUPLICATE_LOGIN_TIMEOUT
    (emit (ToSocket existingSocketId)
       (duplicate_login_notice (pa_handshake p) (clock s)) s).

(** [io.use(async (socket, next) => ...)] *)
Definition middleware (sid : string) (hs : Handshake) (env : AuthEnv)
    (s : Server) : Server :=
  if negb (JS.truthy_str (token hs) && JS.truthy_str (auth_sessionId hs))
  then refuse sid "Authentication error" s
  else match jwt env with
       | TokenExpiredError => refuse sid "Token expired" s
       | JsonWebTokenError => refuse sid "Invalid token" s
       | VerifyThrows => refuse sid "Authentication failed" s
       | Decoded None => refuse sid "Invalid token" s
       | Decoded (Some uid) =>
           if String.eqb uid "" then refuse sid "Invalid token" s
           else
             let p := {| pa_sid := sid; pa_handshake := hs; pa_env := env;
                         pa_uid := uid |} in
             match connectedUsers s !! uid with
             | Some existingSocketId =>
                 if negb (String.eqb existingSocketId "")
                 then match sockets s !! existingSocketId with
                      | Some _ => handleDuplicateLogin existingSocketId p s
                      | None => authenticate p s
                      end
                 else authenticate p s
             | None => authenticate p s
             end
       end.

(** *** [fetchPreviousMessages] and [loadMessagesWithRetry] *)

(** [Room.findOne({ _id: roomId, participants: uid })] *)
Definition is_participant (roomId uid : string) (s : Server) : bool :=
  match rooms s !! roomId with
  | Some ps => bool_decide (uid ∈ ps)
  | None => false
  end.

Definition no_access_message : string := "채팅방 접근 권한이 없습니다.".

(** The [finally] block: the guard is dropped [LOAD_DELAY] later. *)
Definition release_later (queueKey : string) (s : Server) : Server :=
  setTimeout (ReleaseLoadGuard queueKey) LOAD_DELAY s.

Definition load_error (e : string) : ServerEvent :=
  error "LOAD_ERROR"
    (if String.eqb e "" then "이전 메시지를 불러오는 중 오류가 발생했습니다." else e).

(** The handler once [loadMessagesWithRetry] has settled: the page is
    sent, or the [catch] block's error; then the [finally] block. *)
Definition load_response (p : PendingLoad) (res : LoadResult + string)
    (s : Server) : Server :=
  release_later (retry_key (pl_roomId p) (id (pl_user p)))
    (emit (ToSocket (pl_sid p))
       (match res with
        | inl result => previousMessagesLoaded result
        | inr e => load_error e
        end) s).

(** [Math.min(RETRY_DELAY * Math.pow(2, currentRetries), 10000)] *)
Definition backoff (currentRetries : nat) : Z :=
  Z.min (RETRY_DELAY * 2 ^ Z.of_nat currentRetries) 10000.

(** The [catch] block of [loadMessagesWithRetry].  The counter is read
    from the module's map at this moment.  Below [MAX_RETRIES] it is
    incremented and the recursive call waits for the back-off;
    otherwise it is deleted and the error goes to the handler. *)
Definition on_load_error (p : PendingLoad) (e : string) (s : Server) : Server :=
  let retryKey := retry_key (pl_roomId p) (id (pl_user p)) in
  let currentRetries := default 0 (messageLoadRetries s !! retryKey) in
  if decide (currentRetries < MAX_RETRIES)
  then setTimeout (RetryLoad p) (backoff currentRetries)
         (set_messageLoadRetries
            (<[retryKey := currentRetries + 1]> (messageLoadRetries s)) s)
  else load_response p (inr e)
         (set_messageLoadRetries (delete retryKey (messageLoadRetries s)) s).

(** [loadMessagesWithRetry(socket, roomId, before)] up to its
    [await loadMessages(...)]: the counter is checked, then the load is
    in flight. *)
Definition loadMessagesWithRetry (p : PendingLoad) (s : Server) : Server :=
  let retryKey := retry_key (pl_roomId p) (id (pl_user p)) in
  if match messageLoadRetries s !! retryKey with
     | Some n => bool_decide (MAX_RETRIES ≤ n)
     | None => false
     end
  then on_load_error p retries_exceeded_message s
  else set_loading (loading s ++ [p]) s.

Fixpoint remove_load (p : PendingLoad) (l : list PendingLoad) : list PendingLoad :=
  match l with
  | [] => []
  | x :: l' => if decide (x = p) then l' else x :: remove_load p l'
  end.

(** The [loadMessages] call of a load in flight settles, the store
    having done [db]: on success the counter is deleted and the page
    goes to the handler; a failure enters the [catch] block. *)
Definition load_settled (p : PendingLoad) (db : FindBehaviour) (s : Server) : Server :=
  if bool_decide (p ∈ loading s) then
    let s := set_loading (remove_load p (loading s)) s in
    let retryKey := retry_key (pl_roomId p) (id (pl_user p)) in
    match loadMessages (clock s) db (stored s) (Some (pl_user p)) (pl_roomId p)
            (pl_before p) BATCH_SIZE with
    | (inl result, coll) =>
        load_response p (inl result)
          (set_messageLoadRetries (delete retryKey (messageLoadRetries s))
             (set_stored coll s))
    | (inr e, coll) => on_load_error p e (set_stored coll s)
    end
  else s.

(** The handler up to [await loadMessagesWithRetry(...)]; on the
    paths that do not reach it, through [catch] and [finally]. *)
Definition fetchPreviousMessages (sid : string) (roomId : string)
    (before : option Z) (s : Server) : Server :=
  match sockets s !! sid with
  | None => s
  | Some sock =>
      let queueKey := retry_key roomId (id (user sock)) in
      if negb (is_participant roomId (id (user sock)) s)
      then release_later queueKey
             (emit (ToSocket sid) (error "LOAD_ERROR" no_access_message) s)
      else if default false (messageQueues s !! queueKey)
      then release_later queueKey s
      else
        let s := set_messageQueues (<[queueKey := true]> (messageQueues s)) s in
        let s := emit (ToSocket sid) messageLoadStart s in
        loadMessagesWithRetry {| pl_sid := sid; pl_user := user sock;
                                 pl_roomId := roomId; pl_before := before |} s
  end.

(** *** Timers *)

Definition run_timer (tm : Timer) (s : Server) : Server :=
  match tm with
  | EndSession sid resume =>
      let s := disconnect sid (emit (ToSocket sid) session_ended_notice s) in
      match resume with
      | Some p => authenticate p s
      | None => s
      end
  | ReleaseLoadGuard queueKey =>
      set_messageQueues (delete queueKey (messageQueues s)) s
  | RetryLoad p => loadMessagesWithRetry p s
  end.

(** The timer that fires next: the least due time, the oldest among
    equals; returned with the timers that stay. *)
Fixpoint pop_earliest (ts : list (Z * Timer))
    : option ((Z * Timer) * list (Z * Timer)) :=
  match ts with
  | [] => None
  | x :: ts' =>
      match pop_earliest ts' with
      | Some (y, rest) =>
          if decide (y.1 < x.1)%Z then Some (y, x :: rest) else Some (x, ts')
      | None => Some (x, ts')
      end
  end.

(** A callback that resumes a handshake may arm one more timer (the
    connection handler's), and so may a retried load that finds its
    budget spent (the release of the guard); the others arm none. *)
Definition weight_of (x : Z * Timer) : nat :=
  match x.2 with
  | EndSession _ (Some _) => 2
  | RetryLoad _ => 2
  | _ => 1
  end.

Definition timer_weight (ts : list (Z * Timer)) : nat :=
  sum_list (weight_of <$> ts).

Fixpoint fire (fuel : nat) (t : Z) (s : Server) : Server :=
  match fuel with
  | 0 => s
  | S fuel' =>
      match pop_earliest (timers s) with
      | Some ((due, tm), rest) =>
          if decide (due ≤ t)%Z
          then fire fuel' t
                 (run_timer tm (set_clock (Z.max (clock s) due) (set_timers rest s)))
          else s
      | None => s
      end
  end.

(** Let time pass until [t]: every timer due by then fires, in order. *)
Definition advance (t : Z) (s : Server) : Server :=
  let s := fire (timer_weight (timers s)) t s in
  set_clock (Z.max (clock s) t) s.

(** *** [joinRoom] *)

(** [Room.findByIdAndUpdate(roomId, { $addToSet: { participants: uid } },
    { new: true })] *)
Definition add_participant (roomId uid : string) (s : Server)
    : option (list string) * Server :=
  match rooms s !! roomId with
  | Some ps =>
      let ps' := if bool_decide (uid ∈ ps) then ps else ps ++ [uid] in
      (Some ps', set_rooms (<[roomId := ps']> (rooms s)) s)
  | None => (None, s)
  end.

(** [socket.join(room)] / [socket.leave(room)] *)
Definition set_joined (sid : string) (f : gset string → gset string) (s : Server) : Server :=
  match sockets s !! sid with
  | Some k =>
      set_sockets
        (<[sid := {| user := user k; joined := f (joined k);
                     handshake := handshake k |}]> (sockets s)) s
  | None => s
  end.

Definition active_streams (roomId : string) (s : Server) : list ActiveStream :=
  (λ kv, {| as_id := ss_messageId kv.2; as_aiType := ss_aiType kv.2;
            as_content := ss_content kv.2; as_timestamp := ss_timestamp kv.2 |})
  <$> map_to_list (filter (λ kv, ss_room kv.2 = roomId) (streamingSessions s)).

Definition joinRoom (sid : string) (roomId : string) (db : FindBehaviour)
    (s : Server) : Server :=
  match sockets s !! sid with
  | None => s
  | Some sock =>
      let u := user sock in
      let currentRoom := userRooms s !! id u in
      if decide (currentRoom = Some roomId)
      then emit (ToSocket sid) (joinRoomSuccess roomId None) s
      else
        let s :=
          match currentRoom with
          | Some current =>
              if negb (String.eqb current "")
              then emit (ToRoomExcept current sid) (userLeft (id u) (name u))
                     (set_userRooms (delete (id u) (userRooms s))
                        (set_joined sid (λ rs, rs ∖ {[ current ]}) s))
              else s
          | None => s
          end in
        match add_participant roomId (id u) s with
        | (None, s) =>
            emit (ToSocket sid) (joinRoomError "채팅방을 찾을 수 없습니다.") s
        | (Some ps, s) =>
            let s := set_joined sid (λ rs, rs ∪ {[ roomId ]}) s in
            let s := set_userRooms (<[id u := roomId]> (userRooms s)) s in
            let '(joinMessage, coll) :=
              Db.create (stored s)
                {| Db.f_room := roomId; Db.f_sender := None;
                   Db.f_content := Some (name u +:+ "님이 입장하였습니다.");
                   Db.f_type := "system"; Db.f_file := None;
                   Db.f_aiType := None; Db.f_timestamp := clock s |} in
            let s := set_stored coll s in
            match loadMessages (clock s) db (stored s) (Some u) roomId None BATCH_SIZE with
            | (inr e, coll) =>
                emit (ToSocket sid)
                  (joinRoomError (if String.eqb e "" then "채팅방 입장에 실패했습니다." else e))
                  (set_stored coll s)
            | (inl result, coll) =>
                let s := set_stored coll s in
                let snapshot :=
                  {| participants := ps; snap_messages := messages result;
                     snap_hasMore := hasMore result;
                     snap_oldestTimestamp := oldestTimestamp result;
                     activeStreams := active_streams roomId s |} in
                emit (ToRoom roomId) (participantsUpdate ps)
                  (emit (ToRoom roomId) (message joinMessage)
                     (emit (ToSocket sid) (joinRoomSuccess roomId (Some snapshot)) s))
            end
        end
  end.

(** *** [chatMessage] *)

(** What the client sends: any key may be missing. *)
Record ChatMessage := {
  cm_room : option string;
  cm_type : string;
  cm_content : option string;
  cm_fileData : option Queue.FileData;
  cm_tempId : string
}.

Definition queue_content (messageData : ChatMessage) : option string :=
  if String.eqb (cm_type messageData) "text"
  then JS.trim <$> cm_content messageData
  else Some (JS.or_default "" (cm_content messageData) "").

Definition chat_error (reason : string) : ServerEvent := error "MESSAGE_ERROR" reason.

Definition chatMessage (sid : string) (messageData : ChatMessage)
    (sessionValidation : SessionValidation) (s : Server) : Server :=
  match sockets s !! sid with
  | None => s
  | Some sock =>
      let u := user sock in
      if negb (JS.truthy_str (cm_room messageData))
      then emit (ToSocket sid) (chat_error "채팅방 정보가 없습니다.") s
      else
        let room := default "" (cm_room messageData) in
        if negb (is_participant room (id u) s)
        then emit (ToSocket sid) (chat_error no_access_message) s
        else if negb (isValid sessionValidation)
        then emit (ToSocket sid)
               (chat_error "세션이 만료되었습니다. 다시 로그인해주세요.") s
        else
          let queueMessage :=
            {| Queue.room := room;
               Queue.sender := id u;
               Queue.type := cm_type messageData;
               Queue.content := queue_content messageData;
               Queue.fileData := if String.eqb (cm_type messageData) "file"
                                 then cm_fileData messageData else None;
               Queue.tempId := cm_tempId messageData;
               Queue.metadata :=
                 {| Queue.sessionId := sessionId u;
                    Queue.userAgent := user_agent (handshake sock);
                    Queue.ipAddress := address (handshake sock) |};
               Queue.attemptCount := None; Queue.queuedAt := None;
               Queue.error := None; Queue.failedAt := None |} in
          let '(_, r) := Queue.enqueue (clock s) queueMessage (redis s) in
          let s := set_redis r s in
          emit (ToSocket sid) (messageQueued (cm_tempId messageData) (clock s)) s
  end.

(** *** Listeners on the queue's emitter *)

(** One [messageProcessed] listener. *)
Definition on_messageProcessed (m : Db.Message) (originalMessage : Queue.QMsg)
    (s : Server) : Server :=
  let room := Db.room m in
  let s :=
    match connectedUsers s !! Queue.sender originalMessage with
    | Some senderSocketId =>
        if negb (String.eqb senderSocketId "")
        then match sockets s !! senderSocketId with
             | Some _ =>
                 emit (ToSocket senderSocketId)
                   (messageProcessed (Queue.tempId originalMessage) m) s
             | None => s
             end
        else s
    | None => s
    end in
  emit (ToRoom room) (message m) s.

(** One [messageError] listener. *)
Definition on_messageError (e : string) (originalMessage : Queue.QMsg)
    (s : Server) : Server :=
  match connectedUsers s !! Queue.sender originalMessage with
  | Some senderSocketId =>
      if negb (String.eqb senderSocketId "")
      then match sockets s !! senderSocketId with
           | Some _ =>
               emit (ToSocket senderSocketId)
                 (messageError (Queue.tempId originalMessage)
                    (if String.eqb e "" then "메시지 처리 중 오류가 발생했습니다." else e)) s
           | None => s
           end
      else s
  | None => s
  end.

(** [EventEmitter.emit]: every registered listener runs, in turn. *)
Definition dispatch (ev : Queue.Event) (s : Server) : Server :=
  match ev with
  | Queue.messageProcessed m original =>
      Nat.iter (processedListeners s) (on_messageProcessed m original) s
  | Queue.messageError e original =>
      Nat.iter (errorListeners s) (on_messageError e original) s
  end.

(** One turn of the processing loop, with its events delivered. *)
Definition queue_turn (adapter : Queue.Adapter) (s : Server) : Server :=
  let '(r, coll, evs) :=
    Queue.startProcessing_turn (clock s) adapter (stored s) (redis s) in
  foldl (λ s ev, dispatch ev s) (set_stored coll (set_redis r s)) evs.

(** *** AI streaming *)

Record Chunk := { currentChunk : option string; isCodeBlock : bool }.

Record FinalContent := {
  content : string;
  completionTokens : option nat;
  totalTokens : option nat
}.

(** Modelled from the spec: the Responder,
    [generate(query, aiType, {onChunk, onComplete, onError}) → void]
    ([services/aiService] is not among the sources) — the callbacks it
    invokes, in order, and whether it finally throws. *)
Inductive ResponderCall :=
| onStart
| onChunk (chunk : Chunk)
| onComplete (finalContent : FinalContent)
| onError (reason : string).

Record Responder := { calls : list ResponderCall; throws : option string }.

Definition touch_session (messageId : string) (content : string) (s : Server) : Server :=
  match streamingSessions s !! messageId with
  | Some session =>
      set_streamingSessions
        (<[messageId := {| ss_room := ss_room session; ss_aiType := ss_aiType session;
                           ss_content := content; ss_messageId := ss_messageId session;
                           ss_timestamp := ss_timestamp session;
                           ss_lastUpdate := clock s;
                           ss_userId := ss_userId session |}]>
           (streamingSessions s)) s
  | None => s
  end.

(** One callback; the closure variable [accumulatedContent] is
    threaded next to the state. *)
Definition responder_call (room aiName query messageId : string)
    (acc : string * Server) (call : ResponderCall) : string * Server :=
  let '(accumulatedContent, s) := acc in
  match call with
  | onStart => (accumulatedContent, s)
  | onChunk chunk =>
      let accumulatedContent :=
        accumulatedContent +:+ JS.or_default "" (currentChunk chunk) "" in
      let s := touch_session messageId accumulatedContent s in
      (accumulatedContent,
       emit (ToRoom room)
         (aiMessageChunk messageId (currentChunk chunk) accumulatedContent
            (isCodeBlock chunk) aiName) s)
  | onComplete finalContent =>
      let s := set_streamingSessions (delete messageId (streamingSessions s)) s in
      let '(aiMessage, coll) :=
        Db.create (stored s)
          {| Db.f_room := room; Db.f_sender := None;
             Db.f_content := Some (content finalContent);
             Db.f_type := "ai"; Db.f_file := None; Db.f_aiType := Some aiName;
             Db.f_timestamp := clock s |} in
      (accumulatedContent,
       emit (ToRoom room)
         (aiMessageComplete messageId (Db._id aiMessage) (content finalContent)
            aiName query)
         (set_stored coll s))
  | onError e =>
      let s := set_streamingSessions (delete messageId (streamingSessions s)) s in
      (accumulatedContent,
       emit (ToRoom room)
         (aiMessageError messageId
            (if String.eqb e "" then "AI 응답 생성 중 오류가 발생했습니다." else e) aiName) s)
  end.

Definition ai_message_id (aiName : string) (now : Z) : string :=
  aiName +:+ "-" +:+ pretty now.

(** [handleAIResponse(io, room, aiName, query)]; the final value of
    [accumulatedContent] is returned with the state. *)
Definition handleAIResponse (room aiName query : string) (responder : Responder)
    (s : Server) : string * Server :=
  let messageId := ai_message_id aiName (clock s) in
  let s := set_streamingSessions
             (<[messageId := {| ss_room := room; ss_aiType := aiName;
                                ss_content := ""; ss_messageId := messageId;
                                ss_timestamp := clock s; ss_lastUpdate := clock s;
                                ss_userId := None |}]> (streamingSessions s)) s in
  let s := emit (ToRoom room) (aiMessageStart messageId aiName (clock s)) s in
  let '(accumulatedContent, s) :=
    foldl (responder_call room aiName query messageId) ("", s) (calls responder) in
  match throws responder with
  | Some e =>
      (accumulatedContent,
       emit (ToRoom room)
         (aiMessageError messageId
            (if String.eqb e "" then "AI 서비스 오류가 발생했습니다." else e) aiName)
         (set_streamingSessions (delete messageId (streamingSessions s)) s))
  | None => (accumulatedContent, s)
  end.

(** *** Start-up, shutdown, and the event loop *)

(** The module function: fresh maps, no listeners yet, handlers
    installed, and [messageQueue.startProcessing()] launched on the
    Redis store as the previous run left it. *)
Definition init (r : Queue.Redis) (db_rooms : gmap string (list string))
    (db_messages : list Db.Message) (now : Z) : Server :=
  {| connectedUsers := ∅; streamingSessions := ∅; userRooms := ∅;
     messageQueues := ∅; messageLoadRetries := ∅; sockets := ∅;
     processedListeners := 0; errorListeners := 0;
     rooms := db_rooms; stored := db_messages; redis := r;
     timers := []; loading := []; clock := now; out := []; exited := false |}.

(** The [SIGTERM]/[SIGINT] handlers: [cleanup], then [process.exit(0)]. *)
Definition on_signal (s : Server) : Server :=
  set_exited true (set_redis (Queue.cleanup (redis s)) s).

(** What can happen to the server.  The collaborators' answers come
    with the input; calls that the source awaits without a timer
    ([Room.findOne], [SessionService], [User.findById], the adapter)
    take no time here, so a handler runs to its next [setTimeout] or
    pending load without interleaving; every attempt of a load and
    every back-off between two attempts is a step of its own. *)
Inductive Input :=
| Connect (sid : string) (hs : Handshake) (env : AuthEnv)
| Disconnect (sid : string) (reason : string)
| FetchPreviousMessages (sid roomId : string) (before : option Z)
| LoadSettled (p : PendingLoad) (db : FindBehaviour)
| JoinRoom (sid roomId : string) (db : FindBehaviour)
| SendChatMessage (sid : string) (messageData : ChatMessage)
    (sessionValidation : SessionValidation)
| QueueTurn (adapter : Queue.Adapter)
| Signal
| Idle.

Definition handle (i : Input) (s : Server) : Server :=
  match i with
  | Connect sid hs env => middleware sid hs env s
  | Disconnect sid reason => client_gone sid reason s
  | FetchPreviousMessages sid roomId before => fetchPreviousMessages sid roomId before s
  | LoadSettled p db => load_settled p db s
  | JoinRoom sid roomId db => joinRoom sid roomId db s
  | SendChatMessage sid messageData v => chatMessage sid messageData v s
  | QueueTurn adapter => queue_turn adapter s
  | Signal => on_signal s
  | Idle => s
  end.

(** The input arrives at time [t], after the timers due by then. *)
Definition step (s : Server) (ti : Z * Input) : Server :=
  if exited s then s else handle ti.2 (advance ti.1 s).

Definition run (trace : list (Z * Input)) (s : Server) : Server :=
  foldl step s trace.

(** What a connection has been sent, oldest first. *)
Definition inbox (sid : string) (s : Server) : list ServerEvent :=
  event <$> filter (λ e, sid ∈ recipients e) (out s).

(** The broadcasts addressed to a room. *)
Definition broadcasts (room : string) (s : Server) : list ServerEvent :=
  event <$> filter (λ e, target e = ToRoom room) (out s).

(** *** Reading the record of emissions *)

(** The page as the specification words it: the oldest [limit] of the
    fetched records, in ascending time order. *)
Definition oldest_of_fetched (limit : nat) (fetched : list Db.Message)
    : list Db.Message :=
  take limit (merge_sort older_first fetched).

(** [y] extends the record of [x] with emissions that do not reach
    [sid]. *)
Definition silent_for (sid : string) (x y : Server) : Prop :=
  ∃ added, out y = out x ++ added ∧ Forall (λ e, sid ∉ recipients e) added.

(** The live connections of an identity. *)
Definition live_of (uid : string) (s : Server) : gset string :=
  dom (filter (λ kv, id (user kv.2) = uid) (sockets s)).

(** Whether the collaborators let the handshake through. *)
Definition accepted (env : AuthEnv) : bool :=
  isValid (validation env) && bool_decide (is_Some (found env)).

(** What reached [sid] since the record had [n] entries. *)
Definition deliveries (sid : string) (n : nat) (s : Server) : list Emission :=
  filter (λ e, sid ∈ recipients e) (drop n (out s)).

(** What has been emitted since the record had [n] entries. *)
Definition since (n : nat) (s : Server) : list ServerEvent :=
  event <$> drop n (out s).


(** The attempts of [fails] are failures within the retry budget, and
    none settles before it has started: [c] is the counter at the
    first of them, [start] the time at which that attempt starts; the
    next one starts when the back-off after the failure is over. *)
Fixpoint paced (c : nat) (start : Z) (fails : list (Z * FindBehaviour)) : Prop :=
  match fails with
  | [] => True
  | f :: rest =>
      (start ≤ f.1)%Z ∧ f.2 ≠ Responds ∧ c < MAX_RETRIES
      ∧ paced (S c) (f.1 + backoff c) rest
  end.

(** The time at which the attempt after the last failure starts. *)
Fixpoint resumes_at (c : nat) (start : Z) (fails : list (Z * FindBehaviour)) : Z :=
  match fails with
  | [] => start
  | f :: rest => resumes_at (S c) (f.1 + backoff c) rest
  end.

(** The increments carried by the [aiMessageChunk] events for
    [messageId], in emission order, and their concatenation. *)
Definition chunks_of (messageId : string) (evs : list ServerEvent) : list string :=
  omap (λ ev, match ev with
              | aiMessageChunk mid c _ _ _ =>
                  if decide (mid = messageId) then Some (default "" c) else None
              | _ => None
              end) evs.

Definition concat_chunks (cs : list string) : string :=
  foldr String.append "" cs.

(** The [aiMessageChunk] events of a run of chunks, starting from the
    accumulated text [acc]. *)
Fixpoint chunk_events (messageId aiName acc : string) (chunks : list Chunk)
    : list ServerEvent :=
  match chunks with
  | [] => []
  | c :: cs =>
      let acc' := acc +:+ JS.or_default "" (currentChunk c) "" in
      aiMessageChunk messageId (currentChunk c) acc' (isCodeBlock c) aiName
      :: chunk_events messageId aiName acc' cs
  end.

(** The text accumulated over a run of chunks, starting from [acc]. *)
Definition accumulate (acc : string) (chunks : list Chunk) : string :=
  foldl (λ a c, a +:+ JS.or_default "" (currentChunk c) "") acc chunks.

Definition text (s : string) : Chunk := {| currentChunk := Some s; isCodeBlock := false |}.

Definition final (s : string) : FinalContent :=
  {| content := s; completionTokens := None; totalTokens := None |}.

(** A responder that streams [chunks] and then completes with [f]. *)
Definition streams (chunks : list Chunk) (f : FinalContent) : Responder :=
  {| calls := (onChunk <$> chunks) ++ [onComplete f]; throws := None |}.

End Chat.

(** ** Concrete situations *)

Module Scenario.
Import Chat.
Local Open Scope Z_scope.

Definition handshake_from (device : string) : Handshake :=
  {| token := Some "jwt"; auth_sessionId := Some "session-1";
     user_agent := device; address := "10.0.0.7" |}.

Definition valid : SessionValidation :=
  {| isValid := true; validation_message := None |}.

(** The collaborators accept the token as identity [uid]. *)
Definition accepts (uid : string) : AuthEnv :=
  {| jwt := Decoded (Some uid); validation := valid;
     found := Some {| u_name := "user " +:+ uid; u_email := uid +:+ "@example.org";
                      u_profileImage := "" |} |}.

(** A freshly started server: room R1 with participants u1 and u2,
    no messages, empty queue. *)
Definition fresh : Server :=
  init Queue.empty {[ "R1" := ["u1"; "u2"] ]} [] 0.

Definition hi : ChatMessage :=
  {| cm_room := Some "R1"; cm_type := "text"; cm_content := Some "hi";
     cm_fileData := None; cm_tempId := "t1" |}.

(** u1 and u2 connect and join R1; u1 submits [hi]. *)
Definition two_clients_one_message : list (Z * Input) :=
  [ (0, Connect "s1" (handshake_from "laptop") (accepts "u1"));
    (1, Connect "s2" (handshake_from "phone") (accepts "u2"));
    (2, JoinRoom "s1" "R1" Responds);
    (3, JoinRoom "s2" "R1" Responds);
    (4, SendChatMessage "s1" hi valid) ].

(** The record the adapter creates for [hi] at time 5. *)
Definition hi_record : Db.Message :=
  {| Db._id := 2; Db.room := "R1"; Db.sender := Some "u1";
     Db.content := Some "hi"; Db.type := "text"; Db.file := None;
     Db.aiType := None; Db.timestamp := 5; Db.readers := [] |}.

(** u1 is connected as s1 and in R1. *)
Definition one_client : list (Z * Input) :=
  [ (0, Connect "s1" (handshake_from "laptop") (accepts "u1"));
    (2, JoinRoom "s1" "R1" Responds) ].

(** The same, with a store whose next round trip fails. *)
Definition store_down (s : Server) : Server :=
  set_redis {| Queue.lists := Queue.lists (redis s); Queue.faults := [true] |} s.

(** u1 is connected as s1, from the laptop. *)
Definition connected : Server :=
  run [(0, Connect "s1" (handshake_from "laptop") (accepts "u1"))] fresh.

(** The pending load of u1's request for the history of R1. *)
Definition first_page : PendingLoad :=
  {| pl_sid := "s1"; pl_user := {| id := "u1"; name := "user u1";
                                   email := "u1@example.org";
                                   sessionId := "session-1"; profileImage := "" |};
     pl_roomId := "R1"; pl_before := None |}.

Definition laptop_socket : Socket :=
  {| user := {| id := "u1"; name := "user u1"; email := "u1@example.org";
                sessionId := "session-1"; profileImage := "" |};
     joined := {[ "s1" ]};
     handshake := handshake_from "laptop" |}.

(** s1 once it has joined R1. *)
Definition laptop_socket_in_R1 : Socket :=
  {| user := user laptop_socket; joined := {[ "s1"; "R1" ]};
     handshake := handshake_from "laptop" |}.

Definition parked (tempId : string) (t : Z) : Queue.QMsg :=
  {| Queue.room := "R1"; Queue.sender := "u1"; Queue.type := "text";
     Queue.content := Some "hello"; Queue.fileData := None;
     Queue.tempId := tempId;
     Queue.metadata := {| Queue.sessionId := "session-1";
                          Queue.userAgent := "laptop";
                          Queue.ipAddress := "10.0.0.7" |};
     Queue.attemptCount := Some 0%nat; Queue.queuedAt := Some t;
     Queue.error := None; Queue.failedAt := None |}.

(** The store after a crash: two entries claimed, none completed. *)
Definition crashed : Queue.Redis :=
  Queue.set_lane Queue.processingQueue [parked "t2" 20; parked "t1" 10] Queue.empty.

Definition at_time (i : nat) (roomId : string) (t : Z) : Db.Message :=
  {| Db._id := i; Db.room := roomId; Db.sender := Some "u1";
     Db.content := Some "..."; Db.type := "text"; Db.file := None;
     Db.aiType := None; Db.timestamp := t; Db.readers := [] |}.

(** Three messages in R1, written at times 1, 2 and 3. *)
Definition three_messages : list Db.Message :=
  [at_time 0 "R1" 1; at_time 1 "R1" 2; at_time 2 "R1" 3].

(** [n] messages in R1, written at times 1 .. n. *)
Definition history (n : nat) : list Db.Message :=
  (λ i, at_time i "R1" (Z.of_nat (S i))) <$> seq 0 n.

End Scenario.

(** ** The other handlers of the chat module *)

Module Handlers.
Import Chat.

(** Payloads outside the vocabulary of the delivery pipeline: the
    [error] event whose payload is a [message] alone, and
    [messagesRead]. *)
Inductive Notice :=
| plain_error (reason : string)
| messagesRead (userId : string) (messageIds : list nat).

(** One such emission, with the connections it reached. *)
Record Sent := { to : Target; got : list string; notice : Notice }.

Definition send (tg : Target) (n : Notice) (s : Server) : Sent :=
  {| to := tg; got := reached tg s; notice := n |}.

(** *** [leaveRoom] *)

(** The awaited store call of [leaveRoom] that throws, if one does:
    [Room.findOne], [Message.create] or [Room.findByIdAndUpdate]. *)
Inductive LeaveFault :=
| FindOneThrows (reason : string)
| CreateThrows (reason : string)
| UpdateThrows (reason : string).

(** The [catch] block of [leaveRoom]. *)
Definition leave_error (sid reason : string) (s : Server) : Sent :=
  send (ToSocket sid)
    (plain_error (if String.eqb reason "" then "채팅방 퇴장 중 오류가 발생했습니다."
                  else reason)) s.

(** [socket.on('leaveRoom', async roomId => ...)]: the state after the
    handler and what it sent outside the pipeline's events. *)
Definition leaveRoom (sid roomId : string) (fault : option LeaveFault)
    (s : Server) : Server * list Sent :=
  match sockets s !! sid with
  | None => (s, [])
  | Some sock =>
      let u := user sock in
      match userRooms s !! id u with
      | None => (s, [])
      | Some currentRoom =>
          if String.eqb currentRoom "" || negb (String.eqb currentRoom roomId)
          then (s, [])
          else
            match fault with
            | Some (FindOneThrows e) => (s, [leave_error sid e s])
            | _ =>
                if negb (is_participant roomId (id u) s) then (s, [])
                else
                  let s := set_joined sid (λ rs, rs ∖ {[ roomId ]}) s in
                  let s := set_userRooms (delete (id u) (userRooms s)) s in
                  match fault with
                  | Some (CreateThrows e) => (s, [leave_error sid e s])
                  | _ =>
                      let '(leaveMessage, coll) :=
                        Db.create (stored s)
                          (leave_fields roomId (name u +:+ "님이 퇴장하였습니다.")
                             (clock s)) in
                      let s := set_stored coll s in
                      match fault with
                      | Some (UpdateThrows e) => (s, [leave_error sid e s])
                      | _ =>
                          match pull_participant roomId (id u) s with
                          | (None, s) => (s, [])
                          | (Some ps, s) =>
                              let s :=
                                set_streamingSessions
                                  (filter (λ kv, ¬ (ss_room kv.2 = roomId
                                                    ∧ ss_userId kv.2 = Some (id u)))
                                     (streamingSessions s)) s in
                              let queueKey := retry_key roomId (id u) in
                              let s := set_messageQueues
                                         (delete queueKey (messageQueues s)) s in
                              let s := set_messageLoadRetries
                                         (delete queueKey (messageLoadRetries s)) s in
                              (emit (ToRoom roomId) (participantsUpdate ps)
                                 (emit (ToRoom roomId) (message leaveMessage) s),
                               [])
                          end
                      end
                  end
            end
      end
  end.

(** *** [force_login] *)

(** [socket.on('force_login', async ({ token }) => ...)]; [decoded] is
    what [jwt.verify(token, jwtSecret)] answers. *)
Definition force_login (sid : string) (decoded : Jwt) (s : Server)
    : Server * list Sent :=
  match sockets s !! sid with
  | None => (s, [])
  | Some sock =>
      let failed :=
        (s, [send (ToSocket sid) (plain_error "세션 종료 중 오류가 발생했습니다.") s]) in
      match decoded with
      | Decoded uid =>
          if JS.truthy_str uid && bool_decide (uid = Some (id (user sock)))
          then (disconnect sid (emit (ToSocket sid) (session_ended "force_logout") s),
                [])
          else failed
      | _ => failed
      end
  end.

(** *** [markMessagesAsRead] *)

(** [Message.updateMany({_id: {$in: ids}, room: roomId,
    'readers.userId': {$ne: uid}},
    {$push: {readers: {userId: uid, readAt: now}}})] *)
Definition mark_room_read (roomId uid : string) (now : Z) (ids : list nat)
    (coll : list Db.Message) : list Db.Message :=
  (λ m, if bool_decide (Db._id m ∈ ids) && String.eqb (Db.room m) roomId
           && negb (has_reader uid m)
        then push_reader uid now m else m) <$> coll.

(** [socket.on('markMessagesAsRead', async ({ roomId, messageIds }) =>
    ...)]; [messageIds] is [None] when the client sent no array, and
    [fault] is the error [Message.updateMany] throws, if it does. *)
Definition markMessagesAsRead (sid roomId : string) (messageIds : option (list nat))
    (fault : option string) (s : Server) : Server * list Sent :=
  match sockets s !! sid with
  | None => (s, [])
  | Some sock =>
      match messageIds with
      | None | Some [] => (s, [])
      | Some ids =>
          match fault with
          | Some _ =>
              (s, [send (ToSocket sid)
                     (plain_error "읽음 상태 업데이트 중 오류가 발생했습니다.") s])
          | None =>
              let s := set_stored
                         (mark_room_read roomId (id (user sock)) (clock s) ids (stored s))
                         s in
              (s, [send (ToRoomExcept roomId sid)
                     (messagesRead (id (user sock)) ids) s])
          end
      end
  end.

(** *** [extractAIMentions] *)

(** [\w] of a regular expression without the unicode flag. *)
Definition is_word (c : Ascii.ascii) : bool :=
  let n := Ascii.nat_of_ascii c in
  (Nat.leb 48 n && Nat.leb n 57) || (Nat.leb 65 n && Nat.leb n 90)
  || (Nat.leb 97 n && Nat.leb n 122) || Nat.eqb n 95.

(** The input left when [s] starts with [p]. *)
Fixpoint after_prefix (p s : string) : option string :=
  match p, s with
  | EmptyString, _ => Some s
  | String a p', String b s' => if Ascii.eqb a b then after_prefix p' s' else None
  | String _ _, EmptyString => None
  end.

(** [\b] behind a word character: the input ends or goes on with a
    character that is not a word character. *)
Definition at_boundary (rest : string) : bool :=
  match rest with
  | EmptyString => true
  | String c _ => negb (is_word c)
  end.

Definition aiTypes : list string := ["wayneAI"; "consultingAI"].

(** [(wayneAI|consultingAI)\b] at the head of [s]: the alternatives
    are tried in order; the captured name. *)
Fixpoint first_alternative (alternatives : list string) (s : string) : option string :=
  match alternatives with
  | [] => None
  | a :: alternatives' =>
      match after_prefix a s with
      | Some rest => if at_boundary rest then Some a else first_alternative alternatives' s
      | None => first_alternative alternatives' s
      end
  end.

(** [/@(wayneAI|consultingAI)\b/] at the head of [s]. *)
Definition match_here (s : string) : option string :=
  match s with
  | String c s' =>
      if Nat.eqb (Ascii.nat_of_ascii c) 64 then first_alternative aiTypes s' else None
  | EmptyString => None
  end.

(** The [while ((match = mentionRegex.exec(content)) !== null)] loop of
    the global regular expression: the captures, in order.  After a
    match the search goes on behind it ([skip] counts the characters
    of the match still to pass); where nothing matches it moves on by
    one character. *)
Fixpoint captures (skip : nat) (s : string) : list string :=
  match s with
  | EmptyString => []
  | String _ s' =>
      match skip with
      | S skip' => captures skip' s'
      | 0 =>
          match match_here s with
          | Some name => name :: captures (String.length name) s'
          | None => captures 0 s'
          end
      end
  end.

(** [mentions.add(name)] on a [Set], which keeps insertion order. *)
Definition add_mention (mentions : list string) (name : string) : list string :=
  if bool_decide (name ∈ aiTypes)
  then (if bool_decide (name ∈ mentions) then mentions else mentions ++ [name])
  else mentions.

Definition extractAIMentions (content : option string) : list string :=
  if negb (JS.truthy_str content) then []
  else foldl add_mention [] (captures 0 (default "" content)).

End Handlers.

(** * Properties *)

(** ** The queue *)

Module QueueFacts.
Import Queue.

Section lanes.
Implicit Types (r : Redis) (k : string) (l : list QMsg).

Lemma lane_set_lane k l r : lane (set_lane k l r) k = l.
Proof.
  unfold lane, set_lane; destruct l; simpl.
  - by rewrite lookup_delete_eq.
  - by rewrite lookup_insert_eq.
Qed.

Lemma lane_set_lane_ne k k' l r : k ≠ k' → lane (set_lane k l r) k' = lane r k'.
Proof.
  intros Hne. unfold lane, set_lane; destruct l; simpl.
  - by rewrite lookup_delete_ne.
  - by rewrite lookup_insert_ne.
Qed.

Lemma faults_set_lane k l r : faults (set_lane k l r) = faults r.
Proof. done. Qed.

Lemma round_trip_reachable r : faults r = [] → round_trip r = (false, r).
Proof. unfold round_trip. by intros ->. Qed.

Lemma remove_first_head (v : QMsg) l : remove_first v (v :: l) = l.
Proof. simpl. by rewrite decide_True. Qed.
End lanes.

Ltac lane_ne := unfold mainQueue, processingQueue, deadLetterQueue; done.

(** What a reachable store looks like after a push at the tail. *)
Lemma rpush_reachable k vals r :
  faults r = [] →
  ∃ r', rpush k vals r = (Some (length (lane r k ++ vals)), r')
        ∧ faults r' = []
        ∧ lane r' k = lane r k ++ vals
        ∧ ∀ k', k ≠ k' → lane r' k' = lane r k'.
Proof.
  intros Hup. unfold rpush. rewrite (round_trip_reachable _ Hup).
  eexists; split; [reflexivity|].
  split; [done|]. split; [by rewrite lane_set_lane|].
  intros k' Hne. by rewrite lane_set_lane_ne.
Qed.

Lemma enqueue_reachable now m r :
  faults r = [] →
  ∃ r', enqueue now m r = (true, r')
        ∧ faults r' = []
        ∧ lane r' mainQueue
          = lane r mainQueue ++ [with_queuedAt now (with_attemptCount 0 m)]
        ∧ ∀ k', mainQueue ≠ k' → lane r' k' = lane r k'.
Proof.
  intros Hup. unfold enqueue.
  destruct (rpush_reachable mainQueue
              [with_queuedAt now (with_attemptCount 0 m)] r Hup)
    as (r' & -> & ? & ? & ?).
  by exists r'.
Qed.

Lemma enqueue_unreachable now m r fs :
  faults r = true :: fs →
  enqueue now m r = (false, {| lists := lists r; faults := fs |}).
Proof. intros Hdown. unfold enqueue, rpush, round_trip. by rewrite Hdown. Qed.

(** A failed attempt on an entry whose stored count is below
    [maxRetries - 1]: the entry goes back to the tail of the incoming
    lane, and [enqueue] has written its count as 0 again. *)
Lemma failed_turn now e coll r l m :
  faults r = [] →
  lane r mainQueue = l ++ [m] →
  JS.or_default 0 (attemptCount m) 0 + 1 < maxRetries →
  ∃ r', startProcessing_turn now (CreateFails e) coll r
        = (r', coll, [messageError e m])
        ∧ faults r' = []
        ∧ lane r' mainQueue = l ++ [with_queuedAt now (with_attemptCount 0 m)]
        ∧ lane r' processingQueue = lane r processingQueue
        ∧ lane r' deadLetterQueue = lane r deadLetterQueue.
Proof.
  intros Hup Hmain Hn.
  unfold startProcessing_turn, exec_rpoplpush.
  rewrite (round_trip_reachable _ Hup), Hmain, last_snoc, removelast_last.
  simpl processMessage. cbv iota beta. unfold on_processing_error. cbv zeta.
  rewrite decide_False by lia.
  set (r1 := set_lane processingQueue _ _).
  assert (Hup1 : faults r1 = []) by done.
  destruct (enqueue_reachable now
              (with_attemptCount (JS.or_default 0 (attemptCount m) 0 + 1) m)
              r1 Hup1) as (r2 & Henq & Hup2 & Hmain2 & Hother2).
  rewrite Henq. simpl snd.
  unfold lrem1. rewrite (round_trip_reachable _ Hup2). simpl snd.
  eexists; split; [reflexivity|].
  split; [done|].
  rewrite lane_set_lane, !(lane_set_lane_ne processingQueue) by lane_ne.
  rewrite Hmain2, (Hother2 processingQueue), (Hother2 deadLetterQueue) by lane_ne.
  subst r1.
  rewrite lane_set_lane, !(lane_set_lane_ne processingQueue) by lane_ne.
  rewrite lane_set_lane, !(lane_set_lane_ne mainQueue) by lane_ne.
  by rewrite remove_first_head.
Qed.

(** The dead-letter branch, for an entry whose stored count has
    reached [maxRetries - 1]. *)
Lemma exhausted_turn now e coll r l m :
  faults r = [] →
  lane r mainQueue = l ++ [m] →
  maxRetries ≤ JS.or_default 0 (attemptCount m) 0 + 1 →
  ∃ r', startProcessing_turn now (CreateFails e) coll r
        = (r', coll, [messageError e m])
        ∧ lane r' mainQueue = l
        ∧ lane r' processingQueue = lane r processingQueue
        ∧ lane r' deadLetterQueue
          = lane r deadLetterQueue
            ++ [with_failure e now
                  (with_attemptCount (JS.or_default 0 (attemptCount m) 0 + 1) m)].
Proof.
  intros Hup Hmain Hn.
  unfold startProcessing_turn, exec_rpoplpush.
  rewrite (round_trip_reachable _ Hup), Hmain, last_snoc, removelast_last.
  simpl processMessage. cbv iota beta. unfold on_processing_error. cbv zeta.
  rewrite decide_True by lia.
  set (r1 := set_lane processingQueue _ _).
  assert (Hup1 : faults r1 = []) by done.
  unfold moveToDeadLetter.
  destruct (rpush_reachable deadLetterQueue
              [with_failure e now
                 (with_attemptCount (JS.or_default 0 (attemptCount m) 0 + 1) m)]
              r1 Hup1) as (r2 & Hpush & Hup2 & Hdead2 & Hother2).
  rewrite Hpush. simpl snd.
  unfold lrem1. rewrite (round_trip_reachable _ Hup2). simpl snd.
  eexists; split; [reflexivity|].
  rewrite lane_set_lane, !(lane_set_lane_ne processingQueue) by lane_ne.
  rewrite Hdead2, (Hother2 processingQueue), (Hother2 mainQueue) by lane_ne.
  subst r1.
  rewrite lane_set_lane, !(lane_set_lane_ne processingQueue) by lane_ne.
  rewrite lane_set_lane, !(lane_set_lane_ne mainQueue) by lane_ne.
  by rewrite remove_first_head.
Qed.

(** With nothing in the incoming lane a turn moves nothing. *)
Lemma idle_turn now adapter coll r :
  lane r mainQueue = [] →
  ∃ r', startProcessing_turn now adapter coll r = (r', coll, [])
        ∧ ∀ k, lane r' k = lane r k.
Proof.
  intros Hmain. unfold startProcessing_turn, exec_rpoplpush, round_trip.
  unfold lane in *.
  destruct (faults r) as [|[] fs]; simpl; rewrite ?Hmain; simpl; eauto.
Qed.

Lemma idle_turns turns coll r :
  lane r mainQueue = [] →
  ∃ r', startProcessing turns coll r = (r', coll, [])
        ∧ ∀ k, lane r' k = lane r k.
Proof.
  revert r. induction turns as [|[now adapter] turns IH]; intros r Hmain; simpl.
  - eauto.
  - destruct (idle_turn now adapter coll r Hmain) as (r1 & -> & H1).
    destruct (IH r1) as (r2 & -> & H2); [by rewrite H1|].
    exists r2. split; [done|]. intros k. by rewrite H2, H1.
Qed.

(** [cleanup] on a reachable store. *)
Lemma cleanup_reachable r :
  faults r = [] →
  lane (cleanup r) mainQueue = lane r mainQueue ++ lane r processingQueue
  ∧ lane (cleanup r) processingQueue = []
  ∧ lane (cleanup r) deadLetterQueue = lane r deadLetterQueue.
Proof.
  intros Hup. unfold cleanup, lrange_all.
  rewrite (round_trip_reachable _ Hup).
  case_decide as Hlen.
  - unfold exec_del_rpush. rewrite (round_trip_reachable _ Hup). simpl snd.
    rewrite lane_set_lane, !(lane_set_lane_ne mainQueue) by lane_ne.
    rewrite lane_set_lane, !(lane_set_lane_ne processingQueue) by lane_ne.
    done.
  - destruct (lane r processingQueue) eqn:Hp; [|simpl in Hlen; lia].
    by rewrite app_nil_r.
Qed.

Lemma failing_turns e coll times : ∀ r m,
  faults r = [] →
  lane r mainQueue = [m] →
  lane r processingQueue = [] →
  lane r deadLetterQueue = [] →
  attemptCount m = Some 0 →
  ∃ r' evs,
    startProcessing (failing e times) coll r = (r', coll, evs)
    ∧ length evs = length times
    ∧ lane r' mainQueue
      = [foldl (λ m t, with_queuedAt t (with_attemptCount 0 m)) m times]
    ∧ lane r' processingQueue = []
    ∧ lane r' deadLetterQueue = [].
Proof.
  induction times as [|t times IH]; intros r m Hup Hmain Hproc Hdead Hcount; simpl.
  - by exists r, [].
  - destruct (failed_turn t e coll r [] m Hup Hmain) as (r1 & -> & Hup1 & Hm1 & Hp1 & Hd1).
    { rewrite Hcount. unfold maxRetries. simpl. lia. }
    destruct (IH r1 (with_queuedAt t (with_attemptCount 0 m)))
      as (r2 & evs & -> & Hlen & Hm2 & Hp2 & Hd2); try congruence; try done.
    exists r2, (messageError e m :: evs). simpl. by rewrite Hlen.
Qed.

(** C1 (the code departs from the claim).  A payload is enqueued on an
    empty, reachable store and every processing attempt fails.  After
    any number of attempts the dead-letter lane is still empty and
    the entry sits in the incoming lane with [attemptCount] 0: the
    retry goes through [enqueue], which overwrites the incremented
    count, so the bound [maxRetries] is never reached. *)
Theorem C1_retry_resets_attemptCount (t0 : Z) (p : QMsg) (e : string) (times : list Z) :
  ∃ r evs,
    startProcessing (failing e times) [] (enqueue t0 p empty).2 = (r, [], evs)
    ∧ length evs = length times
    ∧ lane r deadLetterQueue = []
    ∧ lane r processingQueue = []
    ∧ ∃ m, lane r mainQueue = [m]
           ∧ attemptCount m = Some 0
           ∧ m = with_queuedAt (default t0 (last times)) (with_attemptCount 0 p).
Proof.
  destruct (enqueue_reachable t0 p empty eq_refl) as (r0 & Henq & Hup & Hmain & Hother).
  rewrite Henq. simpl snd.
  destruct (failing_turns e [] times r0 (with_queuedAt t0 (with_attemptCount 0 p)))
    as (r & evs & Hrun & Hlen & Hm & Hp & Hd); try done.
  { by rewrite Hother by lane_ne. }
  { by rewrite Hother by lane_ne. }
  exists r, evs. repeat split; try done.
  eexists; split; [exact Hm|].
  clear. generalize t0. induction times as [|t times IH] using rev_ind; intros t1.
  - done.
  - rewrite foldl_app, last_snoc. simpl.
    destruct (IH t1) as [_ ->]. done.
Qed.

End QueueFacts.

(** ** The chat module *)

Module ChatFacts.
Import Chat.

(** *** What [emit] adds *)

Lemma out_emit tg e s :
  out (emit tg e s)
  = out s ++ [{| target := tg; recipients := reached tg s; event := e;
                 at_time := clock s |}].
Proof. done. Qed.

Lemma broadcasts_emit room tg e s :
  broadcasts room (emit tg e s)
  = broadcasts room s ++ (if decide (tg = ToRoom room) then [e] else []).
Proof.
  unfold broadcasts. rewrite out_emit, filter_app, fmap_app. f_equal.
  rewrite filter_cons, filter_nil. simpl. by case_decide.
Qed.

Lemma inbox_emit sid tg e s :
  inbox sid (emit tg e s)
  = inbox sid s ++ (if decide (sid ∈ reached tg s) then [e] else []).
Proof.
  unfold inbox. rewrite out_emit, filter_app, fmap_app. f_equal.
  rewrite filter_cons, filter_nil. simpl. by case_decide.
Qed.

Lemma reached_live sid s :
  is_Some (sockets s !! sid) → reached (ToSocket sid) s = [sid].
Proof. intros H. simpl. by rewrite decide_True. Qed.

(** *** Room membership *)

(** C9.  A [joinRoom] for the room the identity's [UserRoom] entry
    already records answers [joinRoomSuccess] with the room
    identifier alone and changes nothing else: no system message is
    stored, nothing is broadcast to any room, and the [UserRoom] map,
    the participants of every room and the socket's own membership
    are as before. *)
Theorem C9_joinRoom_same_room_is_idempotent
    (s : Server) (sid roomId : string) (db : FindBehaviour) (k : Socket) :
  sockets s !! sid = Some k →
  userRooms s !! id (user k) = Some roomId →
  let s' := handle (JoinRoom sid roomId db) s in
  out s' = out s ++ [{| target := ToSocket sid; recipients := [sid];
                        event := joinRoomSuccess roomId None;
                        at_time := clock s |}]
  ∧ (∀ room, broadcasts room s' = broadcasts room s)
  ∧ userRooms s' = userRooms s
  ∧ rooms s' = rooms s
  ∧ stored s' = stored s
  ∧ sockets s' = sockets s
  ∧ s' = set_out (out s') s.
Proof.
  intros Hsock Hroom. simpl. unfold joinRoom. rewrite Hsock, Hroom.
  rewrite decide_True by done.
  split; [by rewrite out_emit, reached_live by eauto|].
  split; [|done].
  intros room. rewrite broadcasts_emit. rewrite decide_False by done.
  by rewrite app_nil_r.
Qed.

Lemma C9_joinRoom_same_room_is_idempotent_witness :
  let s := run Scenario.one_client Scenario.fresh in
  let s' := handle (JoinRoom "s1" "R1" Responds) s in
  inbox "s1" s' = inbox "s1" s ++ [joinRoomSuccess "R1" None]
  ∧ stored s' = stored s.
Proof.
  destruct (C9_joinRoom_same_room_is_idempotent
              (run Scenario.one_client Scenario.fresh) "s1" "R1" Responds
              Scenario.laptop_socket_in_R1)
    as (Hout & _ & _ & _ & Hstored & _).
  - vm_compute; reflexivity.
  - vm_compute; reflexivity.
  - split; [|exact Hstored].
    unfold inbox. rewrite Hout, filter_app, fmap_app. reflexivity.
Defined.

(** *** Chat submission *)

(** C5 (the code departs from the claim).  When the store is
    unreachable [enqueue] answers [false] and nothing enters any
    lane, yet the handler, which drops that answer, still sends the
    submitter [messageQueued] and no error. *)
Theorem C5_messageQueued_although_enqueue_failed
    (s : Server) (sid : string) (k : Socket) (messageData : ChatMessage)
    (v : SessionValidation) (fs : list bool) :
  sockets s !! sid = Some k →
  JS.truthy_str (cm_room messageData) = true →
  is_participant (default "" (cm_room messageData)) (id (user k)) s = true →
  isValid v = true →
  Queue.faults (redis s) = true :: fs →
  let s' := handle (SendChatMessage sid messageData v) s in
  (∀ m, (Queue.enqueue (clock s) m (redis s)).1 = false)
  ∧ (∀ key, Queue.lane (redis s') key = Queue.lane (redis s) key)
  ∧ out s' = out s ++ [{| target := ToSocket sid; recipients := [sid];
                          event := messageQueued (cm_tempId messageData) (clock s);
                          at_time := clock s |}].
Proof.
  intros Hsock Hroom Hpart Hvalid Hdown. simpl. unfold chatMessage.
  rewrite Hsock, Hroom, Hpart, Hvalid. simpl negb. cbv iota.
  split.
  { intros m. by rewrite (QueueFacts.enqueue_unreachable _ _ _ _ Hdown). }
  rewrite (QueueFacts.enqueue_unreachable _ _ _ _ Hdown).
  split; [done|].
  rewrite out_emit. simpl. rewrite Hsock. by rewrite decide_True by eauto.
Qed.

Lemma C5_messageQueued_although_enqueue_failed_witness :
  let s := Scenario.store_down (run Scenario.one_client Scenario.fresh) in
  let s' := handle (SendChatMessage "s1" Scenario.hi Scenario.valid) s in
  Queue.lane (redis s') Queue.mainQueue = []
  ∧ inbox "s1" s' = inbox "s1" s ++ [messageQueued "t1" 2].
Proof.
  destruct (C5_messageQueued_although_enqueue_failed
              (Scenario.store_down (run Scenario.one_client Scenario.fresh))
              "s1" Scenario.laptop_socket_in_R1 Scenario.hi Scenario.valid [])
    as (_ & Hlanes & Hout).
  - vm_compute; reflexivity.
  - vm_compute; reflexivity.
  - vm_compute; reflexivity.
  - vm_compute; reflexivity.
  - vm_compute; reflexivity.
  - split; [rewrite Hlanes; vm_compute; reflexivity|].
    unfold inbox. rewrite Hout, filter_app, fmap_app.
    f_equal.
Defined.

(** *** Delivery *)

Lemma on_messageProcessed_broadcasts m original s :
  broadcasts (Db.room m) (on_messageProcessed m original s)
  = broadcasts (Db.room m) s ++ [message m].
Proof.
  unfold on_messageProcessed.
  rewrite broadcasts_emit, decide_True by done. f_equal.
  destruct (connectedUsers s !! _) as [sender|]; [|done].
  destruct (negb _); [|done].
  destruct (sockets s !! sender); [|done].
  rewrite broadcasts_emit, decide_False by done. by rewrite app_nil_r.
Qed.

Lemma listeners_broadcast m original (n : nat) s :
  broadcasts (Db.room m) (Nat.iter n (on_messageProcessed m original) s)
  = broadcasts (Db.room m) s ++ replicate n (message m).
Proof.
  induction n as [|n IH]; simpl.
  - by rewrite app_nil_r.
  - rewrite on_messageProcessed_broadcasts, IH, <- app_assoc. f_equal.
    by rewrite <- replicate_S_end.
Qed.

(** C2 (the code departs from the claim).  The [messageProcessed]
    listener is attached inside the connection handler, so every
    accepted connection adds one more; one [processed] event then
    broadcasts the record to its room once per listener.  With two
    connections the room is sent the record twice and the sender two
    completion notices. *)
Theorem C2_broadcast_once_per_accepted_connection :
  (∀ sid k s, processedListeners (on_connection sid k s) = S (processedListeners s))
  ∧ (∀ s m original,
       broadcasts (Db.room m) (dispatch (Queue.messageProcessed m original) s)
       = broadcasts (Db.room m) s ++ replicate (processedListeners s) (message m))
  ∧ (let before := run Scenario.two_clients_one_message Scenario.fresh in
     let after := step before (5%Z, QueueTurn Queue.Persists) in
     processedListeners before = 2
     ∧ broadcasts "R1" after
       = broadcasts "R1" before
         ++ [message Scenario.hi_record; message Scenario.hi_record]
     ∧ inbox "s1" after
       = inbox "s1" before
         ++ [messageProcessed "t1" Scenario.hi_record; message Scenario.hi_record;
             messageProcessed "t1" Scenario.hi_record; message Scenario.hi_record]).
Proof.
  split; [|split].
  - intros sid k s. unfold on_connection. simpl.
    repeat case_match; done.
  - intros s m original. apply listeners_broadcast.
  - by vm_compute.
Qed.

(** The scenario of the specification with the submitter as the only
    connection: the adapter fails twice, then succeeds.  The sender is
    told [messageQueued], an error at each failed attempt, then
    [messageProcessed], and the room is sent the record once. *)
Example one_connection_fails_twice_then_succeeds :
  let submitted :=
    run (Scenario.one_client
         ++ [(4, SendChatMessage "s1" Scenario.hi Scenario.valid)])%Z
      Scenario.fresh in
  let done := run [(5, QueueTurn (Queue.CreateFails "boom"));
                   (6, QueueTurn (Queue.CreateFails "boom"));
                   (7, QueueTurn Queue.Persists)]%Z submitted in
  let record :=
    {| Db._id := 1; Db.room := "R1"; Db.sender := Some "u1";
       Db.content := Some "hi"; Db.type := "text"; Db.file := None;
       Db.aiType := None; Db.timestamp := 7; Db.readers := [] |} in
  since (length (out submitted) - 1) done
  = [messageQueued "t1" 4; messageError "t1" "boom"; messageError "t1" "boom";
     messageProcessed "t1" record; message record]
  ∧ Queue.lists (redis done) = ∅.
Proof. by vm_compute. Qed.

(** *** Start-up and shutdown *)

(** C8, as stated, fails.  A server started on a store that holds two
    claimed entries runs no recovery: the entries are still parked in
    the in-flight lane at start-up and after three turns of the loop,
    and the incoming lane stays empty. *)
Lemma C8_startup_leaves_entries_parked :
  let started := init Scenario.crashed ∅ [] 0 in
  let later := run [(1, QueueTurn Queue.Persists); (101, QueueTurn Queue.Persists);
                    (201, QueueTurn Queue.Persists)]%Z started in
  Queue.lane (redis started) Queue.processingQueue
  = [Scenario.parked "t2" 20; Scenario.parked "t1" 10]
  ∧ Queue.lane (redis started) Queue.mainQueue = []
  ∧ Queue.lane (redis later) Queue.processingQueue
    = [Scenario.parked "t2" 20; Scenario.parked "t1" 10]
  ∧ Queue.lane (redis later) Queue.mainQueue = []
  ∧ stored later = [].
Proof. by vm_compute. Qed.

(** C8, amended.  [cleanup] is run by the termination-signal
    handlers, not at start-up.  On a reachable store it appends every
    entry of the in-flight lane to the incoming lane, in order,
    empties the in-flight lane and leaves the dead-letter lane as it
    was; the process then exits.  Starting the server leaves the three
    lanes untouched. *)
Theorem C8_cleanup_requeues_on_shutdown (s : Server) :
  Queue.faults (redis s) = [] →
  let s' := handle Signal s in
  Queue.lane (redis s') Queue.mainQueue
  = Queue.lane (redis s) Queue.mainQueue ++ Queue.lane (redis s) Queue.processingQueue
  ∧ Queue.lane (redis s') Queue.processingQueue = []
  ∧ Queue.lane (redis s') Queue.deadLetterQueue
    = Queue.lane (redis s) Queue.deadLetterQueue
  ∧ exited s' = true
  ∧ (∀ ti, step s' ti = s')
  ∧ (∀ r db_rooms db_messages now, redis (init r db_rooms db_messages now) = r).
Proof.
  intros Hup. simpl.
  destruct (QueueFacts.cleanup_reachable (redis s) Hup) as (Hm & Hp & Hd).
  by rewrite Hm, Hp, Hd.
Qed.

Lemma C8_cleanup_requeues_on_shutdown_witness :
  let s' := handle Signal (init Scenario.crashed ∅ [] 0) in
  Queue.lane (redis s') Queue.mainQueue
  = [Scenario.parked "t2" 20; Scenario.parked "t1" 10]
  ∧ Queue.lane (redis s') Queue.processingQueue = [].
Proof.
  destruct (C8_cleanup_requeues_on_shutdown (init Scenario.crashed ∅ [] 0))
    as (Hm & Hp & _).
  - reflexivity.
  - split; [exact Hm | exact Hp].
Defined.

(** *** History pages *)

#[local] Instance older_first_total : Total older_first.
Proof. intros a b. unfold older_first. lia. Qed.
#[local] Instance older_first_trans : Transitive older_first.
Proof. intros a b c. unfold older_first. lia. Qed.
#[local] Instance newer_first_total : Total newer_first.
Proof. intros a b. unfold newer_first. lia. Qed.
#[local] Instance newer_first_trans : Transitive newer_first.
Proof. intros a b c. unfold newer_first. lia. Qed.

(** What the store hands back: the newest matching documents. *)
Lemma find_newest coll roomId before n :
  let matching := filter (matches roomId before) coll in
  let fetched := find coll roomId before n in
  length fetched = min n (length matching)
  ∧ StronglySorted newer_first fetched
  ∧ (∀ m, m ∈ fetched → m ∈ coll ∧ matches roomId before m)
  ∧ ∃ older, fetched ++ older ≡ₚ matching
             ∧ ∀ m m', m ∈ fetched → m' ∈ older → newer_first m m'.
Proof.
  simpl. unfold find.
  set (sorted := merge_sort newer_first (filter (matches roomId before) coll)).
  assert (Hperm : sorted ≡ₚ filter (matches roomId before) coll)
    by apply merge_sort_Permutation.
  assert (Hsorted : StronglySorted newer_first sorted)
    by apply (StronglySorted_merge_sort _).
  rewrite <- (take_drop n sorted) in Hsorted, Hperm.
  split; [by rewrite length_take, <- (Permutation_length Hperm), length_app,
            length_take, length_drop; lia|].
  split; [by eapply StronglySorted_app_1_l|].
  split.
  - intros m Hm.
    assert (m ∈ filter (matches roomId before) coll) as Hin
      by (rewrite <- Hperm; set_solver).
    by apply list_elem_of_filter in Hin as [? ?].
  - exists (drop n sorted). split; [done|].
    intros m m' Hm Hm'. by eapply StronglySorted_app_1_elem_of.
Qed.

(** C4, as stated, fails.  Three messages written at times 1, 2, 3
    and a limit of 2: all three are fetched, and the page holds those
    of times 2 and 3 — the newest two — whereas the oldest two of the
    fetched records are those of times 1 and 2. *)
Lemma C4_page_keeps_newest_not_oldest :
  let fetched := find Scenario.three_messages "R1" None 3 in
  let page := (loadMessages 9 Responds Scenario.three_messages None "R1" None 2).1 in
  fetched = [Scenario.at_time 2 "R1" 3; Scenario.at_time 1 "R1" 2;
             Scenario.at_time 0 "R1" 1]
  ∧ page = inl {| messages := [Scenario.at_time 1 "R1" 2; Scenario.at_time 2 "R1" 3];
                  hasMore := true; oldestTimestamp := Some 2%Z |}
  ∧ oldest_of_fetched 2 fetched
    = [Scenario.at_time 0 "R1" 1; Scenario.at_time 1 "R1" 2]
  ∧ match page with
    | inl p => messages p ≠ oldest_of_fetched 2 fetched
    | inr _ => False
    end.
Proof. by vm_compute. Qed.

(** C4, amended.  [loadMessages] fetches up to [limit + 1] records of
    the room older than [before] (the newest ones when [before] is
    absent), newest first; [hasMore] holds exactly when more than
    [limit] were fetched; the page is the newest [limit] of the
    fetched records in ascending time order (whatever is left out is
    no newer than any record of the page); [oldestTimestamp] is the
    time of the first record of the page.  With more than [limit]
    matching records the page has [limit] records and [hasMore] is
    true; with [limit] or fewer it has them all and [hasMore] is
    false. *)
Theorem C4_page_is_newest_limit_ascending
    (now : Z) (coll : list Db.Message) (user : option User)
    (roomId : string) (before : option Z) (limit : nat) :
  let matching := filter (matches roomId before) coll in
  let fetched := find coll roomId before (limit + 1) in
  ∃ page coll',
    loadMessages now Responds coll user roomId before limit = (inl page, coll')
    ∧ length fetched = min (limit + 1) (length matching)
    ∧ hasMore page = bool_decide (limit < length fetched)
    ∧ messages page ≡ₚ take limit fetched
    ∧ StronglySorted older_first (messages page)
    ∧ (∀ m m', m ∈ messages page → m' ∈ drop limit fetched → older_first m' m)
    ∧ match messages page with
      | [] => oldestTimestamp page = None
      | m :: _ =>
          Forall (older_first m) (messages page)
          ∧ (Db.timestamp m ≠ 0%Z → oldestTimestamp page = Some (Db.timestamp m))
      end
    ∧ (limit < length matching →
       hasMore page = true ∧ length (messages page) = limit)
    ∧ (length matching ≤ limit →
       hasMore page = false ∧ length (messages page) = length matching).
Proof.
  intros matching fetched. unfold loadMessages.
  fold fetched.
  set (page := merge_sort older_first (take limit fetched)).
  eexists _, _. split; [reflexivity|]. simpl.
  destruct (find_newest coll roomId before (limit + 1))
    as (Hlen & Hsorted & _ & _).
  fold fetched matching in Hlen, Hsorted.
  assert (Hperm : page ≡ₚ take limit fetched) by apply merge_sort_Permutation.
  assert (Hasc : StronglySorted older_first page)
    by apply (StronglySorted_merge_sort _).
  assert (Hsize : length page = min limit (length fetched))
    by (by rewrite (Permutation_length Hperm), length_take).
  split; [done|]. split; [done|]. split; [done|]. split; [done|].
  split; [|split; [|split]].
  - intros m m' Hm Hm'. rewrite Hperm in Hm.
    rewrite <- (take_drop limit fetched) in Hsorted.
    apply (StronglySorted_app_1_elem_of _ _ _ _ _ Hsorted Hm Hm').
  - destruct page as [|m ms] eqn:Hpage; [done|].
    apply StronglySorted_inv in Hasc as [_ Hhd].
    split.
    + constructor; [unfold older_first; lia | done].
    + by intros _.
  - intros Hmore. rewrite bool_decide_eq_true. lia.
  - intros Hfew. rewrite bool_decide_eq_false. lia.
Qed.

(** The figures of the specification: 31 messages and a limit of 30
    give the 30 newest, ascending, with [hasMore]; 30 messages give
    them all, without. *)
Example page_of_31_and_of_30 :
  let page n :=
    match loadMessages 99 Responds (Scenario.history n) None "R1" None BATCH_SIZE with
    | (inl p, _) => Some (hasMore p, Db.timestamp <$> messages p)
    | (inr _, _) => None
    end in
  page 31 = Some (true, Z.of_nat <$> seq 2 30)
  ∧ page 30 = Some (false, Z.of_nat <$> seq 1 30).
Proof. by vm_compute. Qed.

(** *** AI streaming *)

Lemma append_assoc (a b c : string) : (a +:+ b) +:+ c = a +:+ (b +:+ c).
Proof.
  induction a as [|x a IH]; [done|].
  change (String x ((a +:+ b) +:+ c) = String x (a +:+ (b +:+ c))).
  by rewrite IH.
Qed.

Lemma append_empty_r (a : string) : a +:+ "" = a.
Proof.
  induction a as [|x a IH]; [done|].
  change (String x (a +:+ "") = String x a). by rewrite IH.
Qed.

Lemma or_default_empty (c : option string) : JS.or_default "" c "" = default "" c.
Proof. destruct c as [c|]; simpl; [|done]. by case_decide. Qed.

Lemma accumulate_concat chunks : ∀ acc,
  accumulate acc chunks
  = acc +:+ concat_chunks ((λ c, default "" (currentChunk c)) <$> chunks).
Proof.
  induction chunks as [|c chunks IH]; intros acc; simpl.
  - by rewrite append_empty_r.
  - unfold accumulate in *. simpl. by rewrite IH, or_default_empty, append_assoc.
Qed.

Lemma chunks_of_chunk_events messageId aiName chunks : ∀ acc,
  chunks_of messageId (chunk_events messageId aiName acc chunks)
  = (λ c, default "" (currentChunk c)) <$> chunks.
Proof.
  induction chunks as [|c chunks IH]; intros acc; [done|].
  unfold chunks_of in *. simpl. rewrite decide_True by done. simpl.
  by rewrite IH.
Qed.

(** Streaming a run of chunks: one [aiMessageChunk] per chunk, each
    with the text accumulated so far; nothing is stored. *)
Lemma stream_chunks room aiName query messageId chunks : ∀ acc s,
  ∃ s', foldl (responder_call room aiName query messageId) (acc, s) (onChunk <$> chunks)
        = (accumulate acc chunks, s')
        ∧ ∃ added, out s' = out s ++ added
                   ∧ event <$> added = chunk_events messageId aiName acc chunks
        ∧ stored s' = stored s
        ∧ clock s' = clock s
        ∧ dom (streamingSessions s') = dom (streamingSessions s).
Proof.
  induction chunks as [|c chunks IH]; intros acc s.
  - exists s. split; [done|]. exists []. by rewrite app_nil_r.
  - pose (acc' := acc +:+ JS.or_default "" (currentChunk c) "").
    pose (s1 := emit (ToRoom room)
                  (aiMessageChunk messageId (currentChunk c) acc' (isCodeBlock c)
                     aiName)
                  (touch_session messageId acc' s)).
    rewrite fmap_cons. cbn [foldl chunk_events].
    change (responder_call room aiName query messageId (acc, s) (onChunk c))
      with (acc', s1).
    change (accumulate acc (c :: chunks)) with (accumulate acc' chunks).
    fold acc'.
    destruct (IH acc' s1) as (s' & -> & added & Hout & Hev & Hst & Hcl & Hdom).
    exists s'. split; [done|].
    assert (Hs1 : stored s1 = stored s ∧ clock s1 = clock s
                  ∧ dom (streamingSessions s1) = dom (streamingSessions s)).
    { subst s1. unfold touch_session.
      destruct (streamingSessions s !! messageId) eqn:Hsess; simpl; [|done].
      repeat split. by apply dom_insert_lookup_L. }
    destruct Hs1 as (Hst1 & Hcl1 & Hdom1).
    eexists (_ :: added). split; [|split; [|split; [|split]]].
    + rewrite Hout. subst s1. rewrite out_emit, <- app_assoc. simpl.
      f_equal. unfold touch_session.
      by destruct (streamingSessions s !! messageId).
    + by rewrite fmap_cons, Hev.
    + congruence.
    + congruence.
    + congruence.
Qed.

(** C6, as stated, fails.  The responder streams the chunks
    ["Hello, "; "world "] and completes with the content
    "Hello, world": the accumulated text is "Hello, world " but the
    stored record and [aiMessageComplete] carry the responder's
    content. *)
Lemma C6_persisted_content_is_the_responders :
  let '(accumulatedContent, s') :=
    handleAIResponse "R1" "wayneAI" "@wayneAI hello"
      (streams [text "Hello, "; text "world "] (final "Hello, world"))
      Scenario.fresh in
  accumulatedContent = "Hello, world "
  ∧ concat_chunks (chunks_of "wayneAI-0" (since 0 s')) = "Hello, world "
  ∧ (Db.content <$> stored s') = [Some "Hello, world"]
  ∧ last (since 0 s')
    = Some (aiMessageComplete "wayneAI-0" 0 "Hello, world" "wayneAI" "@wayneAI hello")
  ∧ (Db.content <$> stored s') ≠ [Some accumulatedContent].
Proof. by vm_compute. Qed.

(** C6, amended.  For a generation that streams chunks and then
    completes, the events sent to the room are [aiMessageStart], one
    [aiMessageChunk] per chunk in order (each carrying the text
    accumulated so far) and a single [aiMessageComplete]; the
    concatenation of the broadcast chunks equals the accumulated
    content; the content stored and carried by [aiMessageComplete] is
    the content the responder completes with, which is the
    accumulated content whenever the responder completes with the
    concatenation of its chunks — as for ["Hel"; "lo, "; "world"]
    completed with "Hello, world". *)
Theorem C6_chunks_concatenate_and_final_content_is_stored
    (s : Server) (room aiName query : string) (chunks : list Chunk)
    (f : FinalContent) :
  (let messageId := ai_message_id aiName (clock s) in
   let '(accumulatedContent, s') :=
     handleAIResponse room aiName query (streams chunks f) s in
   let emitted := since (length (out s)) s' in
   emitted = aiMessageStart messageId aiName (clock s)
             :: chunk_events messageId aiName "" chunks
             ++ [aiMessageComplete messageId (length (stored s)) (content f)
                   aiName query]
   ∧ concat_chunks (chunks_of messageId emitted) = accumulatedContent
   ∧ (∃ record, stored s' = stored s ++ [record]
                ∧ Db.content record = Some (content f)
                ∧ Db._id record = length (stored s)
                ∧ (content f = accumulatedContent →
                   Db.content record = Some accumulatedContent))
   ∧ streamingSessions s' !! messageId = None)
  ∧ (let '(accumulatedContent, s') :=
       handleAIResponse "R1" "wayneAI" "@wayneAI hello"
         (streams [text "Hel"; text "lo, "; text "world"] (final "Hello, world"))
         Scenario.fresh in
     accumulatedContent = "Hello, world"
     ∧ (Db.content <$> stored s') = [Some "Hello, world"]
     ∧ since 0 s'
       = [aiMessageStart "wayneAI-0" "wayneAI" 0;
          aiMessageChunk "wayneAI-0" (Some "Hel") "Hel" false "wayneAI";
          aiMessageChunk "wayneAI-0" (Some "lo, ") "Hello, " false "wayneAI";
          aiMessageChunk "wayneAI-0" (Some "world") "Hello, world" false "wayneAI";
          aiMessageComplete "wayneAI-0" 0 "Hello, world" "wayneAI"
            "@wayneAI hello"]).
Proof.
  split; [|by vm_compute].
  unfold handleAIResponse, streams. simpl calls. simpl throws.
  set (messageId := ai_message_id aiName (clock s)).
  set (s0 := emit _ _ _).
  rewrite foldl_app.
  destruct (stream_chunks room aiName query messageId chunks "" s0)
    as (s1 & -> & added & Hout & Hev & Hst & Hcl & Hdom).
  simpl.
  match goal with |- since _ ?x = _ ∧ _ => set (s2 := x) end.
  assert (Hemitted :
    since (length (out s)) s2
    = aiMessageStart messageId aiName (clock s)
      :: chunk_events messageId aiName "" chunks
      ++ [aiMessageComplete messageId (length (stored s)) (content f) aiName query]).
  { unfold since. subst s2. rewrite out_emit. simpl. rewrite Hout. subst s0.
    rewrite out_emit. simpl. rewrite <- !app_assoc, drop_app_length.
    simpl. rewrite fmap_app, Hev. simpl. by rewrite Hst. }
  rewrite Hemitted.
  split; [done|]. split; [|split].
  - unfold chunks_of. simpl. rewrite omap_app. simpl.
    rewrite app_nil_r. fold (chunks_of messageId (chunk_events messageId aiName "" chunks)).
    rewrite chunks_of_chunk_events. by rewrite accumulate_concat.
  - eexists. rewrite Hst. split; [reflexivity|]. simpl.
    split; [done|]. split; [done|]. by intros ->.
  - by rewrite lookup_delete_eq.
Qed.

(** *** Frames: what the building blocks leave alone *)

Ltac fields :=
  cbn [connectedUsers streamingSessions userRooms messageQueues
       messageLoadRetries sockets processedListeners errorListeners rooms
       stored redis timers loading clock out exited
       set_connectedUsers set_streamingSessions set_userRooms
       set_messageQueues set_messageLoadRetries set_sockets
       set_processedListeners set_errorListeners set_rooms set_stored
       set_redis set_timers set_loading set_clock set_out set_exited
       emit setTimeout release_later refuse] in *.

Lemma members_live room s sid : sid ∈ members room s → is_Some (sockets s !! sid).
Proof.
  unfold members. intros Hin.
  apply list_elem_of_fmap in Hin as ([sid' k] & -> & Hin).
  apply elem_of_map_to_list in Hin.
  apply map_lookup_filter_Some in Hin as [Hin _]. eauto.
Qed.

Lemma reached_live_or_addressee tg s sid :
  sid ∈ reached tg s → is_Some (sockets s !! sid) ∨ tg = ToClient sid.
Proof.
  destruct tg as [x|room|room x|x]; simpl.
  - case_decide; [|by intros ?%elem_of_nil]. intros ->%list_elem_of_singleton. by left.
  - intros ?%members_live. by left.
  - intros [_ ?%members_live]%list_elem_of_filter. by left.
  - intros ->%list_elem_of_singleton. by right.
Qed.

Lemma silent_refl sid x : silent_for sid x x.
Proof. exists []. by rewrite app_nil_r. Qed.

Lemma silent_same_out sid x y : out y = out x → silent_for sid x y.
Proof. intros Hout. exists []. by rewrite Hout, app_nil_r. Qed.

Lemma silent_trans sid x y z :
  silent_for sid x y → silent_for sid y z → silent_for sid x z.
Proof.
  intros (a & Ha & Hfa) (b & Hb & Hfb). exists (a ++ b).
  split; [by rewrite Hb, Ha, app_assoc | by apply Forall_app].
Qed.

Lemma silent_inbox sid x y : silent_for sid x y → inbox sid y = inbox sid x.
Proof.
  intros (added & Hout & Hquiet). unfold inbox.
  rewrite Hout, filter_app, fmap_app.
  replace (filter (λ e, sid ∈ recipients e) added) with (@nil Emission).
  - by rewrite app_nil_r.
  - symmetry. clear Hout. induction Hquiet as [|e l He _ IH]; [done|].
    by rewrite filter_cons_False.
Qed.

Lemma silent_emit sid tg e s :
  sockets s !! sid = None → tg ≠ ToClient sid → silent_for sid s (emit tg e s).
Proof.
  intros Hgone Hother. eexists; split; [apply out_emit|].
  constructor; [|done]. simpl. intros [[k Hk] | ->]%reached_live_or_addressee.
  - congruence.
  - done.
Qed.

Lemma forget_user_frame sid uid s :
  let y := forget_user sid uid s in
  sockets y = sockets s
  ∧ timers y = timers s
  ∧ clock y = clock s
  ∧ exited y = exited s
  ∧ out y = out s
  ∧ connectedUsers y
    = (if decide (connectedUsers s !! uid = Some sid)
       then delete uid (connectedUsers s) else connectedUsers s).
Proof. unfold forget_user. by case_decide. Qed.

Lemma announce_leave_frame roomId u s :
  let y := announce_leave roomId u s in
  sockets y = sockets s
  ∧ timers y = timers s
  ∧ clock y = clock s
  ∧ exited y = exited s
  ∧ connectedUsers y = connectedUsers s
  ∧ ∀ sid, sockets s !! sid = None → silent_for sid s y.
Proof.
  unfold announce_leave. cbn [Db.create]. unfold pull_participant. fields.
  destruct (rooms s !! roomId) as [ps|].
  - set (s2 := set_rooms _ _).
    repeat split; try done.
    intros sid Hgone. eapply (silent_trans _ _ s2); [by apply silent_same_out|].
    eapply silent_trans; by apply silent_emit.
  - repeat split; try done. intros sid Hgone. by apply silent_same_out.
Qed.

(** The [disconnect] handler: apart from the maps it cleans and the
    leave notice to the room, everything stays; the leave notice does
    not reach the connection that went away. *)
Lemma on_disconnect_frame sid k reason s :
  let y := on_disconnect sid k reason s in
  sockets y = sockets s
  ∧ timers y = timers s
  ∧ clock y = clock s
  ∧ exited y = exited s
  ∧ connectedUsers y
    = (if decide (connectedUsers s !! id (user k) = Some sid)
       then delete (id (user k)) (connectedUsers s) else connectedUsers s)
  ∧ (sockets s !! sid = None → silent_for sid s y).
Proof.
  unfold on_disconnect.
  destruct (forget_user_frame sid (id (user k)) s)
    as (Hsock & Htim & Hclk & Hex & Hout & Hcu).
  set (s1 := forget_user sid (id (user k)) s) in *.
  assert (Hsame : silent_for sid s s1) by (by apply silent_same_out).
  rewrite <- Htim, <- Hclk, <- Hex, <- Hcu.
  destruct (userRooms s !! id (user k)) as [roomId|]; [|by repeat split].
  destruct (negb (String.eqb roomId "") && _ && _); [|by repeat split].
  destruct (announce_leave_frame roomId (user k) s1) as (? & ? & ? & ? & ? & Hsilent).
  repeat split; try congruence.
  intros Hgone. eapply silent_trans; [exact Hsame|].
  apply Hsilent. by rewrite Hsock.
Qed.

(** [socket.disconnect(true)] on the live connection that the
    [ConnectedUser] entry of its identity points to. *)
Lemma disconnect_evicts s sid k :
  sockets s !! sid = Some k →
  connectedUsers s !! id (user k) = Some sid →
  let y := disconnect sid s in
  sockets y = delete sid (sockets s)
  ∧ connectedUsers y = delete (id (user k)) (connectedUsers s)
  ∧ timers y = timers s
  ∧ clock y = clock s
  ∧ exited y = exited s
  ∧ silent_for sid s y.
Proof.
  intros Hlive Hentry. unfold disconnect, close_socket. rewrite Hlive.
  set (s0 := set_sockets (delete sid (sockets s)) s).
  destruct (on_disconnect_frame sid k "server namespace disconnect" s0)
    as (Hsock & Htim & Hclk & Hex & Hcu & Hsilent).
  rewrite Hsock, Htim, Hclk, Hex, Hcu. subst s0. fields.
  rewrite decide_True by done.
  repeat split; try done.
  destruct Hsilent as (added & Hout & Hquiet); [by rewrite lookup_delete_eq|].
  by exists added.
Qed.


Lemma silent_deliveries sid n x y :
  n ≤ length (out x) → silent_for sid x y → deliveries sid n y = deliveries sid n x.
Proof.
  intros Hn (added & Hout & Hquiet). unfold deliveries.
  rewrite Hout, drop_app_le, filter_app by done.
  replace (filter (λ e, sid ∈ recipients e) added) with (@nil Emission).
  - by rewrite app_nil_r.
  - symmetry. clear Hout. induction Hquiet as [|e l He _ IH]; [done|].
    by rewrite filter_cons_False.
Qed.

(** The connection handler when the identity has no [ConnectedUser]
    entry: the socket is registered and nothing is sent. *)
Lemma on_connection_first sid k s :
  connectedUsers s !! id (user k) = None →
  let y := on_connection sid k s in
  sockets y = <[sid := k]> (sockets s)
  ∧ connectedUsers y = <[id (user k) := sid]> (connectedUsers s)
  ∧ timers y = timers s
  ∧ clock y = clock s
  ∧ exited y = exited s
  ∧ out y = out s.
Proof. intros Hnone. unfold on_connection. fields. by rewrite Hnone. Qed.


(** The middleware from session validation on, for an identity
    without [ConnectedUser] entry. *)
Lemma authenticate_first p s :
  connectedUsers s !! pa_uid p = None →
  let y := authenticate p s in
  timers y = timers s
  ∧ clock y = clock s
  ∧ exited y = exited s
  ∧ (∀ sid, sid ≠ pa_sid p → silent_for sid s y)
  ∧ if accepted (pa_env p)
    then (∃ k, id (user k) = pa_uid p ∧ sockets y = <[pa_sid p := k]> (sockets s))
         ∧ connectedUsers y = <[pa_uid p := pa_sid p]> (connectedUsers s)
    else sockets y = sockets s ∧ connectedUsers y = connectedUsers s.
Proof.
  intros Hnone. unfold authenticate, accepted.
  destruct (isValid (validation (pa_env p))); simpl negb; cbv iota.
  - destruct (found (pa_env p)) as [u|]; simpl.
    + set (k := {| user := _; joined := _; handshake := _ |}).
      destruct (on_connection_first (pa_sid p) k s Hnone)
        as (Hsock & Hcu & Htim & Hclk & Hex & Hout).
      repeat split; try done.
      * intros sid _. by apply silent_same_out.
      * by exists k.
    + repeat split; try done. intros sid Hne.
      eexists; split; [apply out_emit|]. constructor; [|done].
      simpl. by intros ->%list_elem_of_singleton.
  - simpl. repeat split; try done. intros sid Hne.
    eexists; split; [apply out_emit|]. constructor; [|done].
    simpl. by intros ->%list_elem_of_singleton.
Qed.

Lemma pop_earliest_one (x : Z * Timer) : pop_earliest [x] = Some (x, []).
Proof. done. Qed.

Lemma fire_due n t s due tm rest :
  pop_earliest (timers s) = Some ((due, tm), rest) →
  (due ≤ t)%Z →
  fire (S n) t s
  = fire n t (run_timer tm (set_clock (Z.max (clock s) due) (set_timers rest s))).
Proof. intros Hpop Hdue. cbn [fire]. rewrite Hpop. by rewrite decide_True. Qed.

Lemma fire_not_due n t s due tm rest :
  pop_earliest (timers s) = Some ((due, tm), rest) →
  (t < due)%Z →
  fire n t s = s.
Proof.
  intros Hpop Hdue. destruct n; [done|]. cbn [fire]. rewrite Hpop.
  by rewrite decide_False by lia.
Qed.

Lemma fire_none n t s : timers s = [] → fire n t s = s.
Proof. intros Hnone. destruct n; [done|]. cbn [fire]. by rewrite Hnone. Qed.

Lemma step_quiet x t i :
  exited x = false → timers x = [] →
  step x (t, i) = handle i (set_clock (Z.max (clock x) t) x).
Proof.
  intros Hrun Hnone. unfold step. rewrite Hrun. cbn [fst snd].
  unfold advance. by rewrite (fire_none _ _ _ Hnone).
Qed.

Lemma weight_of_parked_handshake due sid p :
  timer_weight [(due, EndSession sid (Some p))] = 2.
Proof. done. Qed.


(** *** Timers: [advance] fires everything that is due *)

Lemma pop_earliest_None ts : pop_earliest ts = None → ts = [].
Proof.
  destruct ts as [|x ts]; [done|]. cbn [pop_earliest].
  destruct (pop_earliest ts) as [[y rest]|]; [by case_decide | done].
Qed.

Lemma pop_earliest_spec ts x rest :
  pop_earliest ts = Some (x, rest) →
  ts ≡ₚ x :: rest ∧ Forall (λ y, (x.1 ≤ y.1)%Z) ts.
Proof.
  revert x rest. induction ts as [|y ts IH]; intros x rest Hpop; [done|].
  cbn [pop_earliest] in Hpop.
  destruct (pop_earliest ts) as [[z rest']|] eqn:Hts.
  - destruct (IH z rest' eq_refl) as [Hperm Hmin].
    case_decide as Hlt; simplify_eq.
    + split.
      * rewrite Hperm. apply perm_swap.
      * constructor; [lia|done].
    + split; [done|]. constructor; [lia|].
      eapply Forall_impl; [exact Hmin|]. simpl. intros w. lia.
  - simplify_eq. apply pop_earliest_None in Hts as ->.
    split; [done|]. by constructor.
Qed.

Lemma timer_weight_cons x ts : timer_weight (x :: ts) = weight_of x + timer_weight ts.
Proof. done. Qed.

Lemma timer_weight_app ts ts' :
  timer_weight (ts ++ ts') = timer_weight ts + timer_weight ts'.
Proof.
  induction ts as [|x ts IH]; [done|].
  rewrite <- app_comm_cons, !timer_weight_cons, IH. lia.
Qed.

Lemma timer_weight_perm ts ts' : ts ≡ₚ ts' → timer_weight ts = timer_weight ts'.
Proof.
  induction 1 as [|x l l' _ IH|x y l|l l' l'' _ IH1 _ IH2];
    rewrite ?timer_weight_cons in *; lia.
Qed.

Lemma timer_weight_pos x ts : 1 ≤ timer_weight (x :: ts).
Proof.
  rewrite timer_weight_cons. unfold weight_of.
  destruct x as [due [sid [p|]|key|p]]; simpl; lia.
Qed.

(** The connection handler arms at most one timer, a plain one. *)
Lemma on_connection_timers sid k x :
  timers (on_connection sid k x) = timers x
  ∨ ∃ due old, timers (on_connection sid k x) = timers x ++ [(due, EndSession old None)].
Proof.
  unfold on_connection. fields.
  destruct (connectedUsers x !! id (user k)) as [previous|]; [|by left].
  destruct (negb (String.eqb previous "") && negb (String.eqb previous sid)); [|by left].
  destruct (<[sid:=k]> (sockets x) !! previous); [|by left].
  right. fields. eauto.
Qed.

Lemma authenticate_timers p x :
  timers (authenticate p x) = timers x
  ∨ ∃ due old, timers (authenticate p x) = timers x ++ [(due, EndSession old None)].
Proof.
  unfold authenticate.
  destruct (negb (isValid (validation (pa_env p)))); [by left|].
  destruct (found (pa_env p)); [|by left].
  apply on_connection_timers.
Qed.

Lemma close_socket_timers sid reason x : timers (close_socket sid reason x) = timers x.
Proof.
  unfold close_socket. destruct (sockets x !! sid) as [k|]; [|done].
  by destruct (on_disconnect_frame sid k reason (set_sockets (delete sid (sockets x)) x))
    as (_ & -> & _).
Qed.

(** A retried load arms at most one timer, the release of the guard:
    it finds its budget spent, or it asks the store again. *)
Lemma loadMessagesWithRetry_timers p x :
  timers (loadMessagesWithRetry p x) = timers x
  ∨ ∃ due key, timers (loadMessagesWithRetry p x) = timers x ++ [(due, ReleaseLoadGuard key)].
Proof.
  unfold loadMessagesWithRetry, on_load_error.
  destruct (messageLoadRetries x !! _) as [n|] eqn:Hn; [|by left].
  case_bool_decide as Hmax; [|by left].
  cbn [default from_option Datatypes.id]. rewrite decide_False by lia.
  right. unfold load_response. fields. eauto.
Qed.

(** A callback leaves behind less weight than it took away. *)
Lemma run_timer_weight due tm x :
  timer_weight (timers (run_timer tm x)) + 1
  ≤ weight_of (due, tm) + timer_weight (timers x).
Proof.
  unfold weight_of. destruct tm as [sid [p|]|key|p]; cbn [run_timer snd].
  - set (x1 := disconnect sid (emit (ToSocket sid) session_ended_notice x)).
    assert (Hx1 : timers x1 = timers x)
      by (subst x1; unfold disconnect; by rewrite close_socket_timers).
    destruct (authenticate_timers p x1) as [->|(d & old & ->)].
    + rewrite Hx1. lia.
    + rewrite timer_weight_app, Hx1. cbn. lia.
  - unfold disconnect. rewrite close_socket_timers. fields. lia.
  - fields. lia.
  - destruct (loadMessagesWithRetry_timers p x) as [->|(d & key & ->)].
    + lia.
    + rewrite timer_weight_app. cbn. lia.
Qed.

Lemma fire_complete t fuel : ∀ x,
  timer_weight (timers x) ≤ fuel →
  Forall (λ y, (t < y.1)%Z) (timers (fire fuel t x)).
Proof.
  induction fuel as [|fuel IH]; intros x Hweight.
  - cbn [fire]. destruct (timers x) as [|y ts]; [constructor|].
    pose proof (timer_weight_pos y ts). lia.
  - cbn [fire].
    destruct (pop_earliest (timers x)) as [[[due tm] rest]|] eqn:Hpop.
    + destruct (pop_earliest_spec _ _ _ Hpop) as [Hperm Hmin].
      case_decide as Hdue.
      * apply IH.
        pose proof (run_timer_weight due tm
                      (set_clock (Z.max (clock x) due) (set_timers rest x))) as Hrun.
        rewrite (timer_weight_perm _ _ Hperm), timer_weight_cons in Hweight.
        fields. lia.
      * eapply Forall_impl; [exact Hmin|]. simpl. intros y. lia.
    + apply pop_earliest_None in Hpop as ->. constructor.
Qed.

(** After [advance t] no timer due by [t] is left: the fuel that
    [advance] gives [fire] is enough. *)
Lemma advance_fires_all_due t x : Forall (λ y, (t < y.1)%Z) (timers (advance t x)).
Proof. unfold advance. fields. by apply fire_complete. Qed.

(** A grace timer with a parked handshake expires. *)
Lemma grace_expires x old k_old p due t' :
  exited x = false →
  timers x = [(due, EndSession old (Some p))] →
  (clock x ≤ due ≤ t')%Z →
  sockets x !! old = Some k_old →
  connectedUsers x !! id (user k_old) = Some old →
  pa_uid p = id (user k_old) →
  pa_sid p ≠ old →
  let y := step x (t', Idle) in
  deliveries old (length (out x)) y
  = [{| target := ToSocket old; recipients := [old];
        event := session_ended "duplicate_login"; at_time := due |}]
  ∧ sockets y !! old = None
  ∧ timers y = []
  ∧ (∃ added, out y = out x ++ added)
  ∧ if accepted (pa_env p)
    then live_of (pa_uid p) y = {[ pa_sid p ]} ∪ (live_of (pa_uid p) x ∖ {[ old ]})
         ∧ connectedUsers y !! pa_uid p = Some (pa_sid p)
    else live_of (pa_uid p) y = live_of (pa_uid p) x ∖ {[ old ]}
         ∧ connectedUsers y !! pa_uid p = None.
Proof.
  intros Hrun Htimers Hdue Hlive Hentry Huid Hnew.
  unfold step. rewrite Hrun. cbn [fst snd handle]. unfold advance.
  rewrite Htimers, weight_of_parked_handshake.
  erewrite fire_due; [| rewrite Htimers; apply pop_earliest_one | lia].
  rewrite (Z.max_r (clock x) due) by lia. unfold run_timer.
  pose (x1 := set_clock due (set_timers [] x)).
  pose (x2 := emit (ToSocket old) session_ended_notice x1).
  pose (x3 := disconnect old x2).
  pose (x4 := authenticate p x3).
  change (fire 1 t' _) with (fire 1 t' x4).
  assert (Hout2 : out x2 = out x ++ [{| target := ToSocket old; recipients := [old];
                                         event := session_ended "duplicate_login";
                                         at_time := due |}]).
  { subst x2 x1. rewrite out_emit. fields. unfold reached. fields.
    by rewrite decide_True by eauto. }
  destruct (disconnect_evicts x2 old k_old Hlive Hentry)
    as (Hsock3 & Hcu3 & Htim3 & Hclk3 & Hex3 & Hsilent3).
  fold x3 in Hsock3, Hcu3, Htim3, Hclk3, Hex3, Hsilent3.
  assert (Hnone3 : connectedUsers x3 !! pa_uid p = None)
    by (rewrite Hcu3, Huid; apply lookup_delete_eq).
  destruct (authenticate_first p x3 Hnone3)
    as (Htim4 & Hclk4 & Hex4 & Hsilent4 & Hacc).
  fold x4 in Htim4, Hclk4, Hex4, Hsilent4, Hacc.
  assert (Htim : timers x4 = []) by (by rewrite Htim4, Htim3).
  rewrite (fire_none _ _ _ Htim).
  assert (Hsilent : silent_for old x2 x4)
    by (eapply silent_trans; [exact Hsilent3 | by apply Hsilent4]).
  split.
  { transitivity (deliveries old (length (out x)) x2).
    - apply silent_deliveries; [rewrite Hout2, length_app; lia|].
      eapply silent_trans; [exact Hsilent|]. by apply silent_same_out.
    - unfold deliveries. rewrite Hout2, drop_app_length.
      by rewrite filter_cons_True by (simpl; apply list_elem_of_here). }
  assert (Hlive3 : live_of (pa_uid p) x3 = live_of (pa_uid p) x ∖ {[ old ]}).
  { unfold live_of. by rewrite Hsock3, map_filter_delete, dom_delete_L. }
  assert (Hold3 : sockets x3 !! old = None)
    by (rewrite Hsock3; apply lookup_delete_eq).
  fields. split; [|split; [done|split]].
  - destruct (accepted (pa_env p)).
    + destruct Hacc as [(k & _ & ->) _]. by rewrite lookup_insert_ne.
    + destruct Hacc as [-> _]. done.
  - destruct Hsilent as (added & Hout4 & _). rewrite Hout4, Hout2, <- app_assoc. eauto.
  - destruct (accepted (pa_env p)).
    + destruct Hacc as [(k & Hk & Hsock4) Hcu4]. split.
      * unfold live_of in *. fields. rewrite Hsock4.
        rewrite map_filter_insert_True by done.
        by rewrite dom_insert_L, Hlive3.
      * rewrite Hcu4. apply lookup_insert_eq.
    + destruct Hacc as [Hsock4 Hcu4]. split.
      * unfold live_of in *. fields. by rewrite Hsock4.
      * by rewrite Hcu4.
Qed.

(** *** The duplicate-login protocol *)

Section duplicate_login.
Local Open Scope Z_scope.

(** Identity [U] is connected as [S_old] and no timer is pending; a
    handshake for [U] arrives as [S_new] at time [t], and nothing else
    reaches the server until the moment of observation. *)
Context (s : Server) (U S_old S_new : string) (k_old : Socket).
Context (hs : Handshake) (env : AuthEnv) (t : Z).
Hypothesis Hrunning : exited s = false.
Hypothesis Hquiet : timers s = [].
Hypothesis Hentry : connectedUsers s !! U = Some S_old.
Hypothesis Hname : S_old ≠ "".
Hypothesis Hlive : sockets s !! S_old = Some k_old.
Hypothesis Howner : id (user k_old) = U.
Hypothesis Hfresh : sockets s !! S_new = None.
Hypothesis Htoken : JS.truthy_str (token hs) = true.
Hypothesis Hsession : JS.truthy_str (auth_sessionId hs) = true.
Hypothesis Hjwt : jwt env = Decoded (Some U).
Hypothesis Hid : U ≠ "".
Hypothesis Htime : clock s ≤ t.

Let parked : PendingAuth :=
  {| pa_sid := S_new; pa_handshake := hs; pa_env := env; pa_uid := U |}.

Let notice : Emission :=
  {| target := ToSocket S_old; recipients := [S_old];
     event := duplicate_login (user_agent hs) (address hs) t; at_time := t |}.

Let farewell : Emission :=
  {| target := ToSocket S_old; recipients := [S_old];
     event := session_ended "duplicate_login";
     at_time := t + DUPLICATE_LOGIN_TIMEOUT |}.

Let arrived : Server := step s (t, Connect S_new hs env).

Lemma new_is_not_old : S_new ≠ S_old.
Proof. intros ->. congruence. Qed.

Lemma not_empty_name : negb (String.eqb S_old "") = true.
Proof.
  apply negb_true_iff. by apply String.eqb_neq.
Qed.

(** On arrival the old connection is notified and the handshake is
    parked in the grace timer; nothing else changes. *)
Lemma arrival :
  arrived
  = set_timers [(t + DUPLICATE_LOGIN_TIMEOUT, EndSession S_old (Some parked))]
      (set_out (out s ++ [notice]) (set_clock t s)).
Proof.
  unfold arrived, step. rewrite Hrunning. cbn [fst snd handle].
  unfold advance. rewrite Hquiet. cbn [timer_weight fmap list_fmap sum_list fire].
  rewrite Z.max_r by done.
  unfold middleware. fields. rewrite Htoken, Hsession, Hjwt. simpl negb. cbv iota.
  rewrite (proj2 (String.eqb_neq _ _) Hid).
  rewrite Hentry, not_empty_name, Hlive.
  unfold handleDuplicateLogin, duplicate_login_notice, emit, setTimeout. fields.
  rewrite Hquiet. unfold reached. fields.
  rewrite decide_True by eauto. done.
Qed.


(** Once it has: the old connection is told and closed, then the
    handshake goes on. *)
Lemma afterwards t' :
  t + DUPLICATE_LOGIN_TIMEOUT ≤ t' →
  let y := step arrived (t', Idle) in
  deliveries S_old (length (out s)) y = [notice; farewell]
  ∧ sockets y !! S_old = None
  ∧ timers y = []
  ∧ if accepted env
    then live_of U y = {[ S_new ]} ∪ (live_of U s ∖ {[ S_old ]})
         ∧ connectedUsers y !! U = Some S_new
    else live_of U y = live_of U s ∖ {[ S_old ]}
         ∧ connectedUsers y !! U = None.
Proof.
  intros Ht'. rewrite arrival.
  set (x := set_timers _ _).
  destruct (grace_expires x S_old k_old parked (t + DUPLICATE_LOGIN_TIMEOUT) t')
    as (Hdel & Hgone & Htim & Hacc); try done.
  { subst x. fields. unfold DUPLICATE_LOGIN_TIMEOUT in *. lia. }
  { subst x. fields. by rewrite Howner. }
  { apply new_is_not_old. }
  set (y := step x (t', Idle)) in *.
  assert (Hlen : length (out x) = S (length (out s)))
    by (subst x; fields; rewrite length_app; simpl; lia).
  split.
  { unfold deliveries in *.
    replace (drop (length (out s)) (out y))
      with (notice :: drop (length (out x)) (out y)).
    - rewrite filter_cons_True by (simpl; apply list_elem_of_here). by rewrite Hdel.
    - destruct Hacc as [(added & Hout) _]. rewrite Hout, Hlen.
      subst x. fields. rewrite <- !app_assoc.
      rewrite drop_app_length.
      change (out s ++ [notice] ++ added) with (out s ++ ([notice] ++ added)).
      replace (S (length (out s))) with (length (out s ++ [notice]))
        by (rewrite length_app; simpl; lia).
      rewrite (app_assoc (out s)), drop_app_length. done. }
  split; [done|]. split; [done|].
  destruct Hacc as [_ Hacc].
  change (pa_env parked) with env in Hacc.
  change (pa_uid parked) with U in Hacc.
  change (pa_sid parked) with S_new in Hacc.
  change (live_of U x) with (live_of U s) in Hacc.
  exact Hacc.
Qed.



End duplicate_login.





(** A held handshake whose client goes away is not accepted when the
    grace window ends; the old session is ended all the same. *)
Example abandoned_handshake_is_not_accepted :
  let y :=
    run [(1000, Connect "s2" (Scenario.handshake_from "phone") (Scenario.accepts "u1"));
         (5000, Disconnect "s2" "transport close");
         (11000, Idle)]%Z Scenario.connected in
  sockets y !! "s2" = None
  ∧ sockets y !! "s1" = None
  ∧ connectedUsers y !! "u1" = None
  ∧ inbox "s1" y
    = [duplicate_login "phone" "10.0.0.7" 1000; session_ended "duplicate_login"].
Proof. by vm_compute. Qed.

(** *** The load guard *)


(** A request that finds the guard free. *)
Lemma fetch_started sid roomId before k x :
  sockets x !! sid = Some k →
  is_participant roomId (id (user k)) x = true →
  messageQueues x !! retry_key roomId (id (user k)) = None →
  fetchPreviousMessages sid roomId before x
  = loadMessagesWithRetry
      {| pl_sid := sid; pl_user := user k; pl_roomId := roomId; pl_before := before |}
      (emit (ToSocket sid) messageLoadStart
         (set_messageQueues
            (<[retry_key roomId (id (user k)) := true]> (messageQueues x)) x)).
Proof.
  intros Hlive Hmember Hguard. unfold fetchPreviousMessages.
  by rewrite Hlive, Hmember, Hguard.
Qed.

(** [loadMessagesWithRetry] with retries left: the store is asked. *)
Lemma load_in_flight p x :
  default 0 (messageLoadRetries x !! retry_key (pl_roomId p) (id (pl_user p)))
  < MAX_RETRIES →
  loadMessagesWithRetry p x = set_loading (loading x ++ [p]) x.
Proof.
  intros Hc. unfold loadMessagesWithRetry.
  destruct (messageLoadRetries x !! _) as [n|]; [|done].
  simpl in Hc. by rewrite bool_decide_eq_false_2 by lia.
Qed.

(** [loadMessagesWithRetry] with the budget spent: the store is not
    asked, the counter is deleted and the handler answers with the
    give-up error. *)
Lemma load_budget_spent p x :
  MAX_RETRIES
  ≤ default 0 (messageLoadRetries x !! retry_key (pl_roomId p) (id (pl_user p))) →
  loadMessagesWithRetry p x
  = load_response p (inr retries_exceeded_message)
      (set_messageLoadRetries
         (delete (retry_key (pl_roomId p) (id (pl_user p))) (messageLoadRetries x)) x).
Proof.
  intros Hc. unfold loadMessagesWithRetry, on_load_error.
  destruct (messageLoadRetries x !! _) as [n|]; simpl in Hc;
    [|unfold MAX_RETRIES in Hc; lia].
  rewrite bool_decide_eq_true_2 by done. cbn [default from_option Datatypes.id].
  by rewrite decide_False by lia.
Qed.

(** A failing attempt while retries are left: nothing is sent, the
    counter goes up by one and the retry waits for the back-off. *)
Lemma failing_attempt p db x :
  p ∈ loading x →
  db ≠ Responds →
  default 0 (messageLoadRetries x !! retry_key (pl_roomId p) (id (pl_user p)))
  < MAX_RETRIES →
  load_settled p db x
  = setTimeout (RetryLoad p)
      (backoff (default 0 (messageLoadRetries x
                             !! retry_key (pl_roomId p) (id (pl_user p)))))
      (set_messageLoadRetries
         (<[retry_key (pl_roomId p) (id (pl_user p))
            := default 0 (messageLoadRetries x
                            !! retry_key (pl_roomId p) (id (pl_user p))) + 1]>
            (messageLoadRetries x))
         (set_stored (stored x) (set_loading (remove_load p (loading x)) x))).
Proof.
  intros Hp Hdb Hc. unfold load_settled. rewrite bool_decide_eq_true_2 by done.
  cbv zeta. unfold on_load_error.
  destruct db as [| |e]; [done| |]; cbn [loadMessages]; fields;
    by rewrite decide_True by done.
Qed.

(** A successful attempt: the counter is deleted and the page goes to
    the requester. *)
Lemma successful_attempt p x :
  p ∈ loading x →
  ∃ page coll,
    loadMessages (clock x) Responds (stored x) (Some (pl_user p)) (pl_roomId p)
      (pl_before p) BATCH_SIZE = (inl page, coll)
    ∧ load_settled p Responds x
      = load_response p (inl page)
          (set_messageLoadRetries
             (delete (retry_key (pl_roomId p) (id (pl_user p))) (messageLoadRetries x))
             (set_stored coll (set_loading (remove_load p (loading x)) x))).
Proof.
  intros Hp. unfold load_settled. rewrite bool_decide_eq_true_2 by done.
  cbv zeta. fields.
  destruct (loadMessages (clock x) Responds (stored x) (Some (pl_user p)) (pl_roomId p)
              (pl_before p) BATCH_SIZE) as [[page|e] coll] eqn:Hload.
  - eauto.
  - unfold loadMessages in Hload. simplify_eq.
Qed.



Lemma step_running x t i :
  exited x = false → step x (t, i) = handle i (advance t x).
Proof. intros Hrun. unfold step. by rewrite Hrun. Qed.

Lemma advance_quiet t x :
  timers x = [] → advance t x = set_clock (Z.max (clock x) t) x.
Proof. intros Hnone. unfold advance. by rewrite (fire_none _ _ _ Hnone). Qed.

Lemma backoff_nonneg c : (0 ≤ backoff c)%Z.
Proof.
  unfold backoff, RETRY_DELAY. apply Z.min_glb; [|lia].
  apply Z.mul_nonneg_nonneg; [lia|]. apply Z.pow_nonneg. lia.
Qed.

Lemma resumes_at_later fails : ∀ c start,
  paced c start fails → (start ≤ resumes_at c start fails)%Z.
Proof.
  induction fails as [|f rest IH]; intros c start Hpaced; simpl; [lia|].
  destruct Hpaced as (Hstart & _ & _ & Hrest).
  apply IH in Hrest. pose proof (backoff_nonneg c). lia.
Qed.

Lemma weight_of_retry due p : timer_weight [(due, RetryLoad p)] = 2.
Proof. done. Qed.

Section undisturbed_load.
Local Open Scope Z_scope.

(** A load [p] goes through its attempts on a server to which nothing
    else happens; [x] is the state in which it started. *)
Context (p : PendingLoad) (x : Server).

Let key : string := retry_key (pl_roomId p) (id (pl_user p)).

(** [y] is [x] with the load in flight, the counter at [c]. *)
Let in_flight (y : Server) (c : nat) : Prop :=
  exited y = false ∧ timers y = [] ∧ p ∈ loading y
  ∧ default 0%nat (messageLoadRetries y !! key) = c
  ∧ out y = out x ∧ sockets y = sockets x ∧ rooms y = rooms x
  ∧ stored y = stored x ∧ messageQueues y = messageQueues x.

(** [y] is [x] with the load answered by [e] at time [T]: the
    counter is gone and the release of the guard is the one timer
    pending. *)
Let answered (y : Server) (T : Z) (e : ServerEvent) : Prop :=
  exited y = false
  ∧ timers y = [(T + LOAD_DELAY, ReleaseLoadGuard key)]
  ∧ clock y = T
  ∧ (∃ sent, out y = out x ++ [sent] ∧ event sent = e)
  ∧ messageLoadRetries y !! key = None
  ∧ sockets y = sockets x ∧ rooms y = rooms x
  ∧ stored y = stored x ∧ messageQueues y = messageQueues x.

(** The load backs off until [due], the counter at [c]. *)
Let backing_off (y : Server) (due : Z) (c : nat) : Prop :=
  exited y = false ∧ timers y = [(due, RetryLoad p)] ∧ clock y ≤ due
  ∧ messageLoadRetries y !! key = Some c
  ∧ out y = out x ∧ sockets y = sockets x ∧ rooms y = rooms x
  ∧ stored y = stored x ∧ messageQueues y = messageQueues x.

Lemma attempt_fails y c db :
  in_flight y c → (c < MAX_RETRIES)%nat → db ≠ Responds →
  backing_off (load_settled p db y) (clock y + backoff c) (c + 1).
Proof.
  intros (Hrun & Htim & Hp & Hc & Hout & Hsock & Hrooms & Hstored & Hmq) Hlt Hdb.
  unfold backing_off.
  rewrite failing_attempt; [|done..| by fields; fold key; rewrite Hc].
  fields. fold key. rewrite Hc, Htim, lookup_insert_eq.
  pose proof (backoff_nonneg c). repeat split; try done. lia.
Qed.

Lemma retry_starts y due c T :
  backing_off y due c → (c < MAX_RETRIES)%nat → due ≤ T →
  in_flight (advance T y) c ∧ clock (advance T y) = T.
Proof.
  intros (Hrun & Htim & Hclk & Hc & Hout & Hsock & Hrooms & Hstored & Hmq) Hlt HT.
  unfold in_flight, advance. rewrite Htim, weight_of_retry.
  erewrite fire_due; [|rewrite Htim; apply pop_earliest_one|done].
  cbn [run_timer]. rewrite load_in_flight by (fields; fold key; rewrite Hc; done).
  rewrite fire_none by done. fields.
  split; [|lia].
  repeat split; try done.
  - apply elem_of_app. right. apply list_elem_of_here.
  - fold key. by rewrite Hc.
Qed.

Lemma retry_gives_up y due c :
  backing_off y due c → (MAX_RETRIES ≤ c)%nat →
  answered (advance due y) due (load_error retries_exceeded_message).
Proof.
  intros (Hrun & Htim & Hclk & Hc & Hout & Hsock & Hrooms & Hstored & Hmq) Hge.
  unfold answered, advance. rewrite Htim, weight_of_retry.
  erewrite fire_due; [|rewrite Htim; apply pop_earliest_one|done].
  cbn [run_timer]. rewrite load_budget_spent by (fields; fold key; rewrite Hc; done).
  unfold load_response. fold key.
  erewrite fire_not_due;
    [|fields; apply pop_earliest_one|fields; unfold LOAD_DELAY; lia].
  fields. rewrite (Z.max_r (clock y) due) by lia.
  repeat split; try done.
  - lia.
  - rewrite Hout. eauto.
  - apply lookup_delete_eq.
Qed.


End undisturbed_load.



Section load_guard.
Local Open Scope Z_scope.

(** A participant's request for the history of a room arrives at
    [t0], with the guard free and no timer pending. *)
Context (s : Server) (sid roomId : string) (k : Socket).
Context (before before' : option Z) (t0 : Z).
Hypothesis Hrunning : exited s = false.
Hypothesis Hquiet : timers s = [].
Hypothesis Hlive : sockets s !! sid = Some k.
Hypothesis Hmember : is_participant roomId (id (user k)) s = true.
Hypothesis Hfree : messageQueues s !! retry_key roomId (id (user k)) = None.
Hypothesis Htime : clock s ≤ t0.

Let key : string := retry_key roomId (id (user k)).

Let pending : PendingLoad :=
  {| pl_sid := sid; pl_user := user k; pl_roomId := roomId; pl_before := before |}.

(** The state the load starts from: the guard is taken and
    [messageLoadStart] is on its way. *)
Let started : Server :=
  emit (ToSocket sid) messageLoadStart
    (set_messageQueues (<[key := true]> (messageQueues s)) (set_clock t0 s)).

Lemma request_arrives :
  step s (t0, FetchPreviousMessages sid roomId before)
  = loadMessagesWithRetry pending started.
Proof.
  rewrite (step_quiet s) by done. cbn [handle]. rewrite Z.max_r by lia.
  by rewrite (fetch_started sid roomId before k).
Qed.



End load_guard.




(** Every request arms its own release of the guard, a dropped one
    too.  u1 asks for the history of R1 at 100 and again at 200, while
    the load is in flight: the second request is dropped, and the
    release it arms fires at 500.  The load is answered at 450; a
    third request at 600, 150 ms after the answer, finds the guard
    free and is served. *)
Example dropped_request_releases_the_guard_early :
  let answered :=
    run [(100, FetchPreviousMessages "s1" "R1" None);
         (200, FetchPreviousMessages "s1" "R1" None);
         (450, LoadSettled Scenario.first_page Responds)]%Z
      (run Scenario.one_client Scenario.fresh) in
  let again := step answered (600%Z, FetchPreviousMessages "s1" "R1" None) in
  (∃ page, since (length (out (run Scenario.one_client Scenario.fresh))) answered
           = [messageLoadStart; previousMessagesLoaded page])
  ∧ messageQueues answered !! retry_key "R1" "u1" = Some true
  ∧ since (length (out answered)) again = [messageLoadStart]
  ∧ Scenario.first_page ∈ loading again.
Proof.
  cbv zeta. split; [eexists; vm_compute; reflexivity|].
  split; [vm_compute; reflexivity|]. split; [vm_compute; reflexivity|].
  vm_compute. apply list_elem_of_here.
Qed.

End ChatFacts.

(** * The rest of the queue and of the handlers *)

Module QueueTurns.
Import Queue QueueFacts.

(** The record [processMessage] creates for an entry. *)
Lemma created_record now coll m :
  Db.create coll (message_fields now m)
  = ({| Db._id := length coll; Db.room := room m; Db.sender := Some (sender m);
        Db.content := content m; Db.type := type m;
        Db.file := if String.eqb (type m) "file" then fd_id <$> fileData m else None;
        Db.aiType := None; Db.timestamp := now; Db.readers := [] |},
     coll ++ [{| Db._id := length coll; Db.room := room m; Db.sender := Some (sender m);
        Db.content := content m; Db.type := type m;
        Db.file := if String.eqb (type m) "file" then fd_id <$> fileData m else None;
        Db.aiType := None; Db.timestamp := now; Db.readers := [] |}]).
Proof. done. Qed.

(** A turn whose persistence succeeds, on a reachable store. *)
Lemma successful_turn now coll r l m :
  faults r = [] →
  lane r mainQueue = l ++ [m] →
  ∃ r' record,
    startProcessing_turn now Persists coll r
    = (r', coll ++ [record], [messageProcessed record m])
    ∧ record = (Db.create coll (message_fields now m)).1
    ∧ faults r' = []
    ∧ lane r' mainQueue = l
    ∧ lane r' processingQueue = lane r processingQueue
    ∧ lane r' deadLetterQueue = lane r deadLetterQueue.
Proof.
  intros Hup Hmain.
  unfold startProcessing_turn, exec_rpoplpush.
  rewrite (round_trip_reachable _ Hup), Hmain, last_snoc, removelast_last.
  unfold processMessage. rewrite created_record.
  set (r1 := set_lane processingQueue _ _).
  assert (Hup1 : faults r1 = []) by done.
  unfold lrem1. rewrite (round_trip_reachable _ Hup1). cbv iota beta zeta.
  eexists _, _. split; [reflexivity|].
  repeat (split; [reflexivity|]).
  subst r1.
  rewrite !lane_set_lane, !(lane_set_lane_ne processingQueue) by lane_ne.
  rewrite ?lane_set_lane, ?(lane_set_lane_ne mainQueue) by lane_ne.
  by rewrite remove_first_head.
Qed.

(** X1.  A turn whose persistence succeeds, on a reachable store: the
    entry at the tail of the incoming lane is taken, one record with
    the entry's room, sender, content and type is appended to the
    collection (the file reference only for type [file]), a single
    [messageProcessed] event carries that record with the entry, and
    the entry is in no lane afterwards: the in-flight and dead-letter
    lanes are as before the turn. *)
Theorem successful_turn_persists_once (now : Z) (coll : list Db.Message)
    (r : Redis) (l : list QMsg) (m : QMsg) :
  faults r = [] →
  lane r mainQueue = l ++ [m] →
  ∃ r' record,
    startProcessing_turn now Persists coll r
    = (r', coll ++ [record], [messageProcessed record m])
    ∧ Db.room record = room m
    ∧ Db.sender record = Some (sender m)
    ∧ Db.content record = content m
    ∧ Db.type record = type m
    ∧ Db.file record = (if String.eqb (type m) "file" then fd_id <$> fileData m else None)
    ∧ Db.timestamp record = now
    ∧ Db.readers record = []
    ∧ lane r' mainQueue = l
    ∧ lane r' processingQueue = lane r processingQueue
    ∧ lane r' deadLetterQueue = lane r deadLetterQueue.
Proof.
  intros Hup Hmain.
  destruct (successful_turn now coll r l m Hup Hmain)
    as (r' & record & Hturn & -> & _ & Hm & Hp & Hd).
  eexists _, _. split; [exact Hturn|]. by repeat split.
Qed.

Lemma successful_turn_persists_once_witness :
  ∃ r' record,
    startProcessing_turn 11 Persists []
      (set_lane mainQueue [Scenario.parked "t1" 10] empty)
    = (r', [] ++ [record], [messageProcessed record (Scenario.parked "t1" 10)])
    ∧ Db.content record = Some "hello"
    ∧ lane r' mainQueue = [].
Proof.
  destruct (successful_turn_persists_once 11 []
              (set_lane mainQueue [Scenario.parked "t1" 10] empty) []
              (Scenario.parked "t1" 10))
    as (r' & record & Hturn & _ & _ & Hcontent & _ & _ & _ & _ & Hmain & _).
  - vm_compute; reflexivity.
  - vm_compute; reflexivity.
  - exists r', record. split; [exact Hturn|]. split; [exact Hcontent | exact Hmain].
Defined.

(** After a round trip, whatever its outcome, the lanes are as before. *)
Lemma round_trip_cons r d fs :
  faults r = d :: fs → round_trip r = (d, {| lists := lists r; faults := fs |}).
Proof. unfold round_trip. by intros ->. Qed.

Lemma lane_faults r fs k : lane {| lists := lists r; faults := fs |} k = lane r k.
Proof. done. Qed.

(** X2.  The dead-letter branch of a failed turn, which an entry
    reaches when its stored count is already [maxRetries - 1]: the
    entry leaves the incoming and in-flight lanes and is appended to
    the dead-letter lane with the failure reason, the time of the
    failure and the incremented count, its payload unchanged; the
    failure is announced by one [messageError] event. *)
Theorem exhausted_entry_is_dead_lettered (now : Z) (e : string)
    (coll : list Db.Message) (r : Redis) (l : list QMsg) (m : QMsg) :
  faults r = [] →
  lane r mainQueue = l ++ [m] →
  maxRetries ≤ JS.or_default 0 (attemptCount m) 0 + 1 →
  ∃ r' dead,
    startProcessing_turn now (CreateFails e) coll r = (r', coll, [messageError e m])
    ∧ lane r' deadLetterQueue = lane r deadLetterQueue ++ [dead]
    ∧ error dead = Some e
    ∧ failedAt dead = Some now
    ∧ attemptCount dead = Some (JS.or_default 0 (attemptCount m) 0 + 1)
    ∧ queuedAt dead = queuedAt m
    ∧ (room dead, sender dead, type dead, content dead, fileData dead, tempId dead,
       metadata dead)
      = (room m, sender m, type m, content m, fileData m, tempId m, metadata m)
    ∧ lane r' mainQueue = l
    ∧ lane r' processingQueue = lane r processingQueue.
Proof.
  intros Hup Hmain Hn.
  destruct (exhausted_turn now e coll r l m Hup Hmain Hn) as (r' & Hturn & Hm & Hp & Hd).
  exists r'. eexists. split; [exact Hturn|]. split; [exact Hd|].
  by repeat split.
Qed.

Lemma exhausted_entry_is_dead_lettered_witness :
  ∃ r' dead,
    startProcessing_turn 30 (CreateFails "boom") []
      (set_lane mainQueue [with_attemptCount 2 (Scenario.parked "t1" 10)] empty)
    = (r', [], [messageError "boom" (with_attemptCount 2 (Scenario.parked "t1" 10))])
    ∧ lane r' deadLetterQueue = [dead]
    ∧ attemptCount dead = Some 3
    ∧ lane r' mainQueue = [].
Proof.
  destruct (exhausted_entry_is_dead_lettered 30 "boom" []
              (set_lane mainQueue [with_attemptCount 2 (Scenario.parked "t1" 10)] empty)
              [] (with_attemptCount 2 (Scenario.parked "t1" 10)))
    as (r' & dead & Hturn & Hdead & _ & _ & Hcount & _ & _ & Hmain & _).
  - vm_compute; reflexivity.
  - vm_compute; reflexivity.
  - vm_compute. lia.
  - exists r', dead. split; [exact Hturn|]. split; [exact Hdead|].
    split; [exact Hcount | exact Hmain].
Defined.

(** X3.  The queue is served last-in, first-out: [enqueue] appends at
    the tail of the incoming lane and a turn takes its entry from the
    same end.  After two payloads are enqueued on a reachable store
    the next turn processes the second one, and the first is still
    waiting behind everything that was queued before. *)
Theorem latest_enqueued_is_processed_first (t1 t2 now : Z) (a b : QMsg)
    (coll : list Db.Message) (r : Redis) :
  faults r = [] →
  ∃ r' record,
    startProcessing_turn now Persists coll (enqueue t2 b (enqueue t1 a r).2).2
    = (r', coll ++ [record], [messageProcessed record (with_queuedAt t2 (with_attemptCount 0 b))])
    ∧ Db.content record = content b
    ∧ lane r' mainQueue = lane r mainQueue ++ [with_queuedAt t1 (with_attemptCount 0 a)].
Proof.
  intros Hup.
  destruct (enqueue_reachable t1 a r Hup) as (r1 & Henq1 & Hup1 & Hmain1 & _).
  rewrite Henq1. simpl snd.
  destruct (enqueue_reachable t2 b r1 Hup1) as (r2 & Henq2 & Hup2 & Hmain2 & _).
  rewrite Henq2. simpl snd. rewrite Hmain1 in Hmain2.
  destruct (successful_turn now coll r2 _ _ Hup2 Hmain2)
    as (r' & record & Hturn & -> & _ & Hmain & _).
  eexists _, _. split; [exact Hturn|]. by split.
Qed.

Lemma latest_enqueued_is_processed_first_witness :
  ∃ r' record,
    startProcessing_turn 30 Persists []
      (enqueue 20 (Scenario.parked "t2" 0) (enqueue 10 (Scenario.parked "t1" 0) empty).2).2
    = (r', [] ++ [record],
       [messageProcessed record
          (with_queuedAt 20 (with_attemptCount 0 (Scenario.parked "t2" 0)))])
    ∧ lane r' mainQueue
      = [with_queuedAt 10 (with_attemptCount 0 (Scenario.parked "t1" 0))].
Proof.
  destruct (latest_enqueued_is_processed_first 10 20 30 (Scenario.parked "t1" 0)
              (Scenario.parked "t2" 0) [] empty) as (r' & record & Hturn & _ & Hmain).
  - reflexivity.
  - exists r', record. split; [exact Hturn|]. rewrite Hmain. vm_compute; reflexivity.
Defined.

(** The first round trip of a turn, when it succeeds on a non-empty
    incoming lane. *)
Lemma claim_entry r r0 l m :
  round_trip r = (false, r0) →
  lane r mainQueue = l ++ [m] →
  ∃ r1, exec_rpoplpush mainQueue processingQueue r = (Some (Some m), r1)
        ∧ faults r1 = faults r0
        ∧ lane r1 mainQueue = l
        ∧ lane r1 processingQueue = m :: lane r processingQueue
        ∧ lane r1 deadLetterQueue = lane r deadLetterQueue.
Proof.
  intros Hrt Hmain. unfold exec_rpoplpush. rewrite Hrt.
  assert (Hlanes : ∀ k, lane r0 k = lane r k).
  { intros k. unfold round_trip in Hrt.
    destruct (faults r); by simplify_eq. }
  rewrite Hlanes, Hmain, last_snoc, removelast_last.
  eexists; split; [reflexivity|]. split; [done|].
  rewrite !lane_set_lane, !(lane_set_lane_ne processingQueue) by lane_ne.
  rewrite ?lane_set_lane, ?(lane_set_lane_ne mainQueue) by lane_ne.
  by rewrite !Hlanes.
Qed.

(** X4.  A failed entry is lost when the store cannot be reached for
    the write that should keep it: the re-enqueue (or the push to the
    dead-letter lane) fails silently — [enqueue] answers [false],
    [moveToDeadLetter] swallows the error — and the entry is then
    removed from the in-flight lane all the same.  After the turn it
    is in none of the three lanes. *)
Theorem failed_entry_lost_when_requeue_unreachable (now : Z) (e : string)
    (coll : list Db.Message) (r : Redis) (l : list QMsg) (m : QMsg) :
  faults r = [false; true] →
  lane r mainQueue = l ++ [m] →
  ∃ r', startProcessing_turn now (CreateFails e) coll r = (r', coll, [messageError e m])
        ∧ lane r' mainQueue = l
        ∧ lane r' processingQueue = lane r processingQueue
        ∧ lane r' deadLetterQueue = lane r deadLetterQueue.
Proof.
  intros Hfaults Hmain.
  destruct (claim_entry r _ l m (round_trip_cons _ _ _ Hfaults) Hmain)
    as (r1 & Hclaim & Hf1 & Hm1 & Hp1 & Hd1).
  simpl in Hf1.
  unfold startProcessing_turn. rewrite Hclaim. simpl processMessage. cbv iota beta.
  unfold on_processing_error. cbv zeta.
  set (n := JS.or_default 0 (attemptCount m) 0 + 1).
  assert (Hwrite : ∃ r2, (if decide (maxRetries ≤ n)
                          then moveToDeadLetter now (with_attemptCount n m) e r1
                          else (enqueue now (with_attemptCount n m) r1).2) = r2
                         ∧ faults r2 = [] ∧ ∀ k, lane r2 k = lane r1 k).
  { case_decide.
    - unfold moveToDeadLetter, rpush. rewrite (round_trip_cons _ _ _ Hf1). simpl. eauto.
    - rewrite (enqueue_unreachable _ _ _ _ Hf1). simpl. eauto. }
  destruct Hwrite as (r2 & -> & Hf2 & Hlanes2).
  unfold lrem1. rewrite (round_trip_reachable _ Hf2). simpl snd.
  eexists; split; [reflexivity|].
  rewrite lane_set_lane, !(lane_set_lane_ne processingQueue) by lane_ne.
  rewrite !Hlanes2, Hp1, Hm1, Hd1. by rewrite remove_first_head.
Qed.

Lemma failed_entry_lost_when_requeue_unreachable_witness :
  ∃ r', startProcessing_turn 11 (CreateFails "boom") []
          {| lists := {[ mainQueue := [Scenario.parked "t1" 10] ]};
             faults := [false; true] |}
        = (r', [], [messageError "boom" (Scenario.parked "t1" 10)])
        ∧ lane r' mainQueue = []
        ∧ lane r' processingQueue = []
        ∧ lane r' deadLetterQueue = [].
Proof.
  destruct (failed_entry_lost_when_requeue_unreachable 11 "boom" []
              {| lists := {[ mainQueue := [Scenario.parked "t1" 10] ]};
                 faults := [false; true] |} [] (Scenario.parked "t1" 10))
    as (r' & Hturn & Hm & Hp & Hd).
  - vm_compute; reflexivity.
  - vm_compute; reflexivity.
  - exists r'. split; [exact Hturn|]. split; [exact Hm|].
    split; [rewrite Hp | rewrite Hd]; vm_compute; reflexivity.
Defined.

(** X5.  When the record is created but populating it fails, the
    turn counts as failed although the record stays in the
    collection: the submitter's side is sent [messageError], and the
    entry goes back to the incoming lane, so that the next successful
    turn stores a second record for the same submission. *)
Theorem populate_failure_keeps_record_and_retries (t1 t2 : Z) (e : string)
    (coll : list Db.Message) (r : Redis) (l : list QMsg) (m : QMsg) :
  faults r = [] →
  lane r mainQueue = l ++ [m] →
  JS.or_default 0 (attemptCount m) 0 + 1 < maxRetries →
  ∃ r1 r2 first second,
    startProcessing_turn t1 (PopulateFails e) coll r
    = (r1, coll ++ [first], [messageError e m])
    ∧ startProcessing_turn t2 Persists (coll ++ [first]) r1
      = (r2, coll ++ [first; second],
         [messageProcessed second (with_queuedAt t1 (with_attemptCount 0 m))])
    ∧ Db.sender first = Some (sender m) ∧ Db.sender second = Some (sender m)
    ∧ Db.content first = content m ∧ Db.content second = content m
    ∧ Db.room first = room m ∧ Db.room second = room m
    ∧ Db._id first ≠ Db._id second.
Proof.
  intros Hup Hmain Hn.
  assert (Hturn1 : ∃ r1,
    startProcessing_turn t1 (PopulateFails e) coll r
    = (r1, coll ++ [(Db.create coll (message_fields t1 m)).1], [messageError e m])
    ∧ faults r1 = []
    ∧ lane r1 mainQueue = l ++ [with_queuedAt t1 (with_attemptCount 0 m)]).
  { destruct (claim_entry r _ l m (round_trip_reachable _ Hup) Hmain)
      as (r1 & Hclaim & Hf1 & Hm1 & Hp1 & Hd1).
    rewrite Hup in Hf1.
    unfold startProcessing_turn. rewrite Hclaim.
    unfold processMessage. rewrite created_record. cbv iota beta.
    unfold on_processing_error. cbv zeta.
    rewrite decide_False by lia.
    destruct (enqueue_reachable t1
                (with_attemptCount (JS.or_default 0 (attemptCount m) 0 + 1) m) r1 Hf1)
      as (r2 & Henq & Hf2 & Hm2 & Hother2).
    rewrite Henq. simpl snd.
    unfold lrem1. rewrite (round_trip_reachable _ Hf2). simpl snd.
    eexists; split; [reflexivity|]. split; [done|].
    rewrite (lane_set_lane_ne processingQueue) by lane_ne.
    by rewrite Hm2, Hm1. }
  destruct Hturn1 as (r1 & Hturn1 & Hf1 & Hm1).
  destruct (successful_turn t2 (coll ++ [(Db.create coll (message_fields t1 m)).1])
              r1 _ _ Hf1 Hm1) as (r2 & second & Hturn2 & -> & _).
  eexists r1, r2, _, _. split; [exact Hturn1|].
  split; [rewrite Hturn2; by rewrite <- app_assoc|].
  repeat split. simpl. rewrite length_app. simpl. lia.
Qed.

Lemma populate_failure_keeps_record_and_retries_witness :
  ∃ r1 r2 first second,
    startProcessing_turn 11 (PopulateFails "boom") []
      (set_lane mainQueue [Scenario.parked "t1" 10] empty)
    = (r1, [] ++ [first], [messageError "boom" (Scenario.parked "t1" 10)])
    ∧ startProcessing_turn 12 Persists ([] ++ [first]) r1
      = (r2, [] ++ [first; second],
         [messageProcessed second
            (with_queuedAt 11 (with_attemptCount 0 (Scenario.parked "t1" 10)))])
    ∧ Db.content first = Some "hello" ∧ Db.content second = Some "hello".
Proof.
  destruct (populate_failure_keeps_record_and_retries 11 12 "boom" []
              (set_lane mainQueue [Scenario.parked "t1" 10] empty) []
              (Scenario.parked "t1" 10))
    as (r1 & r2 & first & second & H1 & H2 & _ & _ & Hc1 & Hc2 & _).
  - vm_compute; reflexivity.
  - vm_compute; reflexivity.
  - vm_compute. lia.
  - exists r1, r2, first, second. split; [exact H1|]. split; [exact H2|].
    split; [exact Hc1 | exact Hc2].
Defined.

(** When the [LREM] that should complete a successful turn fails, the
    inner [catch] treats the entry as failed although its record has
    been stored and announced: the entry goes back to the incoming
    lane, and the next turn stores it a second time. *)
Example failed_removal_requeues_a_persisted_entry :
  let r := {| lists := {[ mainQueue := [Scenario.parked "t1" 10] ]};
              faults := [false; true] |} in
  let '(r1, coll1, evs1) := startProcessing_turn 11 Persists [] r in
  let '(r2, coll2, evs2) := startProcessing_turn 12 Persists coll1 r1 in
  (length coll1, length evs1, length coll2, length evs2) = (1, 1, 2, 1)
  ∧ lane r1 mainQueue = [with_queuedAt 11 (with_attemptCount 0 (Scenario.parked "t1" 10))]
  ∧ lane r1 processingQueue = []
  ∧ Db.content <$> coll2 = [Some "hello"; Some "hello"]
  ∧ lane r2 mainQueue = [] ∧ lane r2 processingQueue = [].
Proof. by vm_compute. Qed.

End QueueTurns.

Module LoaderFacts.
Import Chat ChatFacts.

(** X6.  What one settled attempt of a history load does to the retry
    counter of its room and identity, which all loads of that key
    share.  A successful attempt deletes the counter and sends the
    page; a failing one that finds the counter below [MAX_RETRIES]
    sends nothing, raises the counter by one and arms the retry after
    the back-off of [RETRY_DELAY] doubled per retry so far; a failing
    one that finds it at [MAX_RETRIES] or above deletes it and sends
    the store's error.  Whenever the requester is answered the release
    of the guard is armed [LOAD_DELAY] later, and no other counter is
    ever touched. *)
Theorem answered_load_clears_its_retry_counter
    (p : PendingLoad) (db : FindBehaviour) (x : Server) :
  p ∈ loading x →
  let key := retry_key (pl_roomId p) (id (pl_user p)) in
  let c := default 0 (messageLoadRetries x !! key) in
  let y := load_settled p db x in
  let release := (clock x + LOAD_DELAY, ReleaseLoadGuard key)%Z in
  (∀ key', key' ≠ key → messageLoadRetries y !! key' = messageLoadRetries x !! key')
  ∧ (db = Responds →
     ∃ page, since (length (out x)) y = [previousMessagesLoaded page]
             ∧ messageLoadRetries y !! key = None
             ∧ timers y = timers x ++ [release])
  ∧ (db ≠ Responds → c < MAX_RETRIES →
     out y = out x
     ∧ messageLoadRetries y !! key = Some (c + 1)
     ∧ timers y = timers x ++ [((clock x + backoff c)%Z, RetryLoad p)]
     ∧ (2000 ≤ backoff c ≤ 10000)%Z)
  ∧ (db ≠ Responds → MAX_RETRIES ≤ c →
     ∃ e, since (length (out x)) y = [load_error e]
          ∧ messageLoadRetries y !! key = None
          ∧ timers y = timers x ++ [release]).
Proof.
  intros Hp key c y release. split; [|split; [|split]].
  - intros key' Hne. subst y. unfold load_settled.
    rewrite bool_decide_eq_true_2 by done. cbv zeta. fold key.
    destruct (loadMessages _ _ _ _ _ _ _) as [[page|e] coll].
    + unfold load_response. fields. by rewrite lookup_delete_ne.
    + unfold on_load_error. fold key. case_decide.
      * fields. by rewrite lookup_insert_ne.
      * unfold load_response. fields. by rewrite lookup_delete_ne.
  - intros ->. subst y.
    destruct (successful_attempt p x Hp) as (page & coll & _ & ->).
    exists page. unfold load_response, since. fields. fold key.
    rewrite drop_app_length. split; [done|]. split; [apply lookup_delete_eq|done].
  - intros Hdb Hc. subst y. rewrite failing_attempt by done. fields. fold key c.
    split; [done|]. split; [apply lookup_insert_eq|]. split; [done|].
    unfold backoff, RETRY_DELAY. unfold MAX_RETRIES in Hc.
    assert (c = 0 ∨ c = 1 ∨ c = 2) as [->|[->| ->]] by lia; simpl; lia.
  - intros Hdb Hc. subst y. unfold load_settled.
    rewrite bool_decide_eq_true_2 by done. cbv zeta. fold key.
    destruct db as [| |e]; [done| |]; cbn [loadMessages]; unfold on_load_error;
      fold key; fields; fold c; rewrite decide_False by lia;
      unfold load_response, since; fields; fold key; rewrite drop_app_length;
      (eexists; split; [reflexivity|]; split; [apply lookup_delete_eq|done]).
Qed.

Lemma answered_load_clears_its_retry_counter_witness :
  let x := run [(100, FetchPreviousMessages "s1" "R1" None)]%Z
             (run Scenario.one_client Scenario.fresh) in
  let y := load_settled Scenario.first_page (FindFails "down") x in
  out y = out x
  ∧ messageLoadRetries y !! retry_key "R1" "u1" = Some 1
  ∧ timers y = [(2100%Z, RetryLoad Scenario.first_page)].
Proof.
  destruct (answered_load_clears_its_retry_counter Scenario.first_page (FindFails "down")
              (run [(100, FetchPreviousMessages "s1" "R1" None)]%Z
                 (run Scenario.one_client Scenario.fresh)))
    as (_ & _ & Hfail & _).
  - vm_compute. apply list_elem_of_here.
  - destruct Hfail as (Hout & Hcount & Htimers & _).
    + discriminate.
    + clear. vm_compute. lia.
    + cbv zeta. split; [exact Hout|]. split.
      * refine (eq_trans Hcount _). clear. vm_compute; reflexivity.
      * refine (eq_trans Htimers _). clear. vm_compute; reflexivity.
Defined.

(** X7.  A history load whose three attempts fail, on a server to
    which nothing else happens.  The request of a participant arrives
    at [t0] with the guard free, no timer pending and no retry counter
    for its key; the store fails (or times out) at [T1], [T2] and
    [T3], each attempt settling no earlier than the back-off before it
    allows.  The retries are armed 2 s, 4 s and 8 s after the
    failures and nothing is sent meanwhile; when the third back-off is
    over the handler answers at once with the give-up error rather
    than the store's own, without asking the store a fourth time; the
    collection is untouched and the counter is gone. *)
Theorem three_failures_then_load_is_abandoned
    (s : Server) (sid roomId : string) (k : Socket) (before : option Z)
    (t0 T1 T2 T3 : Z) (d1 d2 d3 : FindBehaviour) :
  exited s = false →
  timers s = [] →
  sockets s !! sid = Some k →
  is_participant roomId (id (user k)) s = true →
  messageQueues s !! retry_key roomId (id (user k)) = None →
  messageLoadRetries s !! retry_key roomId (id (user k)) = None →
  d1 ≠ Responds → d2 ≠ Responds → d3 ≠ Responds →
  (clock s ≤ t0 ≤ T1)%Z → (T1 + 2000 ≤ T2)%Z → (T2 + 4000 ≤ T3)%Z →
  let p := {| pl_sid := sid; pl_user := user k; pl_roomId := roomId;
              pl_before := before |} in
  let request := (t0, FetchPreviousMessages sid roomId before) in
  let s1 := run [request; (T1, LoadSettled p d1)] s in
  let s2 := run [request; (T1, LoadSettled p d1); (T2, LoadSettled p d2)] s in
  let s3 := run [request; (T1, LoadSettled p d1); (T2, LoadSettled p d2);
                 (T3, LoadSettled p d3)] s in
  let s4 := run [request; (T1, LoadSettled p d1); (T2, LoadSettled p d2);
                 (T3, LoadSettled p d3); ((T3 + 8000)%Z, Idle)] s in
  timers s1 = [((T1 + 2000)%Z, RetryLoad p)]
  ∧ timers s2 = [((T2 + 4000)%Z, RetryLoad p)]
  ∧ timers s3 = [((T3 + 8000)%Z, RetryLoad p)]
  ∧ since (length (out s)) s3 = [messageLoadStart]
  ∧ since (length (out s)) s4 = [messageLoadStart; load_error retries_exceeded_message]
  ∧ stored s4 = stored s
  ∧ messageLoadRetries s4 !! retry_key roomId (id (user k)) = None.
Proof.
  intros Hrun Hquiet Hlive Hmember Hfree Hcount Hd1 Hd2 Hd3 Ht0 Ht1 Ht2
    p request s1 s2 s3 s4.
  set (key := retry_key roomId (id (user k))) in *.
  set (started := emit (ToSocket sid) messageLoadStart
                    (set_messageQueues (<[key := true]> (messageQueues s))
                       (set_clock t0 s))).
  assert (Hs0 : step s request = set_loading (loading started ++ [p]) started).
  { subst request. rewrite (request_arrives s sid roomId k before t0) by (done || lia).
    fold key started p. apply load_in_flight. subst started. fields.
    cbn [pl_roomId pl_user p]. fold key. rewrite Hcount. unfold MAX_RETRIES. simpl. lia. }
  set (y0 := set_loading (loading started ++ [p]) started) in *.
  assert (Hstart : out started = out s ++ [{| target := ToSocket sid;
                                               recipients := reached (ToSocket sid) started;
                                               event := messageLoadStart;
                                               at_time := t0 |}]).
  { subst started. rewrite out_emit. by fields. }
  (* first attempt *)
  assert (H1 : s1 = load_settled p d1 (advance T1 y0)).
  { subst s1. cbn [run foldl]. rewrite Hs0. by rewrite step_running. }
  assert (Hin1 : exited (advance T1 y0) = false ∧ timers (advance T1 y0) = []
                 ∧ p ∈ loading (advance T1 y0)
                 ∧ default 0 (messageLoadRetries (advance T1 y0)
                                !! retry_key (pl_roomId p) (id (pl_user p))) = 0
                 ∧ out (advance T1 y0) = out started
                 ∧ sockets (advance T1 y0) = sockets started
                 ∧ rooms (advance T1 y0) = rooms started
                 ∧ stored (advance T1 y0) = stored started
                 ∧ messageQueues (advance T1 y0) = messageQueues started).
  { rewrite advance_quiet by done. subst y0 started. fields.
    cbn [pl_roomId pl_user p]. fold key. rewrite Hcount.
    repeat split; try done. apply elem_of_app. right. apply list_elem_of_here. }
  assert (Hclk1 : clock (advance T1 y0) = T1).
  { rewrite advance_quiet by done. subst y0 started. fields. lia. }
  pose proof (attempt_fails p started (advance T1 y0) 0 d1 Hin1
                ltac:(unfold MAX_RETRIES; lia) Hd1) as Hb1.
  rewrite <- H1, Hclk1 in Hb1. change (backoff 0) with 2000%Z in Hb1.
  (* second attempt *)
  assert (H2 : s2 = load_settled p d2 (advance T2 s1)).
  { subst s2. cbn [run foldl]. fold (step s request).
    change (step (step s request) (T1, LoadSettled p d1)) with s1.
    rewrite (step_running s1) by apply Hb1. done. }
  destruct (retry_starts p started s1 (T1 + 2000)%Z 1 T2 Hb1
              ltac:(unfold MAX_RETRIES; lia) Ht1) as [Hin2 Hclk2].
  pose proof (attempt_fails p started (advance T2 s1) 1 d2 Hin2
                ltac:(unfold MAX_RETRIES; lia) Hd2) as Hb2.
  rewrite <- H2, Hclk2 in Hb2. change (backoff 1) with 4000%Z in Hb2.
  (* third attempt *)
  assert (H3 : s3 = load_settled p d3 (advance T3 s2)).
  { subst s3. cbn [run foldl]. fold (step s request).
    change (step (step s request) (T1, LoadSettled p d1)) with s1.
    change (step s1 (T2, LoadSettled p d2)) with s2.
    rewrite (step_running s2) by apply Hb2. done. }
  destruct (retry_starts p started s2 (T2 + 4000)%Z 2 T3 Hb2
              ltac:(unfold MAX_RETRIES; lia) Ht2) as [Hin3 Hclk3].
  pose proof (attempt_fails p started (advance T3 s2) 2 d3 Hin3
                ltac:(unfold MAX_RETRIES; lia) Hd3) as Hb3.
  rewrite <- H3, Hclk3 in Hb3. change (backoff 2) with 8000%Z in Hb3.
  (* the third back-off is over *)
  assert (H4 : s4 = advance (T3 + 8000) s3).
  { subst s4. cbn [run foldl]. fold (step s request).
    change (step (step s request) (T1, LoadSettled p d1)) with s1.
    change (step s1 (T2, LoadSettled p d2)) with s2.
    change (step s2 (T3, LoadSettled p d3)) with s3.
    rewrite (step_running s3) by apply Hb3. done. }
  pose proof (retry_gives_up p started s3 (T3 + 8000)%Z 3 Hb3
                ltac:(unfold MAX_RETRIES; lia)) as Hans.
  rewrite <- H4 in Hans.
  destruct Hb1 as (_ & Htim1 & _).
  destruct Hb2 as (_ & Htim2 & _).
  destruct Hb3 as (_ & Htim3 & _ & _ & Hout3 & _ & _ & Hstored3 & _).
  destruct Hans as (_ & _ & _ & (sent & Hout4 & Hsent) & Hcount4 & _ & _ & Hstored4 & _).
  split; [done|]. split; [done|]. split; [done|].
  split; [|split; [|split]].
  - unfold since. rewrite Hout3, Hstart, drop_app_length. done.
  - unfold since. rewrite Hout4, Hstart, <- app_assoc, drop_app_length.
    simpl. by rewrite Hsent.
  - exact Hstored4.
  - exact Hcount4.
Qed.

Lemma three_failures_then_load_is_abandoned_witness :
  let s := run Scenario.one_client Scenario.fresh in
  let abandoned :=
    run [(100, FetchPreviousMessages "s1" "R1" None);
         (10100, LoadSettled Scenario.first_page TimesOut);
         (12150, LoadSettled Scenario.first_page (FindFails "down"));
         (26150, LoadSettled Scenario.first_page TimesOut);
         (34150, Idle)]%Z s in
  since (length (out s)) abandoned
  = [messageLoadStart; load_error retries_exceeded_message]
  ∧ messageLoadRetries abandoned !! retry_key "R1" "u1" = None.
Proof.
  destruct (three_failures_then_load_is_abandoned
              (run Scenario.one_client Scenario.fresh) "s1" "R1"
              Scenario.laptop_socket_in_R1 None 100%Z 10100%Z 12150%Z 26150%Z
              TimesOut (FindFails "down") TimesOut)
    as (_ & _ & _ & _ & Hsent & _ & Hcount).
  - vm_compute; reflexivity.
  - vm_compute; reflexivity.
  - vm_compute; reflexivity.
  - vm_compute; reflexivity.
  - vm_compute; reflexivity.
  - vm_compute; reflexivity.
  - discriminate.
  - discriminate.
  - discriminate.
  - clear. vm_compute. split; discriminate.
  - clear. vm_compute. discriminate.
  - clear. vm_compute. discriminate.
  - split; [exact Hsent | exact Hcount].
Defined.

(** The counter is shared by all loads of a key, and each [catch]
    block reads it afresh.  u1's load of R1 fails at 150 and backs off
    until 2150.  Meanwhile a request dropped at 120 has armed a
    release that frees the guard at 420, so that another request of u1
    for R1 is served at 500; its load succeeds at 600 and deletes the
    counter.  The first load then starts over with a full budget: its
    back-offs are 2 s, 2 s, 4 s and 8 s, and it asks the store four
    times before it is abandoned. *)
Example retry_budget_is_renewed_by_another_load :
  let older := Scenario.first_page in
  let newer := {| pl_sid := "s1"; pl_user := pl_user Scenario.first_page;
                  pl_roomId := "R1"; pl_before := Some 5%Z |} in
  let shared :=
    [(100, FetchPreviousMessages "s1" "R1" None);
     (120, FetchPreviousMessages "s1" "R1" None);
     (150, LoadSettled older (FindFails "down"));
     (500, FetchPreviousMessages "s1" "R1" (Some 5));
     (600, LoadSettled newer Responds);
     (2200, LoadSettled older (FindFails "down"));
     (4300, LoadSettled older (FindFails "down"));
     (8400, LoadSettled older (FindFails "down"));
     (16400, Idle)]%Z in
  let s := run Scenario.one_client Scenario.fresh in
  let pending n := timers (run (take n shared) s) in
  let counter n := messageLoadRetries (run (take n shared) s) !! retry_key "R1" "u1" in
  pending 3 = [(420%Z, ReleaseLoadGuard (retry_key "R1" "u1")); (2150%Z, RetryLoad older)]
  ∧ counter 3 = Some 1
  ∧ counter 5 = None
  ∧ pending 6 = [(4200%Z, RetryLoad older)]
  ∧ counter 6 = Some 1
  ∧ pending 7 = [(8300%Z, RetryLoad older)]
  ∧ pending 8 = [(16400%Z, RetryLoad older)]
  ∧ event <$> last (out (run shared s)) = Some (load_error retries_exceeded_message).
Proof. by vm_compute. Qed.

Lemma has_reader_spec uid m : has_reader uid m = true ↔ uid ∈ (Db.readers m).*1.
Proof.
  unfold has_reader. rewrite existsb_exists. split.
  - intros ([u t] & Hin & Heq). apply String.eqb_eq in Heq. simpl in Heq. subst u.
    apply list_elem_of_fmap. exists (uid, t). split; [done|].
    by apply list_elem_of_In.
  - intros ([u t] & -> & Hin)%list_elem_of_fmap. exists (u, t).
    split; [by apply list_elem_of_In|]. apply String.eqb_refl.
Qed.

Lemma has_reader_push uid now m : has_reader uid (push_reader uid now m) = true.
Proof.
  apply has_reader_spec. simpl. rewrite fmap_app. apply elem_of_app. right.
  apply list_elem_of_here.
Qed.

(** What [mark_read] does to one document. *)
Lemma mark_read_lookup uid now ids coll m' :
  m' ∈ mark_read uid now ids coll →
  ∃ m, m ∈ coll
       ∧ (m' = m ∧ (Db._id m ∈ ids → has_reader uid m = true)
          ∨ m' = push_reader uid now m ∧ Db._id m ∈ ids ∧ has_reader uid m = false).
Proof.
  unfold mark_read. intros (m & -> & Hin)%list_elem_of_fmap. exists m. split; [done|].
  case_bool_decide as Hid; simpl.
  - destruct (has_reader uid m) eqn:Hread; simpl; eauto.
  - left. split; [done|]. by intros ?.
Qed.

Lemma page_of_collection coll roomId before limit m :
  m ∈ merge_sort older_first (take limit (find coll roomId before (limit + 1))) →
  m ∈ coll ∧ Db.room m = roomId.
Proof.
  rewrite merge_sort_Permutation. intros Hin.
  apply (subseteq_take limit) in Hin. unfold find in Hin.
  apply (subseteq_take (limit + 1)) in Hin.
  rewrite merge_sort_Permutation in Hin.
  apply list_elem_of_filter in Hin as [[Hroom _] Hin]. done.
Qed.

(** X8.  A history load that succeeds for a connected user marks the
    page as read by that user: every message of the page is, in the
    collection afterwards, a document read by the user.  Marking only
    appends the user to a document of the page that did not list the
    user yet, so no reader list ever holds the same user twice; the
    page itself consists of documents of the requested room, as they
    were before the marking. *)
Theorem loaded_page_is_marked_read_once (now : Z) (coll : list Db.Message)
    (u : User) (roomId : string) (before : option Z) (limit : nat) :
  ∃ result coll',
    loadMessages now Responds coll (Some u) roomId before limit = (inl result, coll')
    ∧ (∀ m, m ∈ messages result →
         m ∈ coll ∧ Db.room m = roomId
         ∧ ∃ m', m' ∈ coll' ∧ Db._id m' = Db._id m ∧ has_reader (id u) m' = true)
    ∧ length coll' = length coll
    ∧ ((∀ m, m ∈ coll → NoDup (Db.readers m).*1) →
       ∀ m', m' ∈ coll' → NoDup (Db.readers m').*1).
Proof.
  unfold loadMessages.
  set (page := merge_sort older_first (take limit (find coll roomId before (limit + 1)))).
  eexists _, _. split; [reflexivity|]. cbn [messages].
  assert (Hpg : ∀ m, m ∈ page → m ∈ coll ∧ Db.room m = roomId)
    by (intros m Hm; by apply (page_of_collection coll roomId before limit)).
  clearbody page. destruct page as [|m0 page'].
  { split; [by intros m ?%elem_of_nil|]. split; [done|]. by intros Hnodup. }
  cbv iota beta. set (page := m0 :: page') in *. clearbody page.
  split; [|split].
  - intros m Hm.
    destruct (Hpg m Hm) as [Hin Hroom].
    split; [done|]. split; [done|].
    assert (Hid : Db._id m ∈ Db._id <$> page).
    { apply list_elem_of_fmap. eauto. }
    exists (if bool_decide (Db._id m ∈ Db._id <$> page) && negb (has_reader (id u) m)
            then push_reader (id u) now m else m).
    split; [|split].
    + unfold mark_read. apply list_elem_of_fmap. eauto.
    + by destruct (_ && _).
    + rewrite bool_decide_eq_true_2 by done. simpl.
      destruct (has_reader (id u) m) eqn:Hread; simpl; [done|].
      apply has_reader_push.
  - unfold mark_read. by rewrite length_fmap.
  - intros Hnodup m' Hm'.
    apply mark_read_lookup in Hm' as (m & Hin & [[-> _] | (-> & _ & Hread)]).
    + by apply Hnodup.
    + simpl. rewrite fmap_app. apply NoDup_app. split; [by apply Hnodup|].
      split; [|apply NoDup_singleton].
      intros x Hx ->%list_elem_of_singleton.
      simpl in Hx. apply has_reader_spec in Hx. congruence.
Qed.

End LoaderFacts.

Module SessionFacts.
Import Chat ChatFacts.

(** *** The [messageError] listener *)

(** The notice one [messageError] listener sends. *)
Lemma on_messageError_frame e original s :
  let y := on_messageError e original s in
  y = set_out (out y) s
  ∧ (∀ room, broadcasts room y = broadcasts room s)
  ∧ (∀ sid, connectedUsers s !! Queue.sender original ≠ Some sid →
       inbox sid y = inbox sid s)
  ∧ (∀ sid, connectedUsers s !! Queue.sender original = Some sid →
       sid ≠ "" → is_Some (sockets s !! sid) →
       inbox sid y
       = inbox sid s
         ++ [messageError (Queue.tempId original)
               (if String.eqb e "" then "메시지 처리 중 오류가 발생했습니다." else e)]).
Proof.
  unfold on_messageError.
  destruct (connectedUsers s !! Queue.sender original) as [sender|] eqn:Hsender.
  2:{ split; [by destruct s|]. by repeat split. }
  destruct (String.eqb sender "") eqn:Hname; simpl negb; cbv iota.
  { apply String.eqb_eq in Hname. split; [by destruct s|].
    repeat split; try done. intros sid [= ->] Hne. done. }
  destruct (sockets s !! sender) as [k|] eqn:Hlive.
  2:{ split; [by destruct s|]. repeat split; try done.
      intros sid [= ->] _ [? ?]. congruence. }
  split; [done|]. split; [|split].
  - intros room. rewrite broadcasts_emit, decide_False by done. by rewrite app_nil_r.
  - intros sid Hne. rewrite inbox_emit, reached_live by eauto.
    rewrite decide_False; [by rewrite app_nil_r|].
    intros ->%list_elem_of_singleton. congruence.
  - intros sid [= ->] _ _. rewrite inbox_emit, reached_live by eauto.
    by rewrite decide_True by apply list_elem_of_here.
Qed.

(** X9.  A [messageError] event of the queue is reported to the
    submitter alone: whatever the number of listeners, nothing is
    broadcast to any room, no connection other than the one
    registered for the entry's sender receives anything, and nothing
    but the record of emissions changes.  The registered connection of
    the sender, when it is live, receives the notice once per
    attached listener. *)
Theorem messageError_is_reported_to_the_sender_only
    (e : string) (original : Queue.QMsg) (s : Server) :
  let s' := dispatch (Queue.messageError e original) s in
  s' = set_out (out s') s
  ∧ (∀ room, broadcasts room s' = broadcasts room s)
  ∧ (∀ sid, connectedUsers s !! Queue.sender original ≠ Some sid →
       inbox sid s' = inbox sid s)
  ∧ (∀ sid, connectedUsers s !! Queue.sender original = Some sid →
       sid ≠ "" → is_Some (sockets s !! sid) →
       inbox sid s'
       = inbox sid s
         ++ replicate (errorListeners s)
              (messageError (Queue.tempId original)
                 (if String.eqb e "" then "메시지 처리 중 오류가 발생했습니다." else e))).
Proof.
  cbn [dispatch]. generalize (errorListeners s) as n.
  induction n as [|n (Hsame & Hrooms & Hothers & Hsender)]; rewrite ?Nat.iter_succ.
  { simpl. split; [by destruct s|]. repeat split; try done.
    intros. by rewrite app_nil_r. }
  set (y := Nat.iter n (on_messageError e original) s) in *.
  destruct (on_messageError_frame e original y) as (Hsame' & Hrooms' & Hothers' & Hsender').
  assert (Hcu : connectedUsers y = connectedUsers s) by (by rewrite Hsame).
  assert (Hsock : sockets y = sockets s) by (by rewrite Hsame).
  split; [|split; [|split]].
  - etransitivity; [exact Hsame'|].
    generalize (out (on_messageError e original y)). intros o. by rewrite Hsame.
  - intros room. by rewrite Hrooms', Hrooms.
  - intros sid Hne. rewrite Hothers' by (by rewrite Hcu). by apply Hothers.
  - intros sid Hsid Hne Hlive.
    rewrite Hsender', Hsender by (by rewrite ?Hcu, ?Hsock).
    rewrite <- app_assoc. f_equal. by rewrite <- replicate_S_end.
Qed.

(** *** The [disconnect] handler *)

Lemma forget_user_maps sid uid s :
  let y := forget_user sid uid s in
  userRooms y = delete uid (userRooms s)
  ∧ rooms y = rooms s
  ∧ stored y = stored s
  ∧ redis y = redis s
  ∧ messageQueues y
    = filter (λ kv, kv.1 ∉ dom (filter (λ kv : string * bool,
                                          JS.endsWith kv.1 (":" +:+ uid) = true)
                                  (messageQueues s)))
        (messageQueues s)
  ∧ messageLoadRetries y
    = filter (λ kv, kv.1 ∉ dom (filter (λ kv : string * bool,
                                          JS.endsWith kv.1 (":" +:+ uid) = true)
                                  (messageQueues s)))
        (messageLoadRetries s).
Proof. unfold forget_user. by case_decide. Qed.

Lemma announce_leave_maps roomId u s :
  let y := announce_leave roomId u s in
  userRooms y = userRooms s
  ∧ messageQueues y = messageQueues s
  ∧ messageLoadRetries y = messageLoadRetries s.
Proof.
  unfold announce_leave. cbn [Db.create]. unfold pull_participant. fields.
  by destruct (rooms s !! roomId).
Qed.

Lemma on_disconnect_maps sid k reason s :
  let y := on_disconnect sid k reason s in
  userRooms y = delete (id (user k)) (userRooms s)
  ∧ messageQueues y = messageQueues (forget_user sid (id (user k)) s)
  ∧ messageLoadRetries y = messageLoadRetries (forget_user sid (id (user k)) s).
Proof.
  unfold on_disconnect.
  destruct (forget_user_maps sid (id (user k)) s) as (Hur & _).
  destruct (userRooms s !! id (user k)) as [roomId|]; [|done].
  destruct (_ && _ && _); [|done].
  destruct (announce_leave_maps roomId (user k) (forget_user sid (id (user k)) s))
    as (-> & -> & ->). done.
Qed.

(** X10.  When a connection goes away that is no longer the one
    registered for its identity — a newer connection has taken the
    [ConnectedUser] entry — the entry of the newer connection is kept
    and the newer connection stays live, but the identity's
    [UserRoom] entry is dropped all the same. *)
Theorem stale_disconnect_keeps_entry_but_drops_room
    (s : Server) (sid newer reason : string) (k : Socket) :
  sockets s !! sid = Some k →
  connectedUsers s !! id (user k) = Some newer →
  newer ≠ sid →
  let s' := close_socket sid reason s in
  connectedUsers s' = connectedUsers s
  ∧ sockets s' = delete sid (sockets s)
  ∧ sockets s' !! newer = sockets s !! newer
  ∧ userRooms s' !! id (user k) = None.
Proof.
  intros Hlive Hentry Hne. unfold close_socket. rewrite Hlive.
  set (s0 := set_sockets (delete sid (sockets s)) s).
  destruct (on_disconnect_frame sid k reason s0) as (Hsock & _ & _ & _ & Hcu & _).
  destruct (on_disconnect_maps sid k reason s0) as (Hur & _).
  rewrite Hsock, Hcu, Hur. subst s0. fields.
  rewrite decide_False by congruence.
  split; [done|]. split; [done|].
  split; [by rewrite lookup_delete_ne|]. apply lookup_delete_eq.
Qed.

Lemma stale_disconnect_keeps_entry_but_drops_room_witness :
  let s := run [(0, Connect "s1" (Scenario.handshake_from "laptop") (Scenario.accepts "u1"));
                (1000, Connect "s2" (Scenario.handshake_from "phone") (Scenario.accepts "u1"));
                (1001, Connect "s3" (Scenario.handshake_from "tablet") (Scenario.accepts "u1"));
                (11001, Idle); (11002, JoinRoom "s3" "R1" Responds)]%Z
             Scenario.fresh in
  let s' := close_socket "s2" "transport close" s in
  userRooms s !! "u1" = Some "R1"
  ∧ connectedUsers s' !! "u1" = Some "s3"
  ∧ is_Some (sockets s' !! "s3")
  ∧ userRooms s' !! "u1" = None.
Proof.
  set (s := run _ _).
  destruct (stale_disconnect_keeps_entry_but_drops_room s "s2" "s3" "transport close"
              {| user := user Scenario.laptop_socket; joined := {[ "s2" ]};
                 handshake := Scenario.handshake_from "phone" |})
    as (Hcu & _ & Hlive & Hroom).
  - vm_compute; reflexivity.
  - vm_compute; reflexivity.
  - discriminate.
  - split; [vm_compute; reflexivity|].
    split; [rewrite Hcu; vm_compute; reflexivity|].
    split; [rewrite Hlive; vm_compute; eauto | exact Hroom].
Defined.

(** X11.  A disconnection reported as ['client namespace disconnect']
    or ['duplicate_login'] is not announced: no system message is
    stored, the identity stays among the participants of its room and
    nothing is sent to anyone. *)
Theorem client_disconnect_is_not_announced
    (s : Server) (sid reason : string) :
  reason = "client namespace disconnect" ∨ reason = "duplicate_login" →
  let s' := close_socket sid reason s in
  stored s' = stored s ∧ rooms s' = rooms s ∧ out s' = out s.
Proof.
  intros Hreason. unfold close_socket.
  destruct (sockets s !! sid) as [k|]; [|done].
  unfold on_disconnect.
  set (s0 := set_sockets (delete sid (sockets s)) s).
  destruct (forget_user_frame sid (id (user k)) s0) as (_ & _ & _ & _ & Hout & _).
  destruct (forget_user_maps sid (id (user k)) s0) as (_ & Hrooms & Hstored & _).
  destruct (userRooms s0 !! id (user k)) as [roomId|]; [|done].
  replace (negb (String.eqb roomId "")
           && negb (String.eqb reason "client namespace disconnect")
           && negb (String.eqb reason "duplicate_login")) with false; [done|].
  destruct Hreason as [-> | ->]; by destruct (negb (String.eqb roomId "")).
Qed.

Lemma client_disconnect_is_not_announced_witness :
  let s := run Scenario.one_client Scenario.fresh in
  let s' := close_socket "s1" "client namespace disconnect" s in
  stored s' = stored s ∧ rooms s' !! "R1" = Some ["u1"; "u2"] ∧ out s' = out s.
Proof.
  destruct (client_disconnect_is_not_announced
              (run Scenario.one_client Scenario.fresh) "s1"
              "client namespace disconnect") as (Hstored & Hrooms & Hout).
  - left. reflexivity.
  - split; [exact Hstored|]. split; [|exact Hout].
    rewrite Hrooms. vm_compute; reflexivity.
Defined.

(** X12.  Any other disconnection of a connection whose identity is
    in a room — also the one the server itself orders with
    [socket.disconnect(true)], which Socket.IO reports as ['server
    namespace disconnect'] — is announced: a system message "... 님이
    연결이 끊어졌습니다." is stored for the room, the identity is pulled
    from the room's participants, and the room is sent the message
    and the new participant list.  The connection that went away
    receives neither. *)
Theorem lost_connection_is_announced_to_the_room
    (s : Server) (sid reason roomId : string) (k : Socket) (ps : list string) :
  sockets s !! sid = Some k →
  userRooms s !! id (user k) = Some roomId →
  roomId ≠ "" →
  reason ≠ "client namespace disconnect" →
  reason ≠ "duplicate_login" →
  rooms s !! roomId = Some ps →
  let s' := close_socket sid reason s in
  let notice :=
    {| Db._id := length (stored s); Db.room := roomId; Db.sender := None;
       Db.content := Some (name (user k) +:+ "님이 연결이 끊어졌습니다.");
       Db.type := "system"; Db.file := None; Db.aiType := None;
       Db.timestamp := clock s; Db.readers := [] |} in
  let remaining := filter (λ p, p ≠ id (user k)) ps in
  stored s' = stored s ++ [notice]
  ∧ rooms s' = <[roomId := remaining]> (rooms s)
  ∧ is_participant roomId (id (user k)) s' = false
  ∧ broadcasts roomId s'
    = broadcasts roomId s ++ [message notice; participantsUpdate remaining]
  ∧ inbox sid s' = inbox sid s.
Proof.
  intros Hlive Hroom Hname Hr1 Hr2 Hps. unfold close_socket. rewrite Hlive.
  set (s0 := set_sockets (delete sid (sockets s)) s).
  assert (Hgone : sockets s0 !! sid = None) by apply lookup_delete_eq.
  destruct (on_disconnect_frame sid k reason s0) as (_ & _ & _ & _ & _ & Hsilent).
  split; [|split; [|split; [|split]]]; [| | | |by rewrite (silent_inbox _ _ _ (Hsilent Hgone))].
  all: unfold on_disconnect; change (userRooms s0) with (userRooms s); rewrite Hroom.
  all: replace (negb (String.eqb roomId "") && negb (String.eqb reason _)
                && negb (String.eqb reason _)) with true
         by (symmetry; rewrite !andb_true_iff, !negb_true_iff;
             by repeat split; apply String.eqb_neq).
  all: destruct (forget_user_frame sid (id (user k)) s0) as (_ & _ & Hclk & _ & Hout & _).
  all: destruct (forget_user_maps sid (id (user k)) s0) as (_ & Hrooms & Hstored & _).
  all: set (s1 := forget_user sid (id (user k)) s0) in *.
  all: unfold announce_leave; cbn [Db.create]; unfold pull_participant; fields.
  all: rewrite Hrooms, Hstored, Hclk; subst s0; fields; rewrite Hps; fields.
  - done.
  - done.
  - unfold is_participant. fields. rewrite lookup_insert_eq.
    apply bool_decide_eq_false_2. by intros [? _]%list_elem_of_filter.
  - rewrite !broadcasts_emit, !decide_True by done.
    unfold broadcasts. fields. by rewrite Hout, <- app_assoc.
Qed.

Lemma lost_connection_is_announced_to_the_room_witness :
  let s := run Scenario.one_client Scenario.fresh in
  let s' := disconnect "s1" s in
  (Db.content <$> stored s') = (Db.content <$> stored s) ++ [Some "user u1님이 연결이 끊어졌습니다."]
  ∧ rooms s' !! "R1" = Some ["u2"]
  ∧ inbox "s1" s' = inbox "s1" s.
Proof.
  destruct (lost_connection_is_announced_to_the_room
              (run Scenario.one_client Scenario.fresh) "s1"
              "server namespace disconnect" "R1" Scenario.laptop_socket_in_R1
              ["u1"; "u2"])
    as (Hstored & Hrooms & _ & _ & Hinbox).
  - vm_compute; reflexivity.
  - vm_compute; reflexivity.
  - discriminate.
  - discriminate.
  - discriminate.
  - vm_compute; reflexivity.
  - unfold disconnect. split; [|split; [|exact Hinbox]].
    + rewrite Hstored, fmap_app. reflexivity.
    + rewrite Hrooms. vm_compute; reflexivity.
Defined.

Lemma length_append (a b : string) :
  String.length (a +:+ b) = String.length a + String.length b.
Proof.
  induction a as [|x a IH]; [done|].
  change (S (String.length (a +:+ b)) = S (String.length a + String.length b)).
  by rewrite IH.
Qed.

Lemma substring_all (b : string) : String.substring 0 (String.length b) b = b.
Proof. induction b as [|x b IH]; [done|]. simpl. by rewrite IH. Qed.

Lemma substring_append (a b : string) :
  String.substring (String.length a) (String.length b) (a +:+ b) = b.
Proof.
  induction a as [|x a IH]; [apply substring_all|].
  change (String.substring (String.length a) (String.length b) (a +:+ b) = b).
  exact IH.
Qed.

Lemma endsWith_append (a b : string) : JS.endsWith (a +:+ b) b = true.
Proof.
  unfold JS.endsWith. rewrite length_append.
  replace (String.length a + String.length b - String.length b)
    with (String.length a) by lia.
  rewrite substring_append, String.eqb_refl, andb_true_r.
  apply Nat.leb_le. lia.
Qed.

(** X13.  A disconnection releases every load guard of the identity
    at once, whatever room it was taken for, without waiting for the
    release timer.  The retry counter of a room is cleared together
    with its guard; a counter whose guard is not set at that moment
    is left as it is. *)
Theorem disconnect_releases_the_load_guards
    (s : Server) (sid reason roomId : string) (k : Socket) :
  sockets s !! sid = Some k →
  let s' := close_socket sid reason s in
  let key := retry_key roomId (id (user k)) in
  messageQueues s' !! key = None
  ∧ (is_Some (messageQueues s !! key) → messageLoadRetries s' !! key = None)
  ∧ (messageQueues s !! key = None →
     messageLoadRetries s' !! key = messageLoadRetries s !! key).
Proof.
  intros Hlive. unfold close_socket. rewrite Hlive.
  set (s0 := set_sockets (delete sid (sockets s)) s).
  destruct (on_disconnect_maps sid k reason s0) as (_ & -> & ->).
  destruct (forget_user_maps sid (id (user k)) s0) as (_ & _ & _ & _ & -> & ->).
  subst s0. fields.
  set (guards := dom _).
  assert (Hkey : ∀ g, messageQueues s !! retry_key roomId (id (user k)) = Some g →
                      retry_key roomId (id (user k)) ∈ guards).
  { intros g Hg. apply elem_of_dom. exists g.
    apply map_lookup_filter_Some. split; [done|]. apply endsWith_append. }
  split; [|split].
  - apply map_lookup_filter_None. 
    destruct (messageQueues s !! retry_key roomId (id (user k))) as [g|] eqn:Hg;
      [right|by left].
    intros g' [= <-] Hnot. simpl in Hnot. by apply Hnot, (Hkey g).
  - intros [g Hg]. apply map_lookup_filter_None. right.
    intros n _ Hnot. simpl in Hnot. by apply Hnot, (Hkey g).
  - intros Hfree.
    assert (Hnot : retry_key roomId (id (user k)) ∉ guards).
    { subst guards. rewrite elem_of_dom. intros [g Hg].
      apply map_lookup_filter_Some in Hg as [Hg _]. congruence. }
    destruct (messageLoadRetries s !! retry_key roomId (id (user k))) as [n|] eqn:Hn.
    + by apply map_lookup_filter_Some.
    + apply map_lookup_filter_None. by left.
Qed.

Lemma disconnect_releases_the_load_guards_witness :
  let s := run (Scenario.one_client ++ [(3, FetchPreviousMessages "s1" "R1" None)])%Z
             Scenario.fresh in
  let s' := close_socket "s1" "transport close" s in
  messageQueues s !! "R1:u1" = Some true ∧ messageQueues s' !! "R1:u1" = None.
Proof.
  destruct (disconnect_releases_the_load_guards
              (run (Scenario.one_client ++ [(3, FetchPreviousMessages "s1" "R1" None)])%Z
                 Scenario.fresh)
              "s1" "transport close" "R1" Scenario.laptop_socket_in_R1)
    as (Hguard & _).
  - vm_compute; reflexivity.
  - split; [vm_compute; reflexivity | exact Hguard].
Defined.

End SessionFacts.

Module SubmissionFacts.
Import Chat ChatFacts.

(** [trim] strips the white space of Unicode, not only that of ASCII:
    an ideographic space (U+3000), a no-break space (U+00A0) and an
    em space (U+2003) go like a blank; other characters and the white
    space between words stay. *)
Example trim_strips_unicode_white_space :
  JS.trim "　hi　" = "hi"
  ∧ JS.trim "  hi there  " = "hi there"
  ∧ JS.trim "　  " = ""
  ∧ JS.trim " été " = "été".
Proof. by vm_compute. Qed.

(** X14.  A submission without room, from an identity that is not a
    participant of the room, or with a session that is no longer
    valid is turned down with a single [error] of code
    [MESSAGE_ERROR] to the submitter, the first failing check (in
    that order) giving the reason; nothing is enqueued or stored and
    nobody else is sent anything. *)
Theorem rejected_submission_enqueues_nothing
    (s : Server) (sid : string) (k : Socket) (messageData : ChatMessage)
    (v : SessionValidation) (reason : string) :
  sockets s !! sid = Some k →
  (if negb (JS.truthy_str (cm_room messageData)) then Some "채팅방 정보가 없습니다."
   else if negb (is_participant (default "" (cm_room messageData)) (id (user k)) s)
   then Some no_access_message
   else if negb (isValid v) then Some "세션이 만료되었습니다. 다시 로그인해주세요."
   else None) = Some reason →
  let s' := chatMessage sid messageData v s in
  out s' = out s ++ [{| target := ToSocket sid; recipients := [sid];
                        event := error "MESSAGE_ERROR" reason; at_time := clock s |}]
  ∧ s' = set_out (out s') s
  ∧ redis s' = redis s
  ∧ stored s' = stored s.
Proof.
  intros Hlive Hreason. unfold chatMessage. rewrite Hlive.
  assert (Hsent : ∀ r, out (emit (ToSocket sid) (chat_error r) s)
                       = out s ++ [{| target := ToSocket sid; recipients := [sid];
                                      event := error "MESSAGE_ERROR" r;
                                      at_time := clock s |}]).
  { intros r. by rewrite out_emit, reached_live by eauto. }
  destruct (negb (JS.truthy_str (cm_room messageData))).
  { injection Hreason as <-. split; [apply Hsent|done]. }
  destruct (negb (is_participant _ _ s)).
  { injection Hreason as <-. split; [apply Hsent|done]. }
  destruct (negb (isValid v)); [|done].
  injection Hreason as <-. split; [apply Hsent|done].
Qed.

Lemma rejected_submission_enqueues_nothing_witness :
  let s := run Scenario.one_client Scenario.fresh in
  let s' := chatMessage "s1"
              {| cm_room := Some "R2"; cm_type := "text"; cm_content := Some "hi";
                 cm_fileData := None; cm_tempId := "t1" |} Scenario.valid s in
  inbox "s1" s' = inbox "s1" s ++ [error "MESSAGE_ERROR" no_access_message]
  ∧ redis s' = redis s.
Proof.
  destruct (rejected_submission_enqueues_nothing
              (run Scenario.one_client Scenario.fresh) "s1" Scenario.laptop_socket_in_R1
              {| cm_room := Some "R2"; cm_type := "text"; cm_content := Some "hi";
                 cm_fileData := None; cm_tempId := "t1" |} Scenario.valid
              no_access_message)
    as (Hout & _ & Hredis & _).
  - vm_compute; reflexivity.
  - vm_compute; reflexivity.
  - split; [|exact Hredis].
    unfold inbox. rewrite Hout, filter_app, fmap_app. reflexivity.
Defined.

(** An accepted submission on a reachable store, in closed form. *)
Lemma accepted_submission s sid k messageData v :
  sockets s !! sid = Some k →
  JS.truthy_str (cm_room messageData) = true →
  is_participant (default "" (cm_room messageData)) (id (user k)) s = true →
  isValid v = true →
  Queue.faults (redis s) = [] →
  ∃ r' entry,
    chatMessage sid messageData v s
    = emit (ToSocket sid) (messageQueued (cm_tempId messageData) (clock s))
        (set_redis r' s)
    ∧ Queue.faults r' = []
    ∧ Queue.lane r' Queue.mainQueue = Queue.lane (redis s) Queue.mainQueue ++ [entry]
    ∧ (∀ key, Queue.mainQueue ≠ key → Queue.lane r' key = Queue.lane (redis s) key)
    ∧ Queue.sender entry = id (user k)
    ∧ Queue.room entry = default "" (cm_room messageData)
    ∧ Queue.type entry = cm_type messageData
    ∧ Queue.content entry = queue_content messageData
    ∧ Queue.fileData entry
      = (if String.eqb (cm_type messageData) "file"
         then cm_fileData messageData else None)
    ∧ Queue.tempId entry = cm_tempId messageData
    ∧ Queue.sessionId (Queue.metadata entry) = sessionId (user k)
    ∧ Queue.attemptCount entry = Some 0
    ∧ Queue.queuedAt entry = Some (clock s).
Proof.
  intros Hlive Hroom Hmember Hvalid Hup. unfold chatMessage.
  rewrite Hlive, Hroom, Hmember, Hvalid. simpl negb. cbv iota.
  match goal with |- context [Queue.enqueue _ ?m _] =>
    destruct (QueueFacts.enqueue_reachable (clock s) m (redis s) Hup)
      as (r' & -> & Hup' & Hmain & Hother)
  end.
  eexists _, _. split; [reflexivity|]. split; [done|]. split; [exact Hmain|].
  split; [exact Hother|]. by repeat split.
Qed.



Lemma on_messageProcessed_frame m original s :
  on_messageProcessed m original s
  = set_out (out (on_messageProcessed m original s)) s.
Proof.
  unfold on_messageProcessed.
  destruct (connectedUsers s !! _) as [sender|]; [|done].
  destruct (negb _); [|done]. by destruct (sockets s !! sender).
Qed.

Lemma processed_listeners_frame m original (n : nat) s :
  Nat.iter n (on_messageProcessed m original) s
  = set_out (out (Nat.iter n (on_messageProcessed m original) s)) s.
Proof.
  induction n as [|n IH]; [by destruct s|]. rewrite Nat.iter_succ.
  rewrite on_messageProcessed_frame.
  generalize (out (on_messageProcessed m original
                     (Nat.iter n (on_messageProcessed m original) s))).
  intros o. by rewrite IH.
Qed.

(** X16.  Submission and processing together.  When an accepted
    submission is followed by a turn of the queue whose persistence
    succeeds, the record stored is the one of that submission —
    whatever was waiting in the incoming lane before it stays
    there — with the identity of the submitting connection as sender,
    the trimmed content, and the room of the submission; the room is
    sent the record once per attached listener. *)
Theorem submission_is_persisted_for_its_identity
    (s : Server) (sid : string) (k : Socket) (messageData : ChatMessage)
    (v : SessionValidation) :
  sockets s !! sid = Some k →
  JS.truthy_str (cm_room messageData) = true →
  is_participant (default "" (cm_room messageData)) (id (user k)) s = true →
  isValid v = true →
  Queue.faults (redis s) = [] →
  let s' := queue_turn Queue.Persists (chatMessage sid messageData v s) in
  let record :=
    {| Db._id := length (stored s);
       Db.room := default "" (cm_room messageData);
       Db.sender := Some (id (user k));
       Db.content := queue_content messageData;
       Db.type := cm_type messageData;
       Db.file := if String.eqb (cm_type messageData) "file"
                  then Queue.fd_id <$> cm_fileData messageData else None;
       Db.aiType := None; Db.timestamp := clock s; Db.readers := [] |} in
  stored s' = stored s ++ [record]
  ∧ Queue.lane (redis s') Queue.mainQueue = Queue.lane (redis s) Queue.mainQueue
  ∧ Queue.lane (redis s') Queue.processingQueue
    = Queue.lane (redis s) Queue.processingQueue
  ∧ broadcasts (default "" (cm_room messageData)) s'
    = broadcasts (default "" (cm_room messageData)) s
      ++ replicate (processedListeners s) (message record).
Proof.
  intros Hlive Hroom Hmember Hvalid Hup.
  destruct (accepted_submission s sid k messageData v Hlive Hroom Hmember Hvalid Hup)
    as (r1 & entry & -> & Hup1 & Hmain1 & Hother1 & Hsender & Hr & Hty & Hcontent
        & Hfile & _).
  unfold queue_turn. fields.
  destruct (QueueTurns.successful_turn (clock s) (stored s) r1 _ _ Hup1 Hmain1)
    as (r2 & record & -> & Hrecord & _ & Hmain2 & Hproc2 & _).
  assert (Hrec : record
    = {| Db._id := length (stored s);
         Db.room := default "" (cm_room messageData);
         Db.sender := Some (id (user k));
         Db.content := queue_content messageData;
         Db.type := cm_type messageData;
         Db.file := if String.eqb (cm_type messageData) "file"
                    then Queue.fd_id <$> cm_fileData messageData else None;
         Db.aiType := None; Db.timestamp := clock s; Db.readers := [] |}).
  { rewrite Hrecord. unfold Db.create, Queue.message_fields. simpl.
    rewrite Hr, Hsender, Hcontent, Hty, Hfile.
    by destruct (String.eqb (cm_type messageData) "file"). }
  rewrite <- Hrec.
  assert (Hroom' : Db.room record = default "" (cm_room messageData)) by (by rewrite Hrec).
  clear Hrec Hrecord.
  cbn [foldl dispatch].
  set (x := set_stored _ (set_redis r2 _)).
  change (processedListeners x) with (processedListeners s).
  set (y := Nat.iter _ _ x).
  assert (Hframe : y = set_out (out y) x) by apply processed_listeners_frame.
  assert (Hx : broadcasts (Db.room record) x = broadcasts (Db.room record) s).
  { change (broadcasts (Db.room record) x)
      with (broadcasts (Db.room record)
              (emit (ToSocket sid) (messageQueued (cm_tempId messageData) (clock s)) s)).
    rewrite broadcasts_emit, decide_False by done. apply app_nil_r. }
  split; [by rewrite Hframe|]. split; [by rewrite Hframe|].
  split; [|rewrite <- Hroom', <- Hx; apply listeners_broadcast].
  rewrite Hframe. subst x. fields. rewrite Hproc2. by apply Hother1.
Qed.

Lemma submission_is_persisted_for_its_identity_witness :
  let s := run Scenario.one_client Scenario.fresh in
  let s' := queue_turn Queue.Persists
              (chatMessage "s1"
                 {| cm_room := Some "R1"; cm_type := "text"; cm_content := Some "  hi  ";
                    cm_fileData := None; cm_tempId := "t1" |} Scenario.valid s) in
  (Db.sender <$> last (stored s')) = Some (Some "u1")
  ∧ (Db.content <$> last (stored s')) = Some (Some "hi").
Proof.
  destruct (submission_is_persisted_for_its_identity
              (run Scenario.one_client Scenario.fresh) "s1" Scenario.laptop_socket_in_R1
              {| cm_room := Some "R1"; cm_type := "text"; cm_content := Some "  hi  ";
                 cm_fileData := None; cm_tempId := "t1" |} Scenario.valid)
    as (Hstored & _).
  - vm_compute; reflexivity.
  - vm_compute; reflexivity.
  - vm_compute; reflexivity.
  - vm_compute; reflexivity.
  - vm_compute; reflexivity.
  - cbv zeta. rewrite Hstored, last_snoc. split; vm_compute; reflexivity.
Defined.

End SubmissionFacts.

Module RoomFacts.
Import Chat ChatFacts.

(** What [joinRoom] does first when the identity is recorded in another
    room: the socket leaves that room's channel, the [UserRoom] entry
    is deleted and the others in the room are told [userLeft]. *)
Lemma leave_current sid k current s :
  sockets s !! sid = Some k →
  let y := emit (ToRoomExcept current sid) (userLeft (id (user k)) (name (user k)))
             (set_userRooms (delete (id (user k)) (userRooms s))
                (set_joined sid (λ rs, rs ∖ {[ current ]}) s)) in
  sockets y = <[sid := {| user := user k; joined := (joined k ∖ {[ current ]});
                          handshake := handshake k |}]> (sockets s)
  ∧ userRooms y = delete (id (user k)) (userRooms s)
  ∧ rooms y = rooms s
  ∧ stored y = stored s
  ∧ clock y = clock s
  ∧ streamingSessions y = streamingSessions s
  ∧ (∃ e, out y = out s ++ [e] ∧ (sid ∉ recipients e)
          ∧ target e = ToRoomExcept current sid
          ∧ event e = userLeft (id (user k)) (name (user k))).
Proof.
  intros Hlive. unfold set_joined. rewrite Hlive. fields.
  repeat split; try done.
  eexists. split; [reflexivity|]. simpl. split; [|done].
  by intros [? _]%list_elem_of_filter.
Qed.

(** The state in which [joinRoom] asks for the room, whatever the
    identity's current room is. *)
Lemma before_lookup sid k roomId s :
  sockets s !! sid = Some k →
  userRooms s !! id (user k) ≠ Some roomId →
  let y := match userRooms s !! id (user k) with
           | Some current =>
               if negb (String.eqb current "")
               then emit (ToRoomExcept current sid)
                      (userLeft (id (user k)) (name (user k)))
                      (set_userRooms (delete (id (user k)) (userRooms s))
                         (set_joined sid (λ rs, rs ∖ {[ current ]}) s))
               else s
           | None => s
           end in
  (∃ k', sockets y !! sid = Some k' ∧ user k' = user k)
  ∧ userRooms y !! id (user k) ≠ Some roomId
  ∧ rooms y = rooms s
  ∧ stored y = stored s
  ∧ clock y = clock s
  ∧ silent_for sid s y
  ∧ (∀ room, broadcasts room y = broadcasts room s).
Proof.
  intros Hlive Hroom.
  destruct (userRooms s !! id (user k)) as [current|] eqn:Hcurrent.
  2:{ split; [by eauto|]. rewrite Hcurrent. repeat split; try done. apply silent_refl. }
  destruct (negb (String.eqb current "")).
  2:{ split; [by eauto|]. rewrite Hcurrent. repeat split; try done. apply silent_refl. }
  destruct (leave_current sid k current s Hlive)
    as (Hsock & Hur & Hrooms & Hstored & Hclk & _ & e & Hout & Hnot & Htg & _).
  split; [|split; [|split; [|split; [|split; [|split]]]]]; try done.
  - rewrite Hsock, lookup_insert_eq. eauto.
  - rewrite Hur, lookup_delete_eq. done.
  - exists [e]. split; [done|]. by constructor.
  - intros room. unfold broadcasts. rewrite Hout, filter_app, fmap_app.
    rewrite filter_cons_False, filter_nil by (rewrite Htg; done). apply app_nil_r.
Qed.

(** X17.  A [joinRoom] for a room that does not exist is answered with
    [joinRoomError]; by then the identity has already been taken out
    of the room it was in: its socket has left that room's channel,
    its [UserRoom] entry is gone and the others there have been told
    [userLeft].  No system message is stored and no participant list
    changes. *)
Theorem join_of_missing_room_leaves_the_current_one
    (s : Server) (sid roomId current : string) (db : FindBehaviour) (k : Socket) :
  sockets s !! sid = Some k →
  userRooms s !! id (user k) = Some current →
  current ≠ "" →
  current ≠ roomId →
  rooms s !! roomId = None →
  let s' := joinRoom sid roomId db s in
  userRooms s' !! id (user k) = None
  ∧ (∃ k', sockets s' !! sid = Some k' ∧ joined k' = joined k ∖ {[ current ]})
  ∧ (∃ e, out s'
          = out s ++ [e; {| target := ToSocket sid; recipients := [sid];
                            event := joinRoomError "채팅방을 찾을 수 없습니다.";
                            at_time := clock s |}]
          ∧ target e = ToRoomExcept current sid
          ∧ event e = userLeft (id (user k)) (name (user k))
          ∧ (sid ∉ recipients e))
  ∧ stored s' = stored s
  ∧ rooms s' = rooms s.
Proof.
  intros Hlive Hcurrent Hname Hother Hmissing. unfold joinRoom.
  rewrite Hlive, Hcurrent. rewrite decide_False by congruence.
  replace (negb (String.eqb current "")) with true
    by (symmetry; by apply negb_true_iff, String.eqb_neq).
  destruct (leave_current sid k current s Hlive)
    as (Hsock & Hur & Hrooms & Hstored & Hclk & _ & e & Hout & Hnot & Htg & Hev).
  set (y := emit (ToRoomExcept current sid) _ _) in *.
  unfold add_participant. rewrite Hrooms, Hmissing. fields.
  rewrite Hur, Hsock, Hout, Hstored, Hrooms, Hclk, lookup_delete_eq, lookup_insert_eq.
  split; [done|]. split; [by eauto|]. split; [|done].
  exists e. split; [|done].
  rewrite <- app_assoc. simpl. unfold reached. fields.
  rewrite decide_True; [done|].
  change (is_Some (sockets y !! sid)). rewrite Hsock, lookup_insert_eq. eauto.
Qed.

Lemma join_of_missing_room_leaves_the_current_one_witness :
  let s := run Scenario.one_client Scenario.fresh in
  let s' := joinRoom "s1" "R9" Responds s in
  userRooms s !! "u1" = Some "R1"
  ∧ userRooms s' !! "u1" = None
  ∧ stored s' = stored s.
Proof.
  destruct (join_of_missing_room_leaves_the_current_one
              (run Scenario.one_client Scenario.fresh) "s1" "R9" "R1" Responds
              Scenario.laptop_socket_in_R1)
    as (Hroom & _ & _ & Hstored & _).
  - vm_compute; reflexivity.
  - vm_compute; reflexivity.
  - discriminate.
  - discriminate.
  - vm_compute; reflexivity.
  - split; [vm_compute; reflexivity|]. split; [exact Hroom | exact Hstored].
Defined.

(** [joinRoom] for an existing room other than the recorded one, up
    to the history load: [y] is the state after the current room has
    been left, [z] the state in which the history is loaded. *)
Lemma joinRoom_found sid k roomId db ps s :
  sockets s !! sid = Some k →
  userRooms s !! id (user k) ≠ Some roomId →
  rooms s !! roomId = Some ps →
  ∃ y k',
    sockets y !! sid = Some k' ∧ user k' = user k
    ∧ rooms y = rooms s ∧ stored y = stored s ∧ clock y = clock s
    ∧ silent_for sid s y
    ∧ (∀ room, broadcasts room y = broadcasts room s)
    ∧ (∀ current, userRooms s !! id (user k) = Some current → current ≠ "" →
         joined k' = joined k ∖ {[ current ]})
    ∧ let ps' := if bool_decide (id (user k) ∈ ps) then ps else ps ++ [id (user k)] in
      let joinMessage :=
        {| Db._id := length (stored s); Db.room := roomId; Db.sender := None;
           Db.content := Some (name (user k) +:+ "님이 입장하였습니다.");
           Db.type := "system"; Db.file := None; Db.aiType := None;
           Db.timestamp := clock s; Db.readers := [] |} in
      let z := set_stored (stored s ++ [joinMessage])
                 (set_userRooms (<[id (user k) := roomId]> (userRooms y))
                    (set_sockets
                       (<[sid := {| user := user k'; joined := joined k' ∪ {[ roomId ]};
                                    handshake := handshake k' |}]> (sockets y))
                       (set_rooms (<[roomId := ps']> (rooms s)) y))) in
      joinRoom sid roomId db s
      = match loadMessages (clock s) db (stored z) (Some (user k)) roomId None
                BATCH_SIZE with
        | (inr e, coll) =>
            emit (ToSocket sid)
              (joinRoomError (if String.eqb e "" then "채팅방 입장에 실패했습니다." else e))
              (set_stored coll z)
        | (inl result, coll) =>
            emit (ToRoom roomId) (participantsUpdate ps')
              (emit (ToRoom roomId) (message joinMessage)
                 (emit (ToSocket sid)
                    (joinRoomSuccess roomId
                       (Some {| participants := ps'; snap_messages := messages result;
                                snap_hasMore := hasMore result;
                                snap_oldestTimestamp := oldestTimestamp result;
                                activeStreams := active_streams roomId (set_stored coll z) |}))
                    (set_stored coll z)))
        end.
Proof.
  intros Hlive Hroom Hps. unfold joinRoom. rewrite Hlive.
  rewrite decide_False by done.
  destruct (before_lookup sid k roomId s Hlive Hroom)
    as ((k' & Hk' & Huser) & _ & Hrooms & Hstored & Hclk & Hsilent & Hbroad).
  set (y := match userRooms s !! id (user k) with Some _ => _ | None => s end) in *.
  exists y, k'. repeat (split; [done|]).
  split.
  { intros current Hcurrent Hname. subst y. rewrite Hcurrent in Hk'.
    replace (negb (String.eqb current "")) with true in Hk'
      by (symmetry; by apply negb_true_iff, String.eqb_neq).
    destruct (leave_current sid k current s Hlive) as (Hsock & _).
    rewrite Hsock, lookup_insert_eq in Hk'. by simplify_eq. }
  unfold add_participant. rewrite Hrooms, Hps.
  unfold set_joined. fields. rewrite Hk'. fields.
  unfold Db.create. rewrite Hstored, Hclk. cbn [length Db.f_room Db.f_sender
    Db.f_content Db.f_type Db.f_file Db.f_aiType Db.f_timestamp].
  cbv zeta. fields.
  destruct (loadMessages _ _ _ _ _ _ _) as [[result|e] coll]; reflexivity.
Qed.

Lemma members_joined room sid k s :
  sockets s !! sid = Some k → room ∈ joined k → sid ∈ members room s.
Proof.
  intros Hlive Hin. unfold members. apply list_elem_of_fmap.
  exists (sid, k). split; [done|]. apply elem_of_map_to_list.
  by apply map_lookup_filter_Some.
Qed.

(** X18.  When the history load fails inside [joinRoom], the join is
    half done: the identity has been added to the room's
    participants, its [UserRoom] entry and the socket's channel name
    the room and the "... 님이 입장하였습니다." system message is stored,
    but the client is answered [joinRoomError] (with the load's
    reason) and the room is sent neither the message nor the new
    participant list. *)
Theorem join_with_failing_history_is_half_done
    (s : Server) (sid roomId : string) (db : FindBehaviour) (k : Socket)
    (ps : list string) :
  sockets s !! sid = Some k →
  userRooms s !! id (user k) ≠ Some roomId →
  rooms s !! roomId = Some ps →
  db ≠ Responds →
  let s' := joinRoom sid roomId db s in
  let reason := match db with
                | FindFails e => if String.eqb e "" then "채팅방 입장에 실패했습니다." else e
                | _ => load_timeout_message
                end in
  inbox sid s' = inbox sid s ++ [joinRoomError reason]
  ∧ broadcasts roomId s' = broadcasts roomId s
  ∧ is_participant roomId (id (user k)) s' = true
  ∧ userRooms s' !! id (user k) = Some roomId
  ∧ (∃ k', sockets s' !! sid = Some k' ∧ roomId ∈ joined k')
  ∧ stored s'
    = stored s
      ++ [{| Db._id := length (stored s); Db.room := roomId; Db.sender := None;
             Db.content := Some (name (user k) +:+ "님이 입장하였습니다.");
             Db.type := "system"; Db.file := None; Db.aiType := None;
             Db.timestamp := clock s; Db.readers := [] |}].
Proof.
  intros Hlive Hroom Hps Hdb.
  destruct (joinRoom_found sid k roomId db ps s Hlive Hroom Hps)
    as (y & k' & Hk' & Huser & Hrooms & Hstored & Hclk & Hsilent & Hbroad & _ & Hjoin).
  cbv zeta in Hjoin. cbv zeta. rewrite Hjoin. clear Hjoin.
  set (z := set_stored _ _).
  assert (Hload : loadMessages (clock s) db (stored z) (Some (user k)) roomId None
                    BATCH_SIZE
                  = (inr match db with
                         | FindFails e => e
                         | _ => load_timeout_message
                         end, stored z)).
  { by destruct db. }
  rewrite Hload.
  assert (Hreason : (if String.eqb match db with
                                   | FindFails e => e
                                   | _ => load_timeout_message
                                   end ""
                     then "채팅방 입장에 실패했습니다."
                     else match db with
                          | FindFails e => e
                          | _ => load_timeout_message
                          end)
                    = match db with
                      | FindFails e => if String.eqb e "" then "채팅방 입장에 실패했습니다." else e
                      | _ => load_timeout_message
                      end).
  { by destruct db. }
  rewrite Hreason.
  assert (Hz : sockets z !! sid
               = Some {| user := user k'; joined := joined k' ∪ {[ roomId ]};
                         handshake := handshake k' |}).
  { subst z. fields. apply lookup_insert_eq. }
  split; [|split; [|split; [|split; [|split]]]].
  - rewrite inbox_emit, reached_live by (fields; eauto).
    rewrite decide_True by apply list_elem_of_here. f_equal.
    rewrite <- (silent_inbox sid s y Hsilent). done.
  - rewrite broadcasts_emit, decide_False by done. rewrite app_nil_r.
    rewrite <- Hbroad. done.
  - unfold is_participant. subst z. fields. rewrite lookup_insert_eq.
    apply bool_decide_eq_true_2. case_bool_decide as Hin; [done|].
    apply elem_of_app. right. apply list_elem_of_here.
  - subst z. fields. apply lookup_insert_eq.
  - eexists. split; [exact Hz|]. simpl. apply elem_of_union_r.
    by apply elem_of_singleton.
  - done.
Qed.

Lemma join_with_failing_history_is_half_done_witness :
  let s := run [(0, Connect "s1" (Scenario.handshake_from "laptop") (Scenario.accepts "u1"))]%Z
             Scenario.fresh in
  let s' := joinRoom "s1" "R1" TimesOut s in
  inbox "s1" s' = inbox "s1" s ++ [joinRoomError load_timeout_message]
  ∧ broadcasts "R1" s' = broadcasts "R1" s
  ∧ userRooms s' !! "u1" = Some "R1"
  ∧ length (stored s') = 1.
Proof.
  destruct (join_with_failing_history_is_half_done
              Scenario.connected "s1" "R1" TimesOut Scenario.laptop_socket ["u1"; "u2"])
    as (Hinbox & Hbroad & _ & Hroom & _ & Hstored).
  - vm_compute; reflexivity.
  - vm_compute; discriminate.
  - vm_compute; reflexivity.
  - discriminate.
  - split; [exact Hinbox|]. split; [exact Hbroad|]. split; [exact Hroom|].
    unfold Scenario.connected in Hstored. cbv zeta. rewrite Hstored.
    vm_compute; reflexivity.
Defined.

(** Switching rooms, in full. *)
Lemma switched_rooms (s : Server) (sid roomId current : string) (k : Socket)
    (ps : list string) :
  sockets s !! sid = Some k →
  userRooms s !! id (user k) = Some current →
  current ≠ "" →
  current ≠ roomId →
  rooms s !! roomId = Some ps →
  let s' := joinRoom sid roomId Responds s in
  let ps' := if bool_decide (id (user k) ∈ ps) then ps else ps ++ [id (user k)] in
  let joinMessage :=
    {| Db._id := length (stored s); Db.room := roomId; Db.sender := None;
       Db.content := Some (name (user k) +:+ "님이 입장하였습니다.");
       Db.type := "system"; Db.file := None; Db.aiType := None;
       Db.timestamp := clock s; Db.readers := [] |} in
  userRooms s' !! id (user k) = Some roomId
  ∧ (∃ k', sockets s' !! sid = Some k' ∧ user k' = user k
           ∧ joined k' = (joined k ∖ {[ current ]}) ∪ {[ roomId ]})
  ∧ rooms s' = <[roomId := ps']> (rooms s)
  ∧ is_participant current (id (user k)) s' = is_participant current (id (user k)) s
  ∧ broadcasts roomId s'
    = broadcasts roomId s ++ [message joinMessage; participantsUpdate ps']
  ∧ ∃ snapshot,
      inbox sid s'
      = inbox sid s ++ [joinRoomSuccess roomId (Some snapshot); message joinMessage;
                        participantsUpdate ps']
      ∧ participants snapshot = ps'.
Proof.
  intros Hlive Hcurrent Hname Hother Hps.
  destruct (joinRoom_found sid k roomId Responds ps s Hlive) as
    (y & k' & Hk' & Huser & Hrooms & Hstored & Hclk & Hsilent & Hbroad & Hjoined & Hjoin);
    [congruence|done|].
  cbv zeta in Hjoin. cbv zeta. rewrite Hjoin. clear Hjoin.
  set (z := set_stored _ _).
  destruct (loadMessages (clock s) Responds (stored z) (Some (user k)) roomId None
              BATCH_SIZE) as [[result|e] coll] eqn:Hload; [|done].
  set (w := set_stored coll z).
  assert (Hw : sockets w !! sid
               = Some {| user := user k'; joined := joined k' ∪ {[ roomId ]};
                         handshake := handshake k' |}).
  { subst w z. fields. apply lookup_insert_eq. }
  assert (Hmember : ∀ x, sockets x = sockets w → sid ∈ reached (ToRoom roomId) x).
  { intros x Hx. simpl. eapply members_joined; [by rewrite Hx|].
    simpl. apply elem_of_union_r. by apply elem_of_singleton. }
  split; [|split; [|split; [|split; [|split]]]].
  - subst w z. fields. apply lookup_insert_eq.
  - eexists. split; [exact Hw|]. simpl. split; [done|]. by rewrite (Hjoined current).
  - done.
  - unfold is_participant. subst w z. fields. by rewrite lookup_insert_ne.
  - rewrite broadcasts_emit, decide_True by done.
    rewrite broadcasts_emit, decide_True by done.
    rewrite broadcasts_emit, decide_False by done.
    rewrite app_nil_r, <- app_assoc. f_equal.
    rewrite <- Hbroad. done.
  - eexists. split.
    + rewrite inbox_emit, decide_True by (by apply Hmember).
      rewrite inbox_emit, decide_True by (by apply Hmember).
      rewrite inbox_emit, reached_live by eauto.
      rewrite decide_True by apply list_elem_of_here.
      rewrite <- !app_assoc. f_equal.
      rewrite <- (silent_inbox sid s y Hsilent). done.
    + reflexivity.
Qed.


(** X19.  Switching rooms.  A [joinRoom] for an existing room by an
    identity recorded in another room moves the socket from the old
    room's channel to the new one and the [UserRoom] entry to the new
    room, adds the identity to the new room's participants and sends
    the new room the join message and the participant list — which
    reach the joiner too, after its [joinRoomSuccess].  The old
    room's participant list is not touched: the identity stays a
    participant of the room it has left. *)
Theorem switching_rooms_keeps_the_old_membership
    (s : Server) (sid roomId current : string) (k : Socket) (ps : list string) :
  sockets s !! sid = Some k →
  userRooms s !! id (user k) = Some current →
  current ≠ "" →
  current ≠ roomId →
  rooms s !! roomId = Some ps →
  let s' := joinRoom sid roomId Responds s in
  let ps' := if bool_decide (id (user k) ∈ ps) then ps else ps ++ [id (user k)] in
  let joinMessage :=
    {| Db._id := length (stored s); Db.room := roomId; Db.sender := None;
       Db.content := Some (name (user k) +:+ "님이 입장하였습니다.");
       Db.type := "system"; Db.file := None; Db.aiType := None;
       Db.timestamp := clock s; Db.readers := [] |} in
  userRooms s' !! id (user k) = Some roomId
  ∧ (∃ k', sockets s' !! sid = Some k'
           ∧ joined k' = (joined k ∖ {[ current ]}) ∪ {[ roomId ]})
  ∧ rooms s' = <[roomId := ps']> (rooms s)
  ∧ is_participant current (id (user k)) s' = is_participant current (id (user k)) s
  ∧ broadcasts roomId s'
    = broadcasts roomId s ++ [message joinMessage; participantsUpdate ps']
  ∧ ∃ snapshot,
      inbox sid s'
      = inbox sid s ++ [joinRoomSuccess roomId (Some snapshot); message joinMessage;
                        participantsUpdate ps']
      ∧ participants snapshot = ps'.
Proof.
  intros Hlive Hcurrent Hname Hother Hps.
  destruct (switched_rooms s sid roomId current k ps Hlive Hcurrent Hname Hother Hps)
    as (Hroom & (k' & Hk' & _ & Hjoined) & Hrooms & Hold & Hbroad & Hinbox).
  split; [done|]. split; [by eauto|]. done.
Qed.

Lemma switching_rooms_keeps_the_old_membership_witness :
  let s := set_rooms (<["R2" := ["u2"]]> (rooms (run Scenario.one_client Scenario.fresh)))
             (run Scenario.one_client Scenario.fresh) in
  let s' := joinRoom "s1" "R2" Responds s in
  userRooms s' !! "u1" = Some "R2"
  ∧ rooms s' !! "R2" = Some ["u2"; "u1"]
  ∧ is_participant "R1" "u1" s' = true.
Proof.
  set (s := set_rooms _ _).
  destruct (switching_rooms_keeps_the_old_membership s "s1" "R2" "R1"
              Scenario.laptop_socket_in_R1 ["u2"])
    as (Hroom & _ & Hrooms & Hold & _).
  - vm_compute; reflexivity.
  - vm_compute; reflexivity.
  - discriminate.
  - discriminate.
  - vm_compute; reflexivity.
  - split; [exact Hroom|]. split.
    + rewrite Hrooms. vm_compute; reflexivity.
    + refine (eq_trans Hold _). vm_compute; reflexivity.
Defined.

End RoomFacts.

Module HandshakeFacts.
Import Chat ChatFacts.

(** X20.  A handshake that lacks the token or the session identifier,
    or whose token does not verify to an identity, is refused with
    [connect_error] to the connecting client and has no other effect:
    no connection is registered, no map or timer changes, and an
    existing connection of any identity is neither notified nor
    ended. *)
Theorem handshake_without_identity_has_no_effect
    (s : Server) (sid : string) (hs : Handshake) (env : AuthEnv) :
  JS.truthy_str (token hs) = false
  ∨ JS.truthy_str (auth_sessionId hs) = false
  ∨ (∀ uid, jwt env ≠ Decoded (Some uid)) →
  let s' := middleware sid hs env s in
  ∃ reason,
    out s' = out s ++ [{| target := ToClient sid; recipients := [sid];
                          event := connect_error reason; at_time := clock s |}]
    ∧ s' = set_out (out s') s
    ∧ reason ∈ ["Authentication error"; "Token expired"; "Invalid token";
                "Authentication failed"].
Proof.
  intros Hbad. unfold middleware.
  destruct (negb (JS.truthy_str (token hs) && JS.truthy_str (auth_sessionId hs)))
    eqn:Hcred.
  { eexists. split; [reflexivity|]. split; [done|]. rewrite !elem_of_cons; tauto. }
  apply negb_false_iff, andb_true_iff in Hcred as [Htoken Hsession].
  destruct Hbad as [Hbad | [Hbad | Hbad]]; [congruence..|].
  destruct (jwt env) as [[uid|]| | |] eqn:Hjwt.
  - by destruct (Hbad uid).
  - eexists. split; [reflexivity|]. split; [done|]. rewrite !elem_of_cons; tauto.
  - eexists. split; [reflexivity|]. split; [done|]. rewrite !elem_of_cons; tauto.
  - eexists. split; [reflexivity|]. split; [done|]. rewrite !elem_of_cons; tauto.
  - eexists. split; [reflexivity|]. split; [done|]. rewrite !elem_of_cons; tauto.
Qed.

Lemma handshake_without_identity_has_no_effect_witness :
  let s' := middleware "s2" (Scenario.handshake_from "phone")
              {| jwt := TokenExpiredError; validation := Scenario.valid; found := None |}
              Scenario.connected in
  inbox "s2" s' = [connect_error "Token expired"]
  ∧ inbox "s1" s' = inbox "s1" Scenario.connected
  ∧ timers s' = timers Scenario.connected.
Proof.
  destruct (handshake_without_identity_has_no_effect Scenario.connected "s2"
              (Scenario.handshake_from "phone")
              {| jwt := TokenExpiredError; validation := Scenario.valid; found := None |})
    as (reason & Hout & Hsame & _).
  - right. right. intros uid. discriminate.
  - cbv zeta. split; [vm_compute; reflexivity|].
    split; [vm_compute; reflexivity|]. rewrite Hsame. reflexivity.
Defined.

(** X21.  The existing connection of an identity is ended by a
    handshake that carries a token for that identity, before the
    newcomer's session is checked.  The handshake for [U] arrives at
    [t] while [U] (a non-empty id) is connected as [S_old], the
    connection its [ConnectedUser] entry points to; no timer is
    pending at that moment and nothing else reaches the server until
    the observation at [t'], after the grace window.  When the
    newcomer's session then proves invalid (or the user record is
    missing), the old connection has been notified and disconnected
    all the same, the newcomer is not accepted, and the identity is
    left without [ConnectedUser] entry: its live connections are the
    ones it had besides [S_old]. *)
Theorem refused_newcomer_still_ends_the_old_session
    (s : Server) (U S_old S_new : string) (k_old : Socket) (hs : Handshake)
    (env : AuthEnv) (t t' : Z) :
  exited s = false →
  timers s = [] →
  connectedUsers s !! U = Some S_old →
  S_old ≠ "" →
  sockets s !! S_old = Some k_old →
  id (user k_old) = U →
  sockets s !! S_new = None →
  JS.truthy_str (token hs) = true →
  JS.truthy_str (auth_sessionId hs) = true →
  jwt env = Decoded (Some U) →
  U ≠ "" →
  accepted env = false →
  (clock s ≤ t)%Z →
  (t + DUPLICATE_LOGIN_TIMEOUT ≤ t')%Z →
  let y := run [(t, Connect S_new hs env); (t', Idle)] s in
  event <$> deliveries S_old (length (out s)) y
  = [duplicate_login (user_agent hs) (address hs) t; session_ended "duplicate_login"]
  ∧ sockets y !! S_old = None
  ∧ live_of U y = live_of U s ∖ {[ S_old ]}
  ∧ connectedUsers y !! U = None.
Proof.
  intros Hrun Hquiet Hentry Hname Hlive Howner Hfresh Htoken Hsession Hjwt Hid
    Hrefused Ht Ht'.
  destruct (afterwards s U S_old S_new k_old hs env t Hrun Hquiet Hentry Hname Hlive
              Howner Hfresh Htoken Hsession Hjwt Hid Ht t' Ht')
    as (Hdel & Hgone & _ & Hacc).
  rewrite Hrefused in Hacc. destruct Hacc as [Hnone Hcu].
  cbn [run foldl]. by rewrite Hdel.
Qed.

Lemma refused_newcomer_still_ends_the_old_session_witness :
  let refused := {| jwt := Decoded (Some "u1");
                    validation := {| isValid := false; validation_message := None |};
                    found := None |} in
  let y := run [(1000, Connect "s2" (Scenario.handshake_from "phone") refused);
                (11000, Idle)]%Z Scenario.connected in
  sockets y !! "s1" = None ∧ connectedUsers y !! "u1" = None
  ∧ inbox "s2" y = [connect_error "Invalid session"].
Proof.
  destruct (refused_newcomer_still_ends_the_old_session Scenario.connected
              "u1" "s1" "s2" Scenario.laptop_socket (Scenario.handshake_from "phone")
              {| jwt := Decoded (Some "u1");
                 validation := {| isValid := false; validation_message := None |};
                 found := None |} 1000%Z 11000%Z)
    as (_ & Hgone & _ & Hcu).
  - vm_compute; reflexivity.
  - vm_compute; reflexivity.
  - vm_compute; reflexivity.
  - discriminate.
  - vm_compute; reflexivity.
  - vm_compute; reflexivity.
  - vm_compute; reflexivity.
  - vm_compute; reflexivity.
  - vm_compute; reflexivity.
  - vm_compute; reflexivity.
  - discriminate.
  - vm_compute; reflexivity.
  - vm_compute; discriminate.
  - vm_compute; discriminate.
  - split; [exact Hgone|]. split; [exact Hcu|]. vm_compute; reflexivity.
Defined.

End HandshakeFacts.

Module StreamFacts.
Import Chat ChatFacts.

(** X22.  A generation that fails — the responder reports an error
    through [onError] after some chunks, or the call itself throws —
    stores nothing, although the chunks streamed so far have been
    broadcast: the room is sent [aiMessageStart], the chunks and one
    [aiMessageError], and the streaming session is removed. *)
Theorem failed_generation_stores_nothing
    (s : Server) (room aiName query : string) (chunks : list Chunk) (e : string) :
  let messageId := ai_message_id aiName (clock s) in
  (let '(_, s') :=
     handleAIResponse room aiName query
       {| calls := (onChunk <$> chunks) ++ [onError e]; throws := None |} s in
   since (length (out s)) s'
   = aiMessageStart messageId aiName (clock s)
     :: chunk_events messageId aiName "" chunks
     ++ [aiMessageError messageId
           (if String.eqb e "" then "AI 응답 생성 중 오류가 발생했습니다." else e) aiName]
   ∧ stored s' = stored s
   ∧ streamingSessions s' !! messageId = None)
  ∧ (let '(_, s') :=
       handleAIResponse room aiName query
         {| calls := onChunk <$> chunks; throws := Some e |} s in
     since (length (out s)) s'
     = aiMessageStart messageId aiName (clock s)
       :: chunk_events messageId aiName "" chunks
       ++ [aiMessageError messageId
             (if String.eqb e "" then "AI 서비스 오류가 발생했습니다." else e) aiName]
     ∧ stored s' = stored s
     ∧ streamingSessions s' !! messageId = None).
Proof.
  unfold handleAIResponse. cbn [calls throws].
  set (messageId := ai_message_id aiName (clock s)).
  set (s0 := emit _ _ _).
  destruct (stream_chunks room aiName query messageId chunks "" s0)
    as (s1 & Hfold & added & Hout & Hev & Hst & Hcl & Hdom).
  assert (Hsince : ∀ x last,
    out x = out s1 ++ [last] →
    since (length (out s)) x
    = aiMessageStart messageId aiName (clock s)
      :: chunk_events messageId aiName "" chunks ++ [event last]).
  { intros x last Hx. unfold since. rewrite Hx, Hout. subst s0.
    rewrite out_emit. rewrite <- !app_assoc, drop_app_length.
    simpl. by rewrite fmap_app, Hev. }
  split.
  - rewrite foldl_app, Hfold. simpl.
    split; [|split].
    + erewrite Hsince; [|rewrite out_emit; reflexivity]. done.
    + done.
    + apply lookup_delete_eq.
  - rewrite Hfold.
    split; [|split].
    + erewrite Hsince; [|rewrite out_emit; reflexivity]. done.
    + done.
    + apply lookup_delete_eq.
Qed.

End StreamFacts.

Module HandlerFacts.
Import Chat ChatFacts Handlers.

Lemma members_not_joined room sid k s :
  sockets s !! sid = Some k → room ∉ joined k → sid ∉ members room s.
Proof.
  intros Hlive Hnot. unfold members.
  intros ([sid' k'] & -> & Hin)%list_elem_of_fmap.
  apply elem_of_map_to_list, map_lookup_filter_Some in Hin as [Hin Hroom].
  simpl in *. congruence.
Qed.

(** *** [leaveRoom] *)

(** X23.  [leaveRoom] is ignored without any answer — no change of
    state, no error to the client — unless the room is the one the
    [UserRoom] entry of the identity records and the identity is
    among the room's participants. *)
Theorem leaveRoom_of_another_room_is_ignored
    (s : Server) (sid roomId : string) (k : Socket) (fault : option LeaveFault) :
  sockets s !! sid = Some k →
  userRooms s !! id (user k) ≠ Some roomId
  ∨ (is_participant roomId (id (user k)) s = false
     ∧ ∀ e, fault ≠ Some (FindOneThrows e)) →
  leaveRoom sid roomId fault s = (s, []).
Proof.
  intros Hlive Hcase. unfold leaveRoom. rewrite Hlive.
  destruct (userRooms s !! id (user k)) as [current|] eqn:Hcurrent; [|done].
  destruct (String.eqb current "") eqn:Hname; [done|]. simpl orb.
  destruct (String.eqb current roomId) eqn:Hsame; [|done]. simpl negb. cbv iota.
  apply String.eqb_eq in Hsame as ->.
  destruct Hcase as [Hother | [Hmember Hfault]]; [done|].
  rewrite Hmember. simpl negb.
  destruct fault as [[e|e|e]|]; try done. by destruct (Hfault e).
Qed.

Lemma leaveRoom_of_another_room_is_ignored_witness :
  leaveRoom "s1" "R2" None (run Scenario.one_client Scenario.fresh)
  = (run Scenario.one_client Scenario.fresh, []).
Proof.
  apply (leaveRoom_of_another_room_is_ignored
           (run Scenario.one_client Scenario.fresh) "s1" "R2"
           Scenario.laptop_socket_in_R1 None).
  - vm_compute; reflexivity.
  - left. vm_compute; discriminate.
Defined.

(** [leaveRoom] for the recorded room, up to the store calls. *)
Lemma leaveRoom_recorded s sid roomId k fault :
  sockets s !! sid = Some k →
  userRooms s !! id (user k) = Some roomId →
  roomId ≠ "" →
  is_participant roomId (id (user k)) s = true →
  (∀ e, fault ≠ Some (FindOneThrows e)) →
  let left := set_userRooms (delete (id (user k)) (userRooms s))
                (set_sockets
                   (<[sid := {| user := user k; joined := (joined k ∖ {[ roomId ]});
                                handshake := handshake k |}]> (sockets s)) s) in
  let notice :=
    {| Db._id := length (stored s); Db.room := roomId; Db.sender := None;
       Db.content := Some (name (user k) +:+ "님이 퇴장하였습니다.");
       Db.type := "system"; Db.file := None; Db.aiType := None;
       Db.timestamp := clock s; Db.readers := [] |} in
  leaveRoom sid roomId fault s
  = match fault with
    | Some (CreateThrows e) => (left, [leave_error sid e left])
    | Some (UpdateThrows e) =>
        (set_stored (stored s ++ [notice]) left,
         [leave_error sid e (set_stored (stored s ++ [notice]) left)])
    | _ =>
        match rooms s !! roomId with
        | Some ps =>
            let remaining := filter (λ p, p ≠ id (user k)) ps in
            let y :=
              set_messageLoadRetries
                (delete (retry_key roomId (id (user k))) (messageLoadRetries s))
                (set_messageQueues
                   (delete (retry_key roomId (id (user k))) (messageQueues s))
                   (set_streamingSessions
                      (filter (λ kv, ¬ (ss_room kv.2 = roomId
                                        ∧ ss_userId kv.2 = Some (id (user k))))
                         (streamingSessions s))
                      (set_rooms (<[roomId := remaining]> (rooms s))
                         (set_stored (stored s ++ [notice]) left)))) in
            (emit (ToRoom roomId) (participantsUpdate remaining)
               (emit (ToRoom roomId) (message notice) y), [])
        | None => (set_stored (stored s ++ [notice]) left, [])
        end
    end.
Proof.
  intros Hlive Hroom Hname Hmember Hfault. unfold leaveRoom.
  rewrite Hlive, Hroom.
  replace (String.eqb roomId "") with false
    by (symmetry; by apply String.eqb_neq).
  rewrite String.eqb_refl, Hmember. simpl.
  unfold set_joined. rewrite Hlive. fields.
  destruct fault as [[e|e|e]|]; try done.
  - by destruct (Hfault e).
  - unfold pull_participant. fields. by destruct (rooms s !! roomId).
Qed.

(** X24.  A [leaveRoom] for the recorded room takes the identity out
    of it: the socket leaves the room's channel, the [UserRoom] entry
    and the load guard and retry counter of the room are deleted, the
    identity is pulled from the room's participants, and a system
    message "... 님이 퇴장하였습니다." is stored and broadcast to the
    room with the new participant list.  The leaving connection has
    left the channel before the broadcast and is sent nothing at all,
    not even a confirmation. *)
Theorem leaveRoom_takes_the_identity_out
    (s : Server) (sid roomId : string) (k : Socket) (ps : list string) :
  sockets s !! sid = Some k →
  userRooms s !! id (user k) = Some roomId →
  roomId ≠ "" →
  rooms s !! roomId = Some ps →
  id (user k) ∈ ps →
  let s' := (leaveRoom sid roomId None s).1 in
  let notice :=
    {| Db._id := length (stored s); Db.room := roomId; Db.sender := None;
       Db.content := Some (name (user k) +:+ "님이 퇴장하였습니다.");
       Db.type := "system"; Db.file := None; Db.aiType := None;
       Db.timestamp := clock s; Db.readers := [] |} in
  let remaining := filter (λ p, p ≠ id (user k)) ps in
  (leaveRoom sid roomId None s).2 = []
  ∧ userRooms s' !! id (user k) = None
  ∧ (∃ k', sockets s' !! sid = Some k' ∧ joined k' = joined k ∖ {[ roomId ]})
  ∧ rooms s' = <[roomId := remaining]> (rooms s)
  ∧ is_participant roomId (id (user k)) s' = false
  ∧ stored s' = stored s ++ [notice]
  ∧ messageQueues s' !! retry_key roomId (id (user k)) = None
  ∧ messageLoadRetries s' !! retry_key roomId (id (user k)) = None
  ∧ broadcasts roomId s'
    = broadcasts roomId s ++ [message notice; participantsUpdate remaining]
  ∧ inbox sid s' = inbox sid s.
Proof.
  intros Hlive Hroom Hname Hps Hin.
  assert (Hmember : is_participant roomId (id (user k)) s = true).
  { unfold is_participant. rewrite Hps. by apply bool_decide_eq_true_2. }
  rewrite (leaveRoom_recorded s sid roomId k None Hlive Hroom Hname Hmember) by done.
  rewrite Hps. cbv zeta. cbn [fst snd].
  set (y := set_messageLoadRetries _ _).
  assert (Hy : sockets y !! sid
               = Some {| user := user k; joined := joined k ∖ {[ roomId ]};
                         handshake := handshake k |}).
  { subst y. fields. apply lookup_insert_eq. }
  assert (Hquiet : ∀ x, sockets x = sockets y → sid ∉ reached (ToRoom roomId) x).
  { intros x Hx. simpl. eapply members_not_joined; [by rewrite Hx|].
    simpl. intros [_ Hn]%elem_of_difference. apply Hn. by apply elem_of_singleton. }
  split; [done|]. split; [subst y; fields; apply lookup_delete_eq|].
  split; [by eauto|]. split; [done|].
  split.
  { unfold is_participant. subst y. fields. rewrite lookup_insert_eq.
    apply bool_decide_eq_false_2. by intros [? _]%list_elem_of_filter. }
  split; [done|].
  split; [subst y; fields; apply lookup_delete_eq|].
  split; [subst y; fields; apply lookup_delete_eq|].
  split.
  - rewrite broadcasts_emit, decide_True by done.
    rewrite broadcasts_emit, decide_True by done.
    by rewrite <- app_assoc.
  - rewrite inbox_emit, decide_False by (by apply Hquiet).
    rewrite inbox_emit, decide_False by (by apply Hquiet).
    by rewrite !app_nil_r.
Qed.

Lemma leaveRoom_takes_the_identity_out_witness :
  let s := run Scenario.two_clients_one_message Scenario.fresh in
  let s' := (leaveRoom "s1" "R1" None s).1 in
  userRooms s' !! "u1" = None
  ∧ rooms s' !! "R1" = Some ["u2"]
  ∧ inbox "s1" s' = inbox "s1" s
  ∧ length (inbox "s2" s') = length (inbox "s2" s) + 2.
Proof.
  set (s := run Scenario.two_clients_one_message Scenario.fresh).
  destruct (leaveRoom_takes_the_identity_out s "s1" "R1"
              Scenario.laptop_socket_in_R1 ["u1"; "u2"])
    as (_ & Hroom & _ & Hrooms & _ & _ & _ & _ & _ & Hinbox).
  - vm_compute; reflexivity.
  - vm_compute; reflexivity.
  - discriminate.
  - vm_compute; reflexivity.
  - apply list_elem_of_here.
  - split; [exact Hroom|]. split; [rewrite Hrooms; vm_compute; reflexivity|].
    split; [exact Hinbox|]. vm_compute; reflexivity.
Defined.

(** X25.  [leaveRoom] is not atomic.  When the store fails while the
    leave message is created or the participant is pulled, the socket
    has already left the room's channel and the [UserRoom] entry is
    already deleted (and, in the second case, the leave message is
    already stored), but the identity is still among the room's
    participants and the room is told nothing; the client is sent an
    [error] with the store's reason. *)
Theorem leaveRoom_interrupted_by_the_store
    (s : Server) (sid roomId e : string) (k : Socket) (fault : LeaveFault) :
  sockets s !! sid = Some k →
  userRooms s !! id (user k) = Some roomId →
  roomId ≠ "" →
  is_participant roomId (id (user k)) s = true →
  fault = CreateThrows e ∨ fault = UpdateThrows e →
  let s' := (leaveRoom sid roomId (Some fault) s).1 in
  (leaveRoom sid roomId (Some fault) s).2
  = [{| to := ToSocket sid; got := [sid];
        notice := plain_error (if String.eqb e "" then "채팅방 퇴장 중 오류가 발생했습니다."
                               else e) |}]
  ∧ userRooms s' !! id (user k) = None
  ∧ (∃ k', sockets s' !! sid = Some k' ∧ joined k' = joined k ∖ {[ roomId ]})
  ∧ is_participant roomId (id (user k)) s' = true
  ∧ out s' = out s
  ∧ length (stored s')
    = length (stored s) + match fault with UpdateThrows _ => 1 | _ => 0 end.
Proof.
  intros Hlive Hroom Hname Hmember Hfault.
  rewrite (leaveRoom_recorded s sid roomId k (Some fault) Hlive Hroom Hname Hmember)
    by (intros e'; destruct Hfault; congruence).
  cbv zeta. destruct Hfault as [-> | ->]; cbn [fst snd]; fields.
  - unfold leave_error, send, reached. fields.
    rewrite lookup_insert_eq, lookup_delete_eq, decide_True by eauto.
    split; [done|]. split; [done|]. split; [by eauto|]. split; [done|].
    split; [done|]. lia.
  - unfold leave_error, send, reached. fields.
    rewrite lookup_insert_eq, lookup_delete_eq, decide_True by eauto.
    split; [done|]. split; [done|]. split; [by eauto|]. split; [done|].
    split; [done|]. rewrite length_app. simpl. lia.
Qed.

Lemma leaveRoom_interrupted_by_the_store_witness :
  let s := run Scenario.one_client Scenario.fresh in
  let s' := (leaveRoom "s1" "R1" (Some (UpdateThrows "store down")) s).1 in
  userRooms s' !! "u1" = None ∧ is_participant "R1" "u1" s' = true ∧ out s' = out s.
Proof.
  destruct (leaveRoom_interrupted_by_the_store
              (run Scenario.one_client Scenario.fresh) "s1" "R1" "store down"
              Scenario.laptop_socket_in_R1 (UpdateThrows "store down"))
    as (_ & Hroom & _ & Hmember & Hout & _).
  - vm_compute; reflexivity.
  - vm_compute; reflexivity.
  - discriminate.
  - vm_compute; reflexivity.
  - by right.
  - split; [exact Hroom|]. split; [exact Hmember | exact Hout].
Defined.

(** X26.  After switching rooms the old room cannot be left any more:
    [joinRoom] has moved the [UserRoom] entry to the new room without
    pulling the identity from the old room's participants, and a
    later [leaveRoom] for the old room is ignored because the entry
    names another room.  The identity stays a participant of the old
    room. *)
Theorem old_room_cannot_be_left_after_switching
    (s : Server) (sid roomId current : string) (k : Socket) (ps : list string)
    (fault : option LeaveFault) :
  sockets s !! sid = Some k →
  userRooms s !! id (user k) = Some current →
  current ≠ "" →
  current ≠ roomId →
  rooms s !! roomId = Some ps →
  let switched := joinRoom sid roomId Responds s in
  leaveRoom sid current fault switched = (switched, [])
  ∧ is_participant current (id (user k)) switched
    = is_participant current (id (user k)) s.
Proof.
  intros Hlive Hcurrent Hname Hother Hps.
  destruct (RoomFacts.switched_rooms s sid roomId current k ps Hlive Hcurrent Hname
              Hother Hps)
    as (Hroom & (k' & Hk' & Huser & _) & _ & Hold & _).
  split; [|done].
  unfold leaveRoom. rewrite Hk', Huser, Hroom.
  destruct (String.eqb roomId "") eqn:Hempty; [done|]. simpl orb.
  replace (String.eqb roomId current) with false; [done|].
  symmetry. by apply String.eqb_neq.
Qed.

Lemma old_room_cannot_be_left_after_switching_witness :
  let s := set_rooms (<["R2" := ["u2"]]> (rooms (run Scenario.one_client Scenario.fresh)))
             (run Scenario.one_client Scenario.fresh) in
  let switched := joinRoom "s1" "R2" Responds s in
  leaveRoom "s1" "R1" None switched = (switched, [])
  ∧ is_participant "R1" "u1" switched = true.
Proof.
  set (s := set_rooms _ _).
  destruct (old_room_cannot_be_left_after_switching s "s1" "R2" "R1"
              Scenario.laptop_socket_in_R1 ["u2"] None) as (Hleave & Hold).
  - vm_compute; reflexivity.
  - vm_compute; reflexivity.
  - discriminate.
  - discriminate.
  - vm_compute; reflexivity.
  - split; [exact Hleave|]. refine (eq_trans Hold _). vm_compute; reflexivity.
Defined.

(** *** [force_login] *)

(** X27.  [force_login] ends the connection that sends it: when the
    token verifies to the identity of that very connection, the
    connection is sent [session_ended] with reason [force_logout] and
    is disconnected by the server — it is gone from the live
    connections, receives nothing after the notice, and its identity
    loses the [ConnectedUser] entry if the entry named this
    connection, and the [UserRoom] entry in any case. *)
Theorem force_login_ends_the_requesting_connection
    (s : Server) (sid : string) (k : Socket) :
  sockets s !! sid = Some k →
  id (user k) ≠ "" →
  let s' := (force_login sid (Decoded (Some (id (user k)))) s).1 in
  (force_login sid (Decoded (Some (id (user k)))) s).2 = []
  ∧ sockets s' = delete sid (sockets s)
  ∧ inbox sid s' = inbox sid s ++ [session_ended "force_logout"]
  ∧ connectedUsers s'
    = (if decide (connectedUsers s !! id (user k) = Some sid)
       then delete (id (user k)) (connectedUsers s) else connectedUsers s)
  ∧ userRooms s' !! id (user k) = None.
Proof.
  intros Hlive Hname. unfold force_login. rewrite Hlive.
  replace (JS.truthy_str (Some (id (user k)))) with true
    by (symmetry; simpl; by apply negb_true_iff, String.eqb_neq).
  rewrite bool_decide_eq_true_2 by done. cbn [andb fst snd].
  unfold disconnect, close_socket. fields. rewrite Hlive.
  set (x := emit (ToSocket sid) (session_ended "force_logout") s).
  set (x0 := set_sockets (delete sid (sockets s)) x).
  destruct (on_disconnect_frame sid k "server namespace disconnect" x0)
    as (Hsock & _ & _ & _ & Hcu & Hsilent).
  destruct (SessionFacts.on_disconnect_maps sid k "server namespace disconnect" x0)
    as (Hur & _).
  split; [done|]. split; [by rewrite Hsock|]. split; [|split].
  - rewrite (silent_inbox sid x0 _ (Hsilent (lookup_delete_eq _ _))).
    change (inbox sid x0) with (inbox sid x). subst x.
    rewrite inbox_emit, reached_live by eauto.
    by rewrite decide_True by apply list_elem_of_here.
  - by rewrite Hcu.
  - rewrite Hur. apply lookup_delete_eq.
Qed.

Lemma force_login_ends_the_requesting_connection_witness :
  let s := run Scenario.one_client Scenario.fresh in
  let s' := (force_login "s1" (Decoded (Some "u1")) s).1 in
  sockets s' !! "s1" = None
  ∧ inbox "s1" s' = inbox "s1" s ++ [session_ended "force_logout"].
Proof.
  destruct (force_login_ends_the_requesting_connection
              (run Scenario.one_client Scenario.fresh) "s1" Scenario.laptop_socket_in_R1)
    as (_ & Hsock & Hinbox & _).
  - vm_compute; reflexivity.
  - discriminate.
  - split; [|exact Hinbox]. cbv zeta.
    change (id (user Scenario.laptop_socket_in_R1)) with "u1" in Hsock.
    rewrite Hsock. apply lookup_delete_eq.
Defined.

(** X28.  A [force_login] whose token does not verify, or verifies to
    no identity or to another identity than the connection's own,
    changes nothing: the connection stays, and it is sent one [error]
    saying that ending the session failed. *)
Theorem force_login_with_a_foreign_token_is_refused
    (s : Server) (sid : string) (k : Socket) (decoded : Jwt) :
  sockets s !! sid = Some k →
  decoded ≠ Decoded (Some (id (user k))) →
  force_login sid decoded s
  = (s, [{| to := ToSocket sid; got := [sid];
            notice := plain_error "세션 종료 중 오류가 발생했습니다." |}]).
Proof.
  intros Hlive Hother. unfold force_login. rewrite Hlive.
  unfold send, reached. rewrite Hlive, decide_True by eauto.
  destruct decoded as [uid| | |]; try done.
  rewrite bool_decide_eq_false_2 by congruence. by rewrite andb_false_r.
Qed.

Lemma force_login_with_a_foreign_token_is_refused_witness :
  (force_login "s1" (Decoded (Some "u2")) (run Scenario.one_client Scenario.fresh)).1
  = run Scenario.one_client Scenario.fresh.
Proof.
  rewrite (force_login_with_a_foreign_token_is_refused
             (run Scenario.one_client Scenario.fresh) "s1" Scenario.laptop_socket_in_R1
             (Decoded (Some "u2"))).
  - reflexivity.
  - vm_compute; reflexivity.
  - discriminate.
Defined.

(** *** [markMessagesAsRead] *)

Lemma mark_room_read_lookup roomId uid now ids coll m' :
  m' ∈ mark_room_read roomId uid now ids coll →
  ∃ m, m ∈ coll
       ∧ (m' = m
          ∨ m' = push_reader uid now m ∧ Db._id m ∈ ids ∧ Db.room m = roomId
            ∧ has_reader uid m = false).
Proof.
  unfold mark_room_read. intros (m & -> & Hin)%list_elem_of_fmap. exists m.
  split; [done|].
  case_bool_decide as Hid; simpl; [|by left].
  destruct (String.eqb (Db.room m) roomId) eqn:Hroom; simpl; [|by left].
  destruct (has_reader uid m) eqn:Hread; simpl; [by left|].
  right. apply String.eqb_eq in Hroom. done.
Qed.

Lemma mark_room_read_marked roomId uid now ids coll m :
  m ∈ coll → Db._id m ∈ ids → Db.room m = roomId →
  ∃ m', m' ∈ mark_room_read roomId uid now ids coll
        ∧ Db._id m' = Db._id m ∧ has_reader uid m' = true.
Proof.
  intros Hin Hid Hroom.
  exists (if bool_decide (Db._id m ∈ ids) && String.eqb (Db.room m) roomId
             && negb (has_reader uid m)
          then push_reader uid now m else m).
  split; [|split].
  - unfold mark_room_read. apply list_elem_of_fmap. eauto.
  - by destruct (_ && _ && _).
  - rewrite bool_decide_eq_true_2 by done.
    replace (String.eqb (Db.room m) roomId) with true
      by (symmetry; by apply String.eqb_eq).
    destruct (has_reader uid m) eqn:Hread; simpl; [done|].
    apply LoaderFacts.has_reader_push.
Qed.

Lemma mark_room_read_idempotent roomId uid now now' ids coll :
  mark_room_read roomId uid now' ids (mark_room_read roomId uid now ids coll)
  = mark_room_read roomId uid now ids coll.
Proof.
  unfold mark_room_read. rewrite <- list_fmap_compose.
  apply list_fmap_ext. intros _ m _. simpl.
  destruct (bool_decide (Db._id m ∈ ids) && String.eqb (Db.room m) roomId
            && negb (has_reader uid m)) eqn:Hmark; simpl.
  - by rewrite LoaderFacts.has_reader_push, andb_false_r.
  - by rewrite Hmark.
Qed.

(** X29.  [markMessagesAsRead] with a non-empty list of identifiers
    records the identity of the connection as reader of those
    documents of the given room that are in the list and do not name
    it as reader yet, and of no other document, so that no reader
    list names an identity twice and a repeated call changes nothing
    more; every listed document of the room is read by the identity
    afterwards.  The others in the room's channel are told
    [messagesRead]; the connection itself is not.  Whether the
    identity is a participant of the room is not checked.  Without a
    list, or with an empty one, the handler does nothing. *)
Theorem markMessagesAsRead_marks_once
    (s : Server) (sid roomId : string) (k : Socket) (i : nat) (ids : list nat) :
  sockets s !! sid = Some k →
  let uid := id (user k) in
  let r := markMessagesAsRead sid roomId (Some (i :: ids)) None s in
  r.2 = [{| to := ToRoomExcept roomId sid;
            got := filter (λ x, x ≠ sid) (members roomId s);
            notice := messagesRead uid (i :: ids) |}]
  ∧ r.1 = set_stored (stored r.1) s
  ∧ length (stored r.1) = length (stored s)
  ∧ (∀ m', m' ∈ stored r.1 →
       ∃ m, m ∈ stored s
            ∧ (m' = m
               ∨ m' = push_reader uid (clock s) m ∧ Db._id m ∈ i :: ids
                 ∧ Db.room m = roomId ∧ has_reader uid m = false))
  ∧ (∀ m, m ∈ stored s → Db._id m ∈ i :: ids → Db.room m = roomId →
       ∃ m', m' ∈ stored r.1 ∧ Db._id m' = Db._id m ∧ has_reader uid m' = true)
  ∧ (markMessagesAsRead sid roomId (Some (i :: ids)) None r.1).1 = r.1
  ∧ markMessagesAsRead sid roomId None None s = (s, [])
  ∧ markMessagesAsRead sid roomId (Some []) None s = (s, []).
Proof.
  intros Hlive. unfold markMessagesAsRead. rewrite Hlive. cbn [fst snd]. fields.
  split; [done|]. split; [done|].
  split; [unfold mark_room_read; by rewrite length_fmap|].
  split; [intros m'; apply mark_room_read_lookup|].
  split; [intros m; apply mark_room_read_marked|].
  rewrite Hlive. cbn [fst]. fields.
  by rewrite mark_room_read_idempotent.
Qed.

Lemma markMessagesAsRead_marks_once_witness :
  let s := set_stored Scenario.three_messages (run Scenario.two_clients_one_message
                                                 Scenario.fresh) in
  let r := markMessagesAsRead "s2" "R1" (Some [0; 2]) None s in
  (Db.readers <$> stored r.1) = [[("u2", 4%Z)]; []; [("u2", 4%Z)]]
  ∧ (got <$> r.2) = [["s1"]].
Proof.
  set (s := set_stored _ _).
  destruct (markMessagesAsRead_marks_once s "s2" "R1"
              {| user := {| id := "u2"; name := "user u2"; email := "u2@example.org";
                            sessionId := "session-1"; profileImage := "" |};
                 joined := {[ "s2"; "R1" ]};
                 handshake := Scenario.handshake_from "phone" |} 0 [2])
    as (Hsent & _).
  - vm_compute; reflexivity.
  - split; [vm_compute; reflexivity|]. rewrite Hsent. vm_compute; reflexivity.
Defined.

End HandlerFacts.

Module MentionFacts.
Import Handlers.

Lemma append_cons (c : Ascii.ascii) (a b : string) :
  String c a +:+ b = String c (a +:+ b).
Proof. done. Qed.

Lemma after_prefix_spec p : ∀ s rest, after_prefix p s = Some rest ↔ s = p +:+ rest.
Proof.
  induction p as [|a p IH]; intros s rest.
  - simpl. change ("" +:+ rest) with rest. split; congruence.
  - rewrite append_cons. destruct s as [|b s]; simpl; [done|].
    destruct (Ascii.eqb a b) eqn:Hab.
    + apply Ascii.eqb_eq in Hab as ->. rewrite IH. split; congruence.
    + apply Ascii.eqb_neq in Hab. split; [done|]. congruence.
Qed.

Lemma first_alternative_sound alternatives s name :
  first_alternative alternatives s = Some name →
  name ∈ alternatives ∧ ∃ rest, s = name +:+ rest ∧ at_boundary rest = true.
Proof.
  induction alternatives as [|a alternatives IH]; simpl; [done|].
  destruct (after_prefix a s) as [rest|] eqn:Hrest.
  - destruct (at_boundary rest) eqn:Hb.
    + intros [= <-]. split; [apply list_elem_of_here|].
      exists rest. by apply after_prefix_spec in Hrest.
    + intros [? ?]%IH. split; [by apply list_elem_of_further | done].
  - intros [? ?]%IH. split; [by apply list_elem_of_further | done].
Qed.

Lemma first_alternative_complete name rest :
  name ∈ aiTypes → at_boundary rest = true →
  first_alternative aiTypes (name +:+ rest) = Some name.
Proof.
  intros Hname Hb. unfold aiTypes in *.
  apply elem_of_cons in Hname as [-> | Hname].
  - cbn [first_alternative].
    replace (after_prefix "wayneAI" ("wayneAI" +:+ rest)) with (Some rest)
      by (symmetry; by apply after_prefix_spec).
    by rewrite Hb.
  - apply list_elem_of_singleton in Hname as ->.
    cbn [first_alternative].
    replace (after_prefix "wayneAI" ("consultingAI" +:+ rest)) with (@None string)
      by done.
    replace (after_prefix "consultingAI" ("consultingAI" +:+ rest)) with (Some rest)
      by (symmetry; by apply after_prefix_spec).
    by rewrite Hb.
Qed.

Lemma match_here_spec s name :
  match_here s = Some name
  ↔ name ∈ aiTypes ∧ ∃ rest, s = "@" +:+ name +:+ rest ∧ at_boundary rest = true.
Proof.
  split.
  - destruct s as [|c s]; [done|]. unfold match_here.
    destruct (Nat.eqb (Ascii.nat_of_ascii c) 64) eqn:Hc; [|done].
    apply Nat.eqb_eq in Hc.
    assert (c = Ascii.ascii_of_nat 64) as ->
      by (by rewrite <- Hc, Ascii.ascii_nat_embedding).
    intros [Hin (rest & -> & Hb)]%first_alternative_sound. split; [done|]. by exists rest.
  - intros [Hin (rest & -> & Hb)].
    change ("@" +:+ name +:+ rest) with (String (Ascii.ascii_of_nat 64) (name +:+ rest)).
    unfold match_here. rewrite Ascii.nat_ascii_embedding by lia.
    rewrite Nat.eqb_refl. by apply first_alternative_complete.
Qed.

(** A name of an assistant holds no [@]. *)
Lemma no_at_in_name name u v : name ∈ aiTypes → name ≠ u +:+ "@" +:+ v.
Proof.
  unfold aiTypes. intros [-> | ->%list_elem_of_singleton]%elem_of_cons Heq.
  - do 7 (destruct u as [|? u];
           [discriminate Heq | rewrite append_cons in Heq; injection Heq as _ Heq]).
    destruct u; discriminate Heq.
  - do 12 (destruct u as [|? u];
            [discriminate Heq | rewrite append_cons in Heq; injection Heq as _ Heq]).
    destruct u; discriminate Heq.
Qed.

Lemma at_behind_prefix a : ∀ b x y,
  (∀ u v, a ≠ u +:+ "@" +:+ v) →
  a +:+ x = b +:+ "@" +:+ y →
  String.length a ≤ String.length b.
Proof.
  induction a as [|c a IH]; intros b x y Hno Heq; [simpl; lia|].
  destruct b as [|c' b].
  - exfalso. change ("" +:+ "@" +:+ y) with (String (Ascii.ascii_of_nat 64) y) in Heq.
    rewrite append_cons in Heq. injection Heq as -> _.
    by apply (Hno "" a).
  - rewrite !append_cons in Heq. injection Heq as -> Heq.
    simpl. apply le_n_S. apply (IH b x y); [|done].
    intros u v ->. by apply (Hno (String c' u) v).
Qed.

(** Every capture is a mention in the text. *)
Lemma captures_sound name s : ∀ skip,
  name ∈ captures skip s →
  name ∈ aiTypes
  ∧ ∃ pre post, s = pre +:+ "@" +:+ name +:+ post ∧ at_boundary post = true.
Proof.
  induction s as [|c s IH]; intros skip; [by intros ?%elem_of_nil|].
  assert (Hlater : ∀ k, name ∈ captures k s →
    name ∈ aiTypes
    ∧ ∃ pre post, String c s = pre +:+ "@" +:+ name +:+ post ∧ at_boundary post = true).
  { intros k (Hin & pre & post & -> & Hb)%IH. split; [done|].
    by exists (String c pre), post. }
  cbn [captures]. destruct skip as [|skip]; [|apply Hlater].
  destruct (match_here (String c s)) as [n|] eqn:Hhere; [|apply Hlater].
  intros [-> | Hin]%elem_of_cons; [|by eapply Hlater].
  apply match_here_spec in Hhere as (Hin & rest & Heq & Hb).
  split; [done|]. by exists "", rest.
Qed.

(** Every mention in the text is captured: the characters passed
    over behind a match belong to the matched name and hold no [@]. *)
Lemma captures_complete name post : ∀ pre skip,
  name ∈ aiTypes → at_boundary post = true →
  skip ≤ String.length pre →
  name ∈ captures skip (pre +:+ "@" +:+ name +:+ post).
Proof.
  intros pre skip Hname Hb. revert skip.
  induction pre as [|c pre IH]; intros skip Hskip.
  - simpl in Hskip. assert (skip = 0) as -> by lia.
    change ("" +:+ "@" +:+ name +:+ post)
      with (String (Ascii.ascii_of_nat 64) (name +:+ post)).
    cbn [captures].
    assert (Hhere : match_here (String (Ascii.ascii_of_nat 64) (name +:+ post))
                    = Some name).
    { apply match_here_spec. split; [done|]. by exists post. }
    rewrite Hhere. apply list_elem_of_here.
  - rewrite append_cons. cbn [captures]. simpl in Hskip.
    destruct skip as [|skip]; [|apply IH; lia].
    destruct (match_here (String c (pre +:+ "@" +:+ name +:+ post))) as [n|] eqn:Hhere;
      [|apply IH; lia].
    apply list_elem_of_further, IH.
    apply match_here_spec in Hhere as (Hn & rest & Heq & _).
    change ("@" +:+ n +:+ rest) with (String (Ascii.ascii_of_nat 64) (n +:+ rest)) in Heq.
    injection Heq as _ Heq. symmetry in Heq.
    eapply at_behind_prefix; [|exact Heq].
    intros u v. by apply no_at_in_name.
Qed.

Lemma add_mentions_spec name l : ∀ mentions,
  name ∈ foldl add_mention mentions l
  ↔ name ∈ mentions ∨ (name ∈ l ∧ name ∈ aiTypes).
Proof.
  induction l as [|x l IH]; intros mentions; simpl.
  - rewrite elem_of_nil. tauto.
  - rewrite IH, elem_of_cons. unfold add_mention.
    case_bool_decide as Hx; [case_bool_decide as Hm|].
    + split; [tauto|]. intros [?|[[->|?] ?]]; tauto.
    + rewrite elem_of_app, list_elem_of_singleton.
      split; [intros [[?| ->]|?]; tauto|]. intros [?|[[->|?] ?]]; tauto.
    + split; [tauto|]. intros [?|[[->|?] ?]]; tauto.
Qed.

Lemma add_mentions_NoDup l : ∀ mentions,
  NoDup mentions → NoDup (foldl add_mention mentions l).
Proof.
  induction l as [|x l IH]; intros mentions Hnodup; [done|]. simpl. apply IH.
  unfold add_mention. repeat case_bool_decide; try done.
  apply NoDup_app. split; [done|]. split; [|apply NoDup_singleton].
  by intros y Hy ->%list_elem_of_singleton.
Qed.

(** X30.  [extractAIMentions] returns exactly the assistants that are
    mentioned in the text: a name of [wayneAI], [consultingAI] is in
    the result if and only if the text holds [@] followed by the name
    and then ends or goes on with a character that is not a letter,
    digit or underscore.  Each name is returned once, however often
    it is mentioned, and a missing or empty text has no mentions. *)
Theorem extractAIMentions_finds_each_mention_once (content : option string) :
  NoDup (extractAIMentions content)
  ∧ (∀ name,
       name ∈ extractAIMentions content
       ↔ name ∈ aiTypes
         ∧ ∃ pre post, content = Some (pre +:+ "@" +:+ name +:+ post)
                       ∧ at_boundary post = true)
  ∧ extractAIMentions None = []
  ∧ extractAIMentions (Some "") = [].
Proof.
  split; [|split; [|done]].
  - unfold extractAIMentions. destruct (negb _); [apply NoDup_nil_2|].
    apply add_mentions_NoDup, NoDup_nil_2.
  - intros name. unfold extractAIMentions.
    destruct content as [s|]; simpl.
    2:{ rewrite elem_of_nil. split; [done|]. by intros (_ & ? & ? & ? & _). }
    destruct (String.eqb s "") eqn:Hs; simpl.
    + apply String.eqb_eq in Hs as ->. rewrite elem_of_nil. split; [done|].
      intros (_ & pre & post & Heq & _). destruct pre; discriminate.
    + rewrite add_mentions_spec, elem_of_nil. split.
      * intros [[]|[(Hin & pre & post & -> & Hb)%captures_sound _]].
        split; [done|]. by exists pre, post.
      * intros (Hin & pre & post & [= ->] & Hb). right. split; [|done].
        apply captures_complete; [done..|lia].
Qed.

End MentionFacts.
